(** * Congressional-record updater: a shallow embedding of
      [update_congressional_records.py] and the properties of its
      rate-limited client, catalog synchroniser, completeness check and
      incremental download controller.

    The methods of [CongressionalRecordUpdater] and the functions around
    it are written in a monad over the state of the updater object and of
    its environment.  The environment is explicit: the remote API is an
    oracle that answers the requests of a run in order, the clock moves
    with sleeps and latencies, the file system is the set of paths that
    exist together with a second oracle that says of each creation of a
    directory and each opening of a file whether it goes through, and a
    pending interrupt is a countdown over the blocking operations of the
    client and the controller (sleeps, requests, file writes).  The
    unbounded loops ([make_request], the page loop of
    [fetch_recent_issues]) take fuel, one unit per iteration; running out
    is an outcome of its own, never a result.  Console output and the
    progress bar are left out, and so is an interrupt that arrives while
    they are at work. *)

From Stdlib Require Import Ascii String DecimalString DecimalZ.
From Stdlib Require Import List Bool Arith ZArith NArith QArith Lia.
From Stdlib Require Import Permutation Lqa.
Import ListNotations.

Local Open Scope nat_scope.

(** ** Python text

    A Python [str] is a sequence of Unicode code points; a character is
    modelled by its code point, so [len] is [length] also on non-ASCII
    titles. *)

Module PyStr.

Definition char := N.
Definition pystr := list char.

(** An ASCII literal of the source, as code points. *)
Definition lit (s : string) : pystr := map N_of_ascii (list_ascii_of_string s).
Arguments lit s%_string.

Definition char_eqb (a b : char) : bool := N.eqb a b.

Fixpoint eqb (a b : pystr) : bool :=
  match a, b with
  | [], [] => true
  | x :: a', y :: b' => char_eqb x y && eqb a' b'
  | _, _ => false
  end.

(** [a < b] on [str]: lexicographic on code points. *)
Fixpoint ltb (a b : pystr) : bool :=
  match a, b with
  | _, [] => false
  | [], _ :: _ => true
  | x :: a', y :: b' => N.ltb x y || (N.eqb x y && ltb a' b')
  end.

Fixpoint starts_with (p s : pystr) : bool :=
  match p, s with
  | [], _ => true
  | _ :: _, [] => false
  | x :: p', y :: s' => char_eqb x y && starts_with p' s'
  end.

(** [p in s] for two strings: substring test. *)
Fixpoint contains (p s : pystr) : bool :=
  starts_with p s ||
  match s with
  | [] => false
  | _ :: s' => contains p s'
  end.

(** [c in s] for a one-character [c]. *)
Definition mem (c : char) (s : pystr) : bool := existsb (char_eqb c) s.

(** [str.isspace] on one character, the set [str.strip()] removes. *)
Definition isspace (c : char) : bool :=
  ((9 <=? c) && (c <=? 13) || (28 <=? c) && (c <=? 32) ||
   (c =? 133) || (c =? 160) || (c =? 5760) ||
   (8192 <=? c) && (c <=? 8202) || (c =? 8232) || (c =? 8233) ||
   (c =? 8239) || (c =? 8287) || (c =? 12288))%N.

Fixpoint lstrip (s : pystr) : pystr :=
  match s with
  | [] => []
  | c :: s' => if isspace c then lstrip s' else s
  end.

Definition rstrip (s : pystr) : pystr := rev (lstrip (rev s)).

Definition strip (s : pystr) : pystr := rstrip (lstrip s).

(** [str(n)] for an [int]. *)
Definition of_Z (z : Z) : pystr := lit (NilZero.string_of_int (Z.to_int z)).
Definition of_nat (n : nat) : pystr := of_Z (Z.of_nat n).

(** Truthiness of an optional string: [None] and [''] are falsy. *)
Definition truthy (o : option pystr) : bool :=
  match o with
  | Some (_ :: _) => true
  | _ => false
  end.

End PyStr.
Import PyStr.

(** ** [safe_filename] (lines 171-179) *)

Definition safe_chars : pystr :=
  lit "abcdefghijklmnopqrstuvwxyzABCDEFGHIJKLMNOPQRSTUVWXYZ0123456789-_. ".

Definition underscore : char := 95%N.

Definition safe_filename_with (text : pystr) (max_length : nat) : pystr :=
  let filename := map (fun c => if mem c safe_chars then c else underscore) text in
  let filename :=
    if max_length <? length filename then firstn max_length filename else filename in
  strip filename.

(** The default [max_length=100], the only value a call site uses. *)
Definition safe_filename (text : pystr) : pystr := safe_filename_with text 100.

(** ** Data model: the JSON shapes the code reads

    A key read with [.get] is an [option]; a key read with [[...]] is a
    plain field.  Page ranges of a section article only reach the sidecar
    file, whose content is not tracked, and are left out. *)

Record text_item := mkTextItem {
  ti_type : option pystr;
  ti_url : option pystr
}.

Record section_article := mkSectionArticle {
  title : option pystr;
  text : list text_item
}.

Record article := mkArticle {
  name : option pystr;
  sectionArticles : list section_article
}.

Record issue := mkIssue {
  congress : Z;
  volumeNumber : Z;
  issueNumber : Z;
  issueDate : pystr
}.

(** A decoded JSON object of the API ([response.json()]). *)
Record payload := mkPayload {
  articles : option (list article);
  dailyCongressionalRecord : option (list issue);
  pagination_next : option pystr
}.

(** What [session.get] followed by [raise_for_status] can do: answer 429,
    answer with a success whose body is there to read ([response.text],
    [response.json()]), time out, or raise another [RequestException] (a
    connection error, or the [HTTPError] of an error status) with the
    given text as [str(e)]. *)
Inductive response :=
| Status429
| Status200 (body_text : pystr) (body_json : payload)
| Timeout
| RequestException (message : pystr).

(** ** The updater object and its environment *)

Record Updater := mkUpdater {
  api_keys : list pystr;
  key_pos : nat;                    (* position of [api_key_cycle] *)
  request_count : nat;
  last_request_time : Q;
  consecutive_existing_issues : nat;
  stop_threshold : nat
}.

(** [__init__] (lines 19-28). *)
Definition new_updater (keys : list pystr) : Updater :=
  mkUpdater keys 0 0 0 0 3.

Definition current_api_key (u : Updater) : pystr := nth (key_pos u) (api_keys u) [].

(** The three [time.sleep] call sites: line 53, lines 66 and 133, lines 95
    and 160. *)
Inductive sleep_event :=
| BackoffSleep (wait_time : Z)
| ThrottleSleep (sleep_time : Q)
| RetrySleep.

Definition duration (e : sleep_event) : Q :=
  match e with
  | BackoffSleep w => inject_Z w
  | ThrottleSleep t => t
  | RetrySleep => 1
  end.

(** What becomes of an attempt to create a directory or to open and
    write a file whose parent directory is there: it goes through, or
    [open] (or [mkdir]) raises an [OSError] with the given text as
    [str(e)] and nothing is created, or the file is created and a write
    to it raises. *)
Inductive disk_verdict :=
| Written
| Refused (e : pystr)
| Broken (e : pystr).

(** The environment of a run.  The remote side is an oracle: the [n]-th
    request of the run is answered by [net n], after the given latency,
    whatever it asks; [sent] records what it asked.  Of the file system
    only the set of existing paths is kept, which is all the code reads
    back; the disk is an oracle too: the [n]-th creation of a directory
    or opening of a file for writing gets the verdict [disk n].
    [interrupt_in = Some k] means an external interrupt is pending and is
    delivered at the [k]-th next blocking operation (a sleep, a request,
    a file write); an interrupt that arrives anywhere else is not
    modelled. *)
Record World := mkWorld {
  net : nat -> Q * response;
  net_pos : nat;
  sent : list (pystr * list (pystr * pystr));   (* url and params of each request *)
  clock : Q;
  sleeps : list sleep_event;
  fs : list pystr;                      (* paths that exist *)
  catalog_file : option (list issue);   (* all_issues.json, [None] if unreadable *)
  interrupt_in : option nat;
  disk : nat -> disk_verdict;
  disk_pos : nat
}.

Definition State : Type := Updater * World.

(** ** The monad of the embedding: state, exceptions, fuel *)

Inductive exn := KeyboardInterrupt | OtherError.

Inductive outcome (A : Type) :=
| Ret (a : A)
| Raise (e : exn)
| OutOfFuel.
Arguments Ret {A} a.
Arguments Raise {A} e.
Arguments OutOfFuel {A}.

Definition M (A : Type) : Type := State -> outcome A * State.

Definition ret {A} (a : A) : M A := fun s => (Ret a, s).

Definition bind {A B} (m : M A) (f : A -> M B) : M B :=
  fun s =>
    match m s with
    | (Ret a, s') => f a s'
    | (Raise e, s') => (Raise e, s')
    | (OutOfFuel, s') => (OutOfFuel, s')
    end.

Notation "x <- m ;; k" := (bind m (fun x => k))
  (at level 61, m at next level, right associativity).
Notation "m ;; k" := (bind m (fun _ => k))
  (at level 61, right associativity).
Notation "' pat <- m ;; k" :=
  (bind m (fun x => match x with pat => k end))
  (at level 61, pat pattern, m at next level, right associativity).

Definition raise {A} (e : exn) : M A := fun s => (Raise e, s).
Definition out_of_fuel {A} : M A := fun s => (OutOfFuel, s).

Definition get_self : M Updater := fun s => (Ret (fst s), s).
Definition get_world : M World := fun s => (Ret (snd s), s).
Definition modify_self (f : Updater -> Updater) : M unit :=
  fun s => (Ret tt, (f (fst s), snd s)).
Definition modify_world (f : World -> World) : M unit :=
  fun s => (Ret tt, (fst s, f (snd s))).

Definition set_key_pos (k : nat) (u : Updater) : Updater :=
  mkUpdater (api_keys u) k (request_count u) (last_request_time u)
            (consecutive_existing_issues u) (stop_threshold u).
Definition set_request_count (n : nat) (u : Updater) : Updater :=
  mkUpdater (api_keys u) (key_pos u) n (last_request_time u)
            (consecutive_existing_issues u) (stop_threshold u).
Definition set_last_request_time (t : Q) (u : Updater) : Updater :=
  mkUpdater (api_keys u) (key_pos u) (request_count u) t
            (consecutive_existing_issues u) (stop_threshold u).
Definition set_consecutive (n : nat) (u : Updater) : Updater :=
  mkUpdater (api_keys u) (key_pos u) (request_count u) (last_request_time u)
            n (stop_threshold u).

Definition set_interrupt (i : option nat) (w : World) : World :=
  mkWorld (net w) (net_pos w) (sent w) (clock w) (sleeps w) (fs w)
          (catalog_file w) i (disk w) (disk_pos w).
Definition slept (e : sleep_event) (w : World) : World :=
  mkWorld (net w) (net_pos w) (sent w) (clock w + duration e)%Q
          (sleeps w ++ [e]) (fs w) (catalog_file w) (interrupt_in w)
          (disk w) (disk_pos w).
Definition answered (url : pystr) (params : list (pystr * pystr)) (w : World)
    : World :=
  mkWorld (net w) (S (net_pos w)) (sent w ++ [(url, params)])
          (clock w + fst (net w (net_pos w)))%Q
          (sleeps w) (fs w) (catalog_file w) (interrupt_in w)
          (disk w) (disk_pos w).
Definition created (p : pystr) (w : World) : World :=
  mkWorld (net w) (net_pos w) (sent w) (clock w) (sleeps w)
          (if existsb (PyStr.eqb p) (fs w) then fs w else fs w ++ [p])
          (catalog_file w) (interrupt_in w) (disk w) (disk_pos w).
Definition saved_catalog (c : option (list issue)) (w : World) : World :=
  mkWorld (net w) (net_pos w) (sent w) (clock w) (sleeps w) (fs w)
          c (interrupt_in w) (disk w) (disk_pos w).
(** One verdict of the disk is used up. *)
Definition opened (w : World) : World :=
  mkWorld (net w) (net_pos w) (sent w) (clock w) (sleeps w) (fs w)
          (catalog_file w) (interrupt_in w) (disk w) (S (disk_pos w)).

(** A blocking operation: the point where a pending interrupt is delivered
    as [KeyboardInterrupt]. *)
Definition tick : M unit :=
  fun s =>
    match interrupt_in (snd s) with
    | Some 0 => (Raise KeyboardInterrupt, (fst s, set_interrupt None (snd s)))
    | Some (S k) => (Ret tt, (fst s, set_interrupt (Some k) (snd s)))
    | None => (Ret tt, s)
    end.

Definition sleep (e : sleep_event) : M unit := tick ;; modify_world (slept e).

Definition time_time : M Q := w <- get_world ;; ret (clock w).

Definition session_get (url : pystr) (params : list (pystr * pystr)) : M response :=
  tick ;;
  w <- get_world ;;
  modify_world (answered url params) ;;
  ret (snd (net w (net_pos w))).

Definition path_exists (p : pystr) : M bool :=
  w <- get_world ;; ret (existsb (PyStr.eqb p) (fs w)).

Definition in_fs (w : World) (p : pystr) : bool := existsb (PyStr.eqb p) (fs w).

Definition slash : char := 47%N.
Definition dot : char := 46%N.

(** [Path.parent] of a path in normal form: the path without its final
    component and the '/' before it; [[]] stands for the current
    directory. *)
Fixpoint drop_to_slash (rev_path : pystr) : pystr :=
  match rev_path with
  | [] => []
  | c :: rest => if char_eqb c slash then rest else drop_to_slash rest
  end.

Definition parent (p : pystr) : pystr := rev (drop_to_slash (rev p)).

(** The parent directory of [p] is there; the current directory always
    is. *)
Definition dir_ready (w : World) (p : pystr) : bool :=
  match parent p with
  | [] => true
  | d => in_fs w d
  end.

(** [str(e)] of the [FileNotFoundError] that [open] and [mkdir] raise for
    a path [p] of plain characters when its parent directory is missing. *)
Definition enoent (p : pystr) : pystr :=
  lit "[Errno 2] No such file or directory: '" ++ p ++ lit "'".

(** What becomes of creating or writing [p] now: without the parent
    directory it fails, else the disk has the say. *)
Definition verdict_on (w : World) (p : pystr) : disk_verdict :=
  if dir_ready w p then disk w (disk_pos w) else Refused (enoent p).

(** [with open(p, 'w') as f: f.write(...)] (lines 152-153) and
    [json.dump] into it (lines 316-317); the result is the text of the
    error raised, if any. *)
Definition try_write (p : pystr) : M (option pystr) :=
  tick ;;
  w <- get_world ;;
  (if dir_ready w p then modify_world opened else ret tt) ;;
  match verdict_on w p with
  | Written => modify_world (created p) ;; ret None
  | Refused e => ret (Some e)
  | Broken e => modify_world (created p) ;; ret (Some e)
  end.

(** The write of lines 316-317, which no handler of [process_issue]
    guards. *)
Definition write_file (p : pystr) : M unit :=
  r <- try_write p ;;
  match r with
  | None => ret tt
  | Some _ => raise OtherError
  end.

(** [p.mkdir(exist_ok=True)] (lines 258 and 494): nothing to do when [p]
    is there; else it needs the parent directory, and the disk. *)
Definition mkdir (p : pystr) : M unit :=
  w <- get_world ;;
  if in_fs w p then ret tt
  else
    (if dir_ready w p then modify_world opened else ret tt) ;;
    match verdict_on w p with
    | Written => modify_world (created p)
    | _ => raise OtherError
    end.

(** ** RateLimitedClient: the request methods of [CongressionalRecordUpdater] *)

(** [get_next_api_key] (lines 30-33): [next] on [cycle(api_keys)]. *)
Definition get_next_api_key : M pystr :=
  modify_self (fun u => set_key_pos (S (key_pos u) mod length (api_keys u)) u) ;;
  u <- get_self ;;
  ret (current_api_key u).

(** [wait_time] of lines 44-50. *)
Definition backoff_wait (attempt : nat) : Z :=
  if attempt <=? 5 then Z.min (2 ^ Z.of_nat attempt) 60 else 60%Z.

(** [handle_429_error] (lines 35-53). *)
Definition handle_429_error (attempt : nat) : M unit :=
  u <- get_self ;;
  if 1 <? length (api_keys u) then
    get_next_api_key ;; ret tt
  else
    sleep (BackoffSleep (backoff_wait attempt)).

Definition Qltb (a b : Q) : bool := negb (Qle_bool b a).

(** Lines 62-66 and 129-133: at least one second between requests. *)
Definition throttle : M unit :=
  current_time <- time_time ;;
  u <- get_self ;;
  let time_since_last_request := (current_time - last_request_time u)%Q in
  if Qltb time_since_last_request 1 then
    sleep (ThrottleSleep (1 - time_since_last_request)%Q)
  else ret tt.

(** Lines 69-71 (with 4) and 136-138 (with 10): the one request counter,
    and the rotation on its multiples. *)
Definition count_request (every : nat) : M unit :=
  modify_self (fun u => set_request_count (S (request_count u)) u) ;;
  u <- get_self ;;
  if request_count u mod every =? 0 then get_next_api_key ;; ret tt else ret tt.

(** Lines 79 and 141. *)
Definition stamp_request : M unit :=
  now <- time_time ;;
  modify_self (set_last_request_time now).

(** [params[key] = value] on a dict kept as an association list. *)
Fixpoint set_param (key value : pystr) (params : list (pystr * pystr))
    : list (pystr * pystr) :=
  match params with
  | [] => [(key, value)]
  | (k, v) :: rest =>
      if PyStr.eqb k key then (k, value) :: rest
      else (k, v) :: set_param key value rest
  end.

(** [max_retries]: a number, or [float('inf')]. *)
Inductive retry_bound := Unbounded | AtMost (n : nat).

Definition within (attempt : nat) (b : retry_bound) : bool :=
  match b with
  | Unbounded => true
  | AtMost n => attempt <=? n
  end.

(** The [while] loop of [make_request] (lines 59-105); one unit of fuel per
    iteration. *)
Fixpoint make_request_loop (fuel : nat) (url : pystr) (params : list (pystr * pystr))
    (max_retries : retry_bound) (attempt : nat) : M (option payload) :=
  match fuel with
  | 0 => out_of_fuel
  | S fuel' =>
    if within attempt max_retries then
      throttle ;;
      count_request 4 ;;
      u <- get_self ;;
      let params := set_param (lit "api_key") (current_api_key u) params in
      stamp_request ;;
      response <- session_get url params ;;
      match response with
      | Status429 =>
          handle_429_error attempt ;;
          make_request_loop fuel' url params max_retries (S attempt)
      | Status200 _ json => ret (Some json)
      | Timeout =>
          if attempt <? 3 then
            sleep RetrySleep ;;
            make_request_loop fuel' url params max_retries (S attempt)
          else ret None
      | RequestException e =>
          if contains (lit "429") e then
            handle_429_error attempt ;;
            make_request_loop fuel' url params max_retries (S attempt)
          else ret None
      end
    else ret None
  end.

(** [make_request] (lines 55-105) with its default [max_retries]. *)
Definition make_request (fuel : nat) (url : pystr) (params : list (pystr * pystr))
    : M (option payload) :=
  make_request_loop fuel url params Unbounded 1.

(** [get_articles_for_issue] (lines 107-120). *)
Definition articles_url (volume_number issue_number : Z) : pystr :=
  lit "https://api.congress.gov/v3/daily-congressional-record/"
  ++ of_Z volume_number ++ lit "/" ++ of_Z issue_number ++ lit "/articles".

Definition get_articles_for_issue (fuel : nat) (volume_number issue_number : Z)
    : M (list article) :=
  let params := [(lit "format", lit "json"); (lit "limit", of_nat 250)] in
  data <- make_request fuel (articles_url volume_number issue_number) params ;;
  match data with
  | Some p =>
      match articles p with
      | Some l => ret l
      | None => ret []
      end
  | None => ret []
  end.

(** The [while] loop of [download_article_text] (lines 126-169).  Every
    iteration that continues adds one to [attempt], so [max_retries]
    iterations exhaust the loop condition: [budget] counts them down, and
    leaving the loop is the implicit [return None]. *)
Fixpoint download_loop (budget : nat) (url filename : pystr) (max_retries : nat)
    (attempt : nat) : M (option bool) :=
  match budget with
  | 0 => ret None
  | S budget' =>
    if attempt <=? max_retries then
      throttle ;;
      count_request 10 ;;
      stamp_request ;;
      response <- session_get url [] ;;
      match response with
      | Status429 =>
          handle_429_error attempt ;;
          download_loop budget' url filename max_retries (S attempt)
      | Status200 _ _ =>
          r <- try_write filename ;;
          match r with
          | None => ret (Some true)
          | Some e =>
              if contains (lit "429") e then
                handle_429_error attempt ;;
                download_loop budget' url filename max_retries (S attempt)
              else ret (Some false)
          end
      | Timeout =>
          if attempt <? max_retries then
            sleep RetrySleep ;;
            download_loop budget' url filename max_retries (S attempt)
          else ret (Some false)
      | RequestException e =>
          if contains (lit "429") e then
            handle_429_error attempt ;;
            download_loop budget' url filename max_retries (S attempt)
          else ret (Some false)
      end
    else ret None
  end.

(** [download_article_text] (lines 122-169) with its default
    [max_retries=3]; the result is [True], [False] or [None]. *)
Definition download_article_text (url filename : pystr) : M (option bool) :=
  download_loop 3 url filename 3 1.

(** ** Derived artifact paths *)

(** [output_dir / f"congress_{congress}"] (lines 189 and 257). *)
Definition congress_dir_of (output_dir : pystr) (i : issue) : pystr :=
  output_dir ++ lit "/" ++ lit "congress_" ++ of_Z (congress i).

(** [issue.get('issueDate', 'unknown_date')[:10]] (lines 186 and 234). *)
Definition date_of (i : issue) : pystr := firstn 10 (issueDate i).

(** The f-string of lines 220 and 289, under the congress directory. *)
Definition artifact_path (output_dir : pystr) (i : issue) (title : pystr) : pystr :=
  congress_dir_of output_dir i ++ lit "/" ++
  date_of i ++ lit "_c" ++ of_Z (congress i) ++ lit "_v" ++ of_Z (volumeNumber i)
  ++ lit "_i" ++ of_Z (issueNumber i) ++ lit "_" ++ safe_filename title
  ++ lit ".html".

(** [Path.name] of a path in normal form, reversed: the characters after
    the last '/', last one first. *)
Fixpoint rev_name (rev_path : pystr) : pystr :=
  match rev_path with
  | [] => []
  | c :: rest => if char_eqb c slash then [] else c :: rev_name rest
  end.

(** The length of [PurePath.suffix] for a name given reversed: the suffix
    runs from the last dot of the name to its end, unless that dot is the
    first or the last character of the name, when there is none. *)
Fixpoint dotted_length (reversed : pystr) : nat :=
  match reversed with
  | [] => 0
  | c :: rest =>
      if char_eqb c dot then
        match rest with
        | [] => 0
        | _ :: _ => 1
        end
      else
        match dotted_length rest with
        | 0 => 0
        | S n => S (S n)
        end
  end.

Definition suffix_length (reversed : pystr) : nat :=
  match dotted_length reversed with
  | 1 => 0
  | n => n
  end.

(** [filename.with_suffix('.json')] (line 315) on a path in normal form:
    the suffix of the final component, if it has one, is replaced. *)
Definition with_suffix_json (filename : pystr) : pystr :=
  firstn (length filename - suffix_length (rev_name (rev filename))) filename
  ++ lit ".json".

(** Lines 205 and 276: [section_article.get('title', f'Section_{i}')]. *)
Definition title_of (i : nat) (sa : section_article) : pystr :=
  match title sa with
  | Some t => t
  | None => lit "Section_" ++ of_nat i
  end.

(** Lines 209-213 and 280-284: the url of the first text item of type
    'Formatted Text'. *)
Fixpoint find_formatted_text_url (text_urls : list text_item) : option pystr :=
  match text_urls with
  | [] => None
  | text_item :: rest =>
      match ti_type text_item with
      | Some t =>
          if PyStr.eqb t (lit "Formatted Text") then ti_url text_item
          else find_formatted_text_url rest
      | None => find_formatted_text_url rest
      end
  end.

(** ** CompletenessEvaluator: [check_issue_completeness] (lines 181-227) *)

(** The inner loop (lines 204-223); the counters are
    [(total_articles, existing_articles)]. *)
Fixpoint count_section_articles (file_exists : pystr -> bool) (output_dir : pystr)
    (iss : issue) (i : nat) (section_articles : list section_article)
    (counts : nat * nat) : nat * nat :=
  match section_articles with
  | [] => counts
  | section_article :: rest =>
      let formatted_text_url := find_formatted_text_url (text section_article) in
      let counts :=
        if truthy formatted_text_url then
          let filename := artifact_path output_dir iss (title_of i section_article) in
          (S (fst counts),
           if file_exists filename then S (snd counts) else snd counts)
        else counts in
      count_section_articles file_exists output_dir iss (S i) rest counts
  end.

(** The outer loop (lines 201-223). *)
Fixpoint count_articles (file_exists : pystr -> bool) (output_dir : pystr)
    (iss : issue) (arts : list article) (counts : nat * nat) : nat * nat :=
  match arts with
  | [] => counts
  | a :: rest =>
      count_articles file_exists output_dir iss rest
        (count_section_articles file_exists output_dir iss 0 (sectionArticles a) counts)
  end.

(** The result is [(is_complete, existing_articles, total_articles)]. *)
Definition check_issue_completeness (fuel : nat) (iss : issue) (output_dir : pystr)
    : M (bool * nat * nat) :=
  dir_exists <- path_exists (congress_dir_of output_dir iss) ;;
  if negb dir_exists then ret (false, 0, 0)
  else
    arts <- get_articles_for_issue fuel (volumeNumber iss) (issueNumber iss) ;;
    w <- get_world ;;
    let '(total_articles, existing_articles) :=
      count_articles (in_fs w) output_dir iss arts (0, 0) in
    let is_complete :=
      (0 <? total_articles) && (existing_articles =? total_articles) in
    ret (is_complete, existing_articles, total_articles).

(** ** IncrementalDownloadController: [process_issue] (lines 229-322) *)

(** The inner loop (lines 275-317); [downloaded_count] is never read and
    is left out. *)
Fixpoint download_section_articles (output_dir : pystr) (iss : issue) (i : nat)
    (section_articles : list section_article) (newly_downloaded : nat) : M nat :=
  match section_articles with
  | [] => ret newly_downloaded
  | section_article :: rest =>
      match find_formatted_text_url (text section_article) with
      | Some (c :: u) =>
          let formatted_text_url := c :: u in
          let filename := artifact_path output_dir iss (title_of i section_article) in
          present <- path_exists filename ;;
          if present then
            download_section_articles output_dir iss (S i) rest newly_downloaded
          else
            ok <- download_article_text formatted_text_url filename ;;
            match ok with
            | Some true =>
                write_file (with_suffix_json filename) ;;
                download_section_articles output_dir iss (S i) rest (S newly_downloaded)
            | _ =>
                download_section_articles output_dir iss (S i) rest newly_downloaded
            end
      | _ => download_section_articles output_dir iss (S i) rest newly_downloaded
      end
  end.

(** The outer loop (lines 267-317). *)
Fixpoint download_articles (output_dir : pystr) (iss : issue) (arts : list article)
    (newly_downloaded : nat) : M nat :=
  match arts with
  | [] => ret newly_downloaded
  | a :: rest =>
      n <- download_section_articles output_dir iss 0 (sectionArticles a)
             newly_downloaded ;;
      download_articles output_dir iss rest n
  end.

(** Lines 256-322: what [process_issue] does when it does not stop. *)
Definition download_missing (fuel : nat) (iss : issue) (output_dir : pystr)
    : M (nat * bool) :=
  mkdir (congress_dir_of output_dir iss) ;;
  arts <- get_articles_for_issue fuel (volumeNumber iss) (issueNumber iss) ;;
  newly_downloaded <- download_articles output_dir iss arts 0 ;;
  ret (newly_downloaded, false).

(** The result is [(newly_downloaded, should_stop)]. *)
Definition process_issue (fuel : nat) (iss : issue) (output_dir : pystr)
    : M (nat * bool) :=
  '(is_complete, existing_count, total_count) <-
     check_issue_completeness fuel iss output_dir ;;
  if is_complete then
    modify_self (fun u => set_consecutive (S (consecutive_existing_issues u)) u) ;;
    u <- get_self ;;
    if stop_threshold u <=? consecutive_existing_issues u then ret (0, true)
    else download_missing fuel iss output_dir
  else
    modify_self (set_consecutive 0) ;;
    download_missing fuel iss output_dir.

(** The loop of [main] (lines 503-526) over the issues, newest first; the
    accumulator is [(total_new_downloads, issues_processed)].  The two
    handlers of lines 519-524 guard the call of [process_issue], which is
    where the model delivers an interrupt; the loop header and the
    progress bar of line 526, which stand outside the [try], do nothing
    here. *)
Fixpoint run_issues (fuel : nat) (output_dir : pystr) (issues : list issue)
    (totals : nat * nat) : M (nat * nat) :=
  match issues with
  | [] => ret totals
  | iss :: rest =>
      fun s =>
        match process_issue fuel iss output_dir s with
        | (Ret (newly_downloaded, should_stop), s') =>
            let totals' := (fst totals + newly_downloaded, S (snd totals)) in
            if should_stop then (Ret totals', s')
            else run_issues fuel output_dir rest totals' s'
        | (Raise KeyboardInterrupt, s') => (Ret totals, s')
        | (Raise OtherError, s') => run_issues fuel output_dir rest totals s'
        | (OutOfFuel, s') => (OutOfFuel, s')
        end
  end.

(** ** CatalogSynchronizer: [fetch_recent_issues] and [update_issues_file] *)

(** Identity key of a descriptor (lines 431 and 436). *)
Definition issue_id (i : issue) : Z * Z := (volumeNumber i, issueNumber i).

Definition id_eqb (a b : Z * Z) : bool :=
  (fst a =? fst b)%Z && (snd a =? snd b)%Z.

Definition id_in (a : Z * Z) (ids : list (Z * Z)) : bool := existsb (id_eqb a) ids.

(** [list.sort(key=lambda x: x['issueDate'], reverse=True)]: a stable sort,
    descending on the date text. *)
Fixpoint insert_desc (x : issue) (l : list issue) : list issue :=
  match l with
  | [] => [x]
  | y :: l' =>
      if PyStr.ltb (issueDate x) (issueDate y) then y :: insert_desc x l'
      else x :: l
  end.

Definition sort_by_date_desc (l : list issue) : list issue :=
  fold_right insert_desc [] l.

(** The merge loop (lines 435-439); [existing_ids] is the set built once on
    line 431. *)
Fixpoint merge_new (existing_ids : list (Z * Z)) (existing_issues recent_issues : list issue)
    : list issue :=
  match recent_issues with
  | [] => existing_issues
  | i :: rest =>
      if negb (id_in (issue_id i) existing_ids) then
        merge_new existing_ids (existing_issues ++ [i]) rest
      else merge_new existing_ids existing_issues rest
  end.

(** [s.replace('Z', '+00:00')]. *)
Definition replace_Z (s : pystr) : pystr :=
  flat_map (fun c => if char_eqb c 90%N then lit "+00:00" else [c]) s.

(** [datetime(2014, 1, 1, tzinfo=timezone.utc)], in seconds since the Unix
    epoch. *)
Definition default_start_date : Z := 1388534400%Z.

Definition listing_url : pystr :=
  lit "https://api.congress.gov/v3/daily-congressional-record".

(** Lines 445-446: [all_issues.json] is opened for writing in the current
    directory and the catalog dumped into it; a write that breaks leaves
    a file that no longer parses. *)
Definition save_catalog (c : list issue) : M unit :=
  tick ;;
  w <- get_world ;;
  modify_world opened ;;
  match disk w (disk_pos w) with
  | Written => modify_world (saved_catalog (Some c))
  | Refused _ => raise OtherError
  | Broken _ => modify_world (saved_catalog None) ;; raise OtherError
  end.

Section CatalogSynchronizer.

(** [datetime.fromisoformat]: the instant of an aware timestamp, in
    seconds since the Unix epoch, or [None] where it raises [ValueError]. *)
Variable fromisoformat : pystr -> option Z.

Definition parse_issue_date (i : issue) : option Z :=
  fromisoformat (replace_Z (issueDate i)).

(** The [for] loop of lines 379-386; the flag tells that the function
    returned from inside the loop, [None] that the date did not parse. *)
Fixpoint scan_page (start_date : Z) (issues all_issues : list issue)
    : option (list issue * bool) :=
  match issues with
  | [] => Some (all_issues, false)
  | i :: rest =>
      match parse_issue_date i with
      | None => None
      | Some issue_date =>
          if (issue_date <? start_date)%Z then Some (all_issues, true)
          else scan_page start_date rest (all_issues ++ [i])
      end
  end.

(** The [while True] loop of lines 359-394. *)
Fixpoint fetch_loop (fuel : nat) (start_date : Z) (offset : nat)
    (all_issues : list issue) : M (list issue) :=
  match fuel with
  | 0 => out_of_fuel
  | S fuel' =>
      let params :=
        [(lit "format", lit "json"); (lit "limit", of_nat 250);
         (lit "offset", of_nat offset); (lit "sort", lit "issueDate desc")] in
      data <- make_request fuel listing_url params ;;
      match data with
      | None => ret all_issues
      | Some p =>
          match dailyCongressionalRecord p with
          | None => ret all_issues
          | Some [] => ret all_issues
          | Some issues =>
              match scan_page start_date issues all_issues with
              | None => raise OtherError
              | Some (all_issues, true) => ret all_issues
              | Some (all_issues, false) =>
                  if truthy (pagination_next p) then
                    fetch_loop fuel' start_date (offset + 250) all_issues
                  else ret all_issues
              end
          end
      end
  end.

(** [fetch_recent_issues] (lines 347-396). *)
Definition fetch_recent_issues (fuel : nat) (start_date : option Z) : M (list issue) :=
  let start_date :=
    match start_date with
    | None => default_start_date
    | Some d => d
    end in
  fetch_loop fuel start_date 0 [].

(** Lines 401-418: the catalog on disk, sorted, and the date of its newest
    entry. *)
Definition load_existing (w : World) : list issue :=
  match catalog_file w with
  | Some l => sort_by_date_desc l
  | None => []
  end.

(** [update_issues_file] (lines 398-450). *)
Definition update_issues_file (fuel : nat) : M (list issue) :=
  w <- get_world ;;
  let existing_issues := load_existing w in
  newest_existing_date <-
    match existing_issues with
    | [] => ret None
    | newest :: _ =>
        match parse_issue_date newest with
        | Some d => ret (Some d)
        | None => raise OtherError
        end
    end ;;
  recent_issues <- fetch_recent_issues fuel newest_existing_date ;;
  match recent_issues with
  | [] => ret existing_issues
  | _ :: _ =>
      let existing_ids := map issue_id existing_issues in
      let existing_issues := merge_new existing_ids existing_issues recent_issues in
      let existing_issues := sort_by_date_desc existing_issues in
      save_catalog existing_issues ;;
      ret existing_issues
  end.

End CatalogSynchronizer.

(** ** Notions the statements use *)

(** The safe set as the specification words it: ASCII letters, digits,
    '-', '_', '.' and the space. *)
Definition is_safe_char (c : char) : bool :=
  ((97 <=? c) && (c <=? 122) || (65 <=? c) && (c <=? 90) ||
   (48 <=? c) && (c <=? 57) ||
   (c =? 45) || (c =? 95) || (c =? 46) || (c =? 32))%N.

(** No interrupt is pending. *)
Definition calm (s : State) : Prop := interrupt_in (snd s) = None.

(** The waits of [handle_429_error] among the sleeps of a run. *)
Definition backoff_waits (l : list sleep_event) : list Z :=
  flat_map (fun e => match e with BackoffSleep w => [w] | _ => [] end) l.

(** What one pass through the top of a request loop (throttle, count,
    stamp, send) does to the state: one request more, the counter one up,
    the key advanced on a multiple of [every]. *)
Definition attempted (every : nat) (s s1 : State) : Prop :=
  calm s1 /\
  net (snd s1) = net (snd s) /\
  net_pos (snd s1) = S (net_pos (snd s)) /\
  api_keys (fst s1) = api_keys (fst s) /\
  fs (snd s1) = fs (snd s) /\
  consecutive_existing_issues (fst s1) = consecutive_existing_issues (fst s) /\
  stop_threshold (fst s1) = stop_threshold (fst s) /\
  backoff_waits (sleeps (snd s1)) = backoff_waits (sleeps (snd s)) /\
  request_count (fst s1) = S (request_count (fst s)) /\
  key_pos (fst s1) =
    (if S (request_count (fst s)) mod every =? 0
     then S (key_pos (fst s)) mod length (api_keys (fst s))
     else key_pos (fst s)) /\
  disk (snd s1) = disk (snd s) /\
  disk_pos (snd s1) = disk_pos (snd s).

(** What [handle_429_error attempt] does to the state. *)
Definition backed_off (attempt : nat) (s s1 : State) : Prop :=
  calm s1 /\
  net (snd s1) = net (snd s) /\
  net_pos (snd s1) = net_pos (snd s) /\
  api_keys (fst s1) = api_keys (fst s) /\
  fs (snd s1) = fs (snd s) /\
  request_count (fst s1) = request_count (fst s) /\
  backoff_waits (sleeps (snd s1)) =
    backoff_waits (sleeps (snd s)) ++
    (if 1 <? length (api_keys (fst s)) then [] else [backoff_wait attempt]) /\
  key_pos (fst s1) =
    (if 1 <? length (api_keys (fst s))
     then S (key_pos (fst s)) mod length (api_keys (fst s))
     else key_pos (fst s)) /\
  disk (snd s1) = disk (snd s) /\
  disk_pos (snd s1) = disk_pos (snd s).

(** What a turn of the loop of [make_request] does once the answer to its
    request is there (lines 83-105). *)
Definition listing_turn_rest (fuel : nat) (url : pystr) (params : list (pystr * pystr))
    (attempt : nat) (r : response) : M (option payload) :=
  match r with
  | Status429 =>
      handle_429_error attempt ;;
      make_request_loop fuel url params Unbounded (S attempt)
  | Status200 _ json => ret (Some json)
  | Timeout =>
      if attempt <? 3 then
        sleep RetrySleep ;;
        make_request_loop fuel url params Unbounded (S attempt)
      else ret None
  | RequestException e =>
      if contains (lit "429") e then
        handle_429_error attempt ;;
        make_request_loop fuel url params Unbounded (S attempt)
      else ret None
  end.

(** The same for a turn of the loop of [download_article_text] (lines
    145-169). *)
Definition download_turn_rest (budget : nat) (url filename : pystr)
    (max_retries attempt : nat) (r : response) : M (option bool) :=
  match r with
  | Status429 =>
      handle_429_error attempt ;;
      download_loop budget url filename max_retries (S attempt)
  | Status200 _ _ =>
      r <- try_write filename ;;
      match r with
      | None => ret (Some true)
      | Some e =>
          if contains (lit "429") e then
            handle_429_error attempt ;;
            download_loop budget url filename max_retries (S attempt)
          else ret (Some false)
      end
  | Timeout =>
      if attempt <? max_retries then
        sleep RetrySleep ;;
        download_loop budget url filename max_retries (S attempt)
      else ret (Some false)
  | RequestException e =>
      if contains (lit "429") e then
        handle_429_error attempt ;;
        download_loop budget url filename max_retries (S attempt)
      else ret (Some false)
  end.

(** Two keys and three requests made so far. *)
Definition three_requests_made (w : World) : State :=
  (set_request_count 3 (new_updater [lit "KEY-A"; lit "KEY-B"]), w).

(** The name of an artifact without its ending: the f-string of lines 220
    and 289 up to [safe_title]. *)
Definition artifact_stem (i : issue) (title : pystr) : pystr :=
  date_of i ++ lit "_c" ++ of_Z (congress i) ++ lit "_v" ++ of_Z (volumeNumber i)
  ++ lit "_i" ++ of_Z (issueNumber i) ++ lit "_" ++ safe_filename title.

(** A text without '/'. *)
Definition no_slash (l : pystr) : bool :=
  forallb (fun c => negb (char_eqb c slash)) l.

(** A character of [str(n)]: a digit, or the sign. *)
Definition sign_or_digit (c : char) : bool :=
  ((c =? 45) || (48 <=? c) && (c <=? 57))%N.

(** A section article is downloadable when the url found for it is
    truthy (lines 215 and 286). *)
Definition downloadable (sa : section_article) : bool :=
  truthy (find_formatted_text_url (text sa)).

(** A section article "having a 'Formatted Text' variant". *)
Definition has_formatted_text (sa : section_article) : bool :=
  existsb (fun t => match ti_type t with
                    | Some ty => PyStr.eqb ty (lit "Formatted Text")
                    | None => false
                    end) (text sa).

Definition all_section_articles (arts : list article) : list section_article :=
  flat_map sectionArticles arts.

(** The artifact paths of the downloadable section articles of a listing,
    in the order the loops meet them. *)
Fixpoint section_paths (output_dir : pystr) (iss : issue) (i : nat)
    (sas : list section_article) : list pystr :=
  match sas with
  | [] => []
  | sa :: rest =>
      (if downloadable sa then [artifact_path output_dir iss (title_of i sa)] else [])
      ++ section_paths output_dir iss (S i) rest
  end.

Definition derived_paths (output_dir : pystr) (iss : issue) (arts : list article)
    : list pystr :=
  flat_map (fun a => section_paths output_dir iss 0 (sectionArticles a)) arts.

Definition count_true (f : pystr -> bool) (l : list pystr) : nat :=
  length (filter f l).

(** The completeness check on [iss], run from state [s], reports the
    issue fully complete. *)
Definition evaluates_complete (fuel : nat) (iss : issue) (out : pystr) (s : State)
    : Prop :=
  exists existing total s1,
    check_issue_completeness fuel iss out s = (Ret (true, existing, total), s1).


(** The descriptors an answer carries. *)
Definition descriptors_of (r : response) : list issue :=
  match r with
  | Status200 _ json =>
      match dailyCongressionalRecord json with
      | Some l => l
      | None => []
      end
  | _ => []
  end.

(** The descriptors of the answers to requests [from], ..., [to - 1], in
    order. *)
Definition fetched_between (oracle : nat -> Q * response) (from to : nat)
    : list issue :=
  flat_map (fun n => descriptors_of (snd (oracle n))) (seq from (to - from)).

(** The date of [i] parses, and to an instant with property [P]. *)
Definition dated (parse : issue -> option Z) (P : Z -> Prop) (i : issue) : Prop :=
  exists d, parse i = Some d /\ P d.

(** The stream is ordered by date, newest first, as the request asks. *)
Definition descending (parse : issue -> option Z) (l : list issue) : Prop :=
  forall l1 x l2 y l3,
    l = l1 ++ x :: l2 ++ y :: l3 ->
    exists dx dy, parse x = Some dx /\ parse y = Some dy /\ (dy <= dx)%Z.

(** [m] leaves the part [proj] of the state as it found it, whatever the
    outcome. *)
Definition keeps {T A} (proj : State -> T) (m : M A) : Prop :=
  forall s, proj (snd (m s)) = proj s.

(** The parts of the state the frame lemmas speak about. *)
Definition the_net (s : State) : (nat -> Q * response) * nat :=
  (net (snd s), net_pos (snd s)).
Definition the_controller (s : State) : nat * nat :=
  (consecutive_existing_issues (fst s), stop_threshold (fst s)).

(** ** Concrete runs *)

(** A remote side that gives the listed answers in order, each after half
    a second, and times out ever after; a world that starts on it. *)
Definition scripted (answers : list response) : nat -> Q * response :=
  fun n => ((1 # 2)%Q, nth n answers Timeout).

Definition world_of (answers : list response) (files : list pystr)
    (catalog : option (list issue)) (interrupt : option nat) : World :=
  mkWorld (scripted answers) 0 [] (inject_Z 1700000000) [] files catalog interrupt
          (fun _ => Written) 0.

Definition no_payload : payload := mkPayload None None None.

(** [n] calls in a row of the same request. *)
Fixpoint times {A} (n : nat) (m : M A) : M unit :=
  match n with
  | 0 => ret tt
  | S n' => m ;; times n' m
  end.

(** Two keys and a remote side that answers every request with success. *)
Definition two_keys : list pystr := [lit "KEY-A"; lit "KEY-B"].

Definition always_ok : State :=
  (new_updater two_keys,
   world_of (repeat (Status200 (lit "ok") no_payload) 20) [lit "out"] None None).

Definition a_listing_call : M (option payload) :=
  make_request 5 listing_url [(lit "format", lit "json")].

Definition a_download_call : M (option bool) :=
  download_article_text (lit "https://www.congress.gov/a.htm") (lit "out/a.html").

(** One key, three rate-limit answers, then success. *)
Definition thrice_limited : State :=
  (new_updater [lit "KEY-A"],
   world_of [Status429; Status429; Status429; Status200 (lit "ok") no_payload]
            [] None None).

Definition records : pystr := lit "congressional_records".

(** Five issues of volume 170, by number. *)
Definition issue_170_45 : issue :=
  mkIssue 118 170 45 (lit "2024-03-12T04:00:00Z").

Definition issue_170_46 : issue := mkIssue 118 170 46 (lit "2024-03-13T04:00:00Z").

Definition issue_170_44 : issue := mkIssue 118 170 44 (lit "2024-03-11T04:00:00Z").
Definition issue_170_43 : issue := mkIssue 118 170 43 (lit "2024-03-08T04:00:00Z").
Definition issue_170_42 : issue := mkIssue 118 170 42 (lit "2024-03-07T04:00:00Z").

(** Section articles: a prayer and morning business with a formatted text
    url each, and a roll call whose 'Formatted Text' entry carries no
    url. *)
Definition with_url : section_article :=
  mkSectionArticle (Some (lit "PRAYER"))
    [mkTextItem (Some (lit "PDF")) (Some (lit "https://www.congress.gov/p.pdf"));
     mkTextItem (Some (lit "Formatted Text")) (Some (lit "https://www.congress.gov/p.htm"))].

Definition without_url : section_article :=
  mkSectionArticle (Some (lit "ROLL CALL"))
    [mkTextItem (Some (lit "Formatted Text")) None].

Definition second_article : section_article :=
  mkSectionArticle (Some (lit "MORNING BUSINESS"))
    [mkTextItem (Some (lit "Formatted Text")) (Some (lit "https://www.congress.gov/m.htm"))].

(** The answers of the article endpoint and of the listing endpoint. *)
Definition listing_of (sas : list section_article) : response :=
  Status200 (lit "{}")
    (mkPayload (Some [mkArticle (Some (lit "Senate Section")) sas]) None None).

Definition page (issues : list issue) (next : option pystr) : response :=
  Status200 (lit "{}") (mkPayload None (Some issues) next).

(** The prayer of issue 45 is on disk; the listing has the prayer and the
    roll call. *)
Definition prayer_on_disk : State :=
  (new_updater [lit "KEY-A"],
   world_of [listing_of [with_url; without_url]]
            [congress_dir_of records issue_170_45;
             artifact_path records issue_170_45 (lit "PRAYER")]
            None None).

(** The prayers of issues 45, 44 and 43 are on disk, nothing of issue
    42. *)
Definition three_on_disk : State :=
  (new_updater [lit "KEY-A"],
   world_of (repeat (listing_of [with_url]) 8)
            [congress_dir_of records issue_170_45;
             artifact_path records issue_170_45 (lit "PRAYER");
             artifact_path records issue_170_44 (lit "PRAYER");
             artifact_path records issue_170_43 (lit "PRAYER")]
            None None).

(** A first run on an empty archive, of which [main] has made the output
    directory, with an interrupt that arrives at the fifth blocking
    operation: the listing request, the throttle sleep before the
    download, the download request and the write of the content file
    come first, the write of the sidecar is the fifth. *)
Definition interrupted_run : State :=
  (new_updater [lit "KEY-A"],
   world_of [listing_of [with_url; second_article];
             Status200 (lit "<html>prayer</html>") no_payload;
             Status200 (lit "<html>business</html>") no_payload]
            [records] None (Some 4)).

(** A reading of [datetime.fromisoformat] on the timestamps the API sends,
    'YYYY-MM-DDTHH:MM:SS+00:00' once 'Z' is replaced, for concrete runs. *)
Definition digit (c : char) : option Z :=
  if ((48 <=? c) && (c <=? 57))%N then Some (Z.of_N c - 48)%Z else None.

Fixpoint number (l : pystr) (acc : Z) : option Z :=
  match l with
  | [] => Some acc
  | c :: rest =>
      match digit c with
      | Some d => number rest (10 * acc + d)%Z
      | None => None
      end
  end.

Definition field (s : pystr) (from len : nat) : option Z :=
  let f := firstn len (skipn from s) in
  if length f =? len then number f 0 else None.

Definition days_from_civil (y m d : Z) : Z :=
  (let y := if m <=? 2 then y - 1 else y in
   let era := y / 400 in
   let yoe := y - era * 400 in
   let mp := (m + 9) mod 12 in
   let doy := (153 * mp + 2) / 5 + d - 1 in
   let doe := yoe * 365 + yoe / 4 - yoe / 100 + doy in
   era * 146097 + doe - 719468)%Z.

Definition iso_instant (s : pystr) : option Z :=
  match field s 0 4, field s 5 2, field s 8 2,
        field s 11 2, field s 14 2, field s 17 2 with
  | Some y, Some m, Some d, Some hh, Some mm, Some ss =>
      if PyStr.eqb (skipn 19 s) (lit "+00:00") then
        Some (days_from_civil y m d * 86400 + hh * 3600 + mm * 60 + ss)%Z
      else None
  | _, _, _, _, _, _ => None
  end.

(** A first synchronization in which a new issue is published between
    the two page requests: the second page starts with the descriptor the
    first page ended with. *)
Definition shifted_pages : State :=
  (new_updater [lit "KEY-A"],
   world_of [page [issue_170_46; issue_170_45] (Some (lit "offset=250"));
             page [issue_170_45; issue_170_44] None]
            [] None None).

(** A catalog whose newest entry is of 2024-03-11, and a page that goes
    from two days after it to three days before it. *)
Definition catalog_to_44 : State :=
  (new_updater [lit "KEY-A"],
   world_of [page [issue_170_46; issue_170_45; issue_170_44; issue_170_43; issue_170_42]
                  (Some (lit "offset=250"))]
            [] (Some [issue_170_43; issue_170_44]) None).

(** ** Startup and the preamble of [main] *)

(** [load_api_keys] (lines 324-345).  [file] is the lines of
    congressional_api_keys.txt, [None] when the file is not there; [env]
    is the variable CONGRESSIONAL_API_KEY.  The result is the keys, or
    the status of [sys.exit]. *)
Definition load_api_keys (file : option (list pystr)) (env : option pystr)
    : list pystr + Z :=
  match file with
  | Some lines =>
      let keys := map strip (filter (fun line => truthy (Some (strip line))) lines) in
      match keys with
      | [] => inr 1%Z
      | _ :: _ => inl keys
      end
  | None =>
      match env with
      | Some (c :: k) => inl [c :: k]
      | _ => inr 1%Z
      end
  end.

Section Preamble.

(** The [year] of [datetime.fromisoformat], [None] where it raises. *)
Variable year_of : pystr -> option Z.

(** Lines 471-475: the issues from 2014 onwards; [None] when a date does
    not parse and the exception leaves [main]. *)
Fixpoint from_2014 (all_issues : list issue) : option (list issue) :=
  match all_issues with
  | [] => Some []
  | i :: rest =>
      match year_of (replace_Z (issueDate i)) with
      | None => None
      | Some year =>
          match from_2014 rest with
          | None => None
          | Some l => Some (if (2014 <=? year)%Z then i :: l else l)
          end
      end
  end.

(** Lines 471-478: filtered, then sorted newest first. *)
Definition issues_2014_onwards (all_issues : list issue) : option (list issue) :=
  option_map sort_by_date_desc (from_2014 all_issues).

(** The test of line 474 on one descriptor whose date parses. *)
Definition from_year_2014 (i : issue) : bool :=
  match year_of (replace_Z (issueDate i)) with
  | Some year => (2014 <=? year)%Z
  | None => false
  end.

End Preamble.

(** How [main] (lines 452-541) ends: in [sys.exit] with a status, in the
    summary of lines 528-533, in an exception that leaves it, or out of
    fuel. *)
Inductive ending :=
| Exit (status : Z)
| Summary (issues_processed total_new_downloads request_count : nat)
| Uncaught (e : exn)
| NoFuel.

Section Main.

Variable fromisoformat : pystr -> option Z.
Variable year_of : pystr -> option Z.

(** [main], from the key file and the environment variable, on the
    world [w]; the two updaters of lines 458 and 499 are both fresh. *)
Definition main (fuel : nat) (file : option (list pystr)) (env : option pystr)
    (w : World) : ending * World :=
  match load_api_keys file env with
  | inr status => (Exit status, w)
  | inl api_keys =>
      match update_issues_file fromisoformat fuel (new_updater api_keys, w) with
      | (Ret [], (_, w1)) => (Exit 1, w1)
      | (Ret (i :: rest), (_, w1)) =>
          match issues_2014_onwards year_of (i :: rest) with
          | None => (Uncaught OtherError, w1)
          | Some issues =>
              let output_dir := lit "congressional_records" in
              match mkdir output_dir (new_updater api_keys, w1) with
              | (Ret _, (_, w2)) =>
                  match run_issues fuel output_dir issues (0, 0)
                          (new_updater api_keys, w2) with
                  | (Ret (total_new_downloads, issues_processed), (updater, w3)) =>
                      (Summary issues_processed total_new_downloads
                               (request_count updater), w3)
                  | (Raise e, (_, w3)) => (Uncaught e, w3)
                  | (OutOfFuel, (_, w3)) => (NoFuel, w3)
                  end
              | (Raise e, (_, w2)) => (Uncaught e, w2)
              | (OutOfFuel, (_, w2)) => (NoFuel, w2)
              end
          end
      | (Raise e, (_, w1)) => (Uncaught e, w1)
      | (OutOfFuel, (_, w1)) => (NoFuel, w1)
      end
  end.

End Main.

(** The [year] of the reading [iso_instant], for concrete runs. *)
Definition iso_year (s : pystr) : option Z :=
  match iso_instant s with
  | Some _ => field s 0 4
  | None => None
  end.

(** An issue of 2013. *)
Definition issue_159_170 : issue :=
  mkIssue 113 159 170 (lit "2013-12-02T05:00:00Z").

(** ** More notions the statements use *)

(** [m] takes every state to one that [R] relates it to, whatever the
    outcome. *)
Definition moves {A} (R : State -> State -> Prop) (m : M A) : Prop :=
  forall s, R s (snd (m s)).

(** [params.get(key)] on a dict kept as an association list. *)
Fixpoint get_param (key : pystr) (params : list (pystr * pystr)) : option pystr :=
  match params with
  | [] => None
  | (k, v) :: rest => if PyStr.eqb k key then Some v else get_param key rest
  end.

(** The parameters of a request that [u] may send: none at all (line 143),
    or with the current key under 'api_key' (line 76). *)
Definition keyed (u : Updater) (params : list (pystr * pystr)) : Prop :=
  params = [] \/ get_param (lit "api_key") params = Some (current_api_key u).

(** The cycle over the keys stands on one of them. *)
Definition valid_keys (s : State) : Prop :=
  key_pos (fst s) < length (api_keys (fst s)).

(** Each logged request has no parameters or one of [keys] as its
    'api_key'. *)
Definition requests_keyed (keys : list pystr)
    (log : list (pystr * list (pystr * pystr))) : Prop :=
  Forall (fun r => snd r = [] \/
                   exists k, In k keys /\ get_param (lit "api_key") (snd r) = Some k)
         log.

(** From [s] to [s'] the keys are the same, and a cycle that stood on a
    key still does, with only keyed requests sent in between. *)
Definition keys_respected (s s' : State) : Prop :=
  api_keys (fst s') = api_keys (fst s) /\
  (valid_keys s ->
   valid_keys s' /\
   exists new, sent (snd s') = sent (snd s) ++ new /\
               requests_keyed (api_keys (fst s)) new).

(** The sleeps [u] may go into: a backoff only with a single key (lines
    38-41). *)
Definition allowed_sleep (u : Updater) (e : sleep_event) : Prop :=
  match e with
  | BackoffSleep _ => length (api_keys u) <= 1
  | _ => True
  end.

Definition is_backoff (e : sleep_event) : bool :=
  match e with
  | BackoffSleep _ => true
  | _ => false
  end.

(** From [s] to [s'] the keys are the same and, where there are several,
    no backoff sleep was added. *)
Definition no_backoff (s s' : State) : Prop :=
  api_keys (fst s') = api_keys (fst s) /\
  exists new, sleeps (snd s') = sleeps (snd s) ++ new /\
              (1 < length (api_keys (fst s)) -> existsb is_backoff new = false).

(** From [s] to [s'] no path is lost. *)
Definition files_kept (s s' : State) : Prop :=
  forall p, in_fs (snd s) p = true -> in_fs (snd s') p = true.

(** More parts of the state for the frame lemmas. *)
Definition the_catalog (s : State) : option (list issue) := catalog_file (snd s).
Definition the_files (s : State) : list pystr := fs (snd s).

(** The answers after which [make_request] goes round its loop again at
    attempt number [attempt] (lines 83-86, 93-96, 100-103). *)
Definition listing_retries (attempt : nat) (r : response) : bool :=
  match r with
  | Status429 => true
  | Status200 _ _ => false
  | Timeout => attempt <? 3
  | RequestException e => contains (lit "429") e
  end.

(** The same for [download_article_text] (lines 145-148, 158-161,
    165-168). *)
Definition download_retries (max_retries attempt : nat) (r : response) : bool :=
  match r with
  | Status429 => true
  | Status200 _ _ => false
  | Timeout => attempt <? max_retries
  | RequestException e => contains (lit "429") e
  end.

(** The answer to the [k]-th request from now. *)
Definition answer (s : State) (k : nat) : response :=
  snd (net (snd s) (net_pos (snd s) + k)).

(** One key and a remote side that never answers in time; one that rate
    limits twice and then does not answer in time. *)
Definition never_in_time : State :=
  (new_updater [lit "KEY-A"], world_of [] [] None None).

Definition limited_then_silent : State :=
  (new_updater [lit "KEY-A"], world_of [Status429; Status429] [] None None).

(** [data['articles']] of a listing answer, [[]] without the key (lines
    117-120). *)
Definition listed (data : payload) : list article :=
  match articles data with
  | Some l => l
  | None => []
  end.

(** The directory of issue 45 and its prayer are on disk; the first
    listing has the prayer only, the second has morning business too. *)
Definition listing_grows : State :=
  (new_updater [lit "KEY-A"],
   world_of [listing_of [with_url]; listing_of [with_url; second_article];
             Status200 (lit "<html>business</html>") no_payload]
            [congress_dir_of records issue_170_45;
             artifact_path records issue_170_45 (lit "PRAYER")]
            None None).

(** The next [m] requests are answered with a success. *)
Definition succeed_for (m : nat) (s : State) : Prop :=
  forall k, k < m -> exists body json, answer s k = Status200 body json.

(** The next [m] operations on the disk go through. *)
Definition writes_succeed (m : nat) (s : State) : Prop :=
  forall k, k < m -> disk (snd s) (disk_pos (snd s) + k) = Written.

(** Every request is answered with a page, on an archive that has the
    directory of issue 45 and the prayer. *)
Definition prayer_then_answers : State :=
  (new_updater [lit "KEY-A"],
   world_of (repeat (Status200 (lit "<html></html>") no_payload) 4)
            [congress_dir_of records issue_170_45;
             artifact_path records issue_170_45 (lit "PRAYER")]
            None None).

(** Adjacent entries are in descending order of their date text. *)
Fixpoint date_descending (l : list issue) : Prop :=
  match l with
  | [] => True
  | x :: rest =>
      match rest with
      | [] => True
      | y :: _ => PyStr.ltb (issueDate x) (issueDate y) = false
      end /\ date_descending rest
  end.

(** * Properties *)

(** ** The embedding at work *)

Example safe_filename_replaces_and_strips :
  safe_filename (lit "  H.R. 2: Secure/Border Act  ") = lit "H.R. 2_ Secure_Border Act".
Proof. vm_compute. reflexivity. Qed.

Example artifact_path_of_prayer :
  artifact_path records issue_170_45 (lit "PRAYER") =
  lit "congressional_records/congress_118/2024-03-12_c118_v170_i45_PRAYER.html".
Proof. vm_compute. reflexivity. Qed.

Example sidecar_of_prayer :
  with_suffix_json (artifact_path records issue_170_45 (lit "PRAYER")) =
  lit "congressional_records/congress_118/2024-03-12_c118_v170_i45_PRAYER.json".
Proof. vm_compute. reflexivity. Qed.

Example default_start_date_is_2014 :
  iso_instant (replace_Z (lit "2014-01-01T00:00:00Z")) = Some default_start_date.
Proof. vm_compute. reflexivity. Qed.

Example sort_is_descending_and_stable :
  map issue_id
    (sort_by_date_desc [issue_170_44; issue_170_46; mkIssue 118 170 99 (issueDate issue_170_44);
                        issue_170_45]) =
  [(170, 46); (170, 45); (170, 44); (170, 99)]%Z.
Proof. vm_compute. reflexivity. Qed.

Example a_first_run_downloads_both :
  let final := run_issues 3 records [issue_170_45] (0, 0)
                 (fst interrupted_run, world_of
                    [listing_of [with_url; second_article];
                     Status200 (lit "<html>prayer</html>") no_payload;
                     Status200 (lit "<html>business</html>") no_payload]
                    [records] None None) in
  fst final = Ret (2, 1) /\
  fs (snd (snd final)) =
    [lit "congressional_records";
     lit "congressional_records/congress_118";
     lit "congressional_records/congress_118/2024-03-12_c118_v170_i45_PRAYER.html";
     lit "congressional_records/congress_118/2024-03-12_c118_v170_i45_PRAYER.json";
     lit "congressional_records/congress_118/2024-03-12_c118_v170_i45_MORNING BUSINESS.html";
     lit "congressional_records/congress_118/2024-03-12_c118_v170_i45_MORNING BUSINESS.json"].
Proof. vm_compute. split; reflexivity. Qed.

(** ** Text helpers *)

Lemma pystr_eqb_refl (a : pystr) : PyStr.eqb a a = true.
Proof.
  induction a as [|x a IH]; simpl; [reflexivity|].
  unfold char_eqb. now rewrite N.eqb_refl.
Qed.

Lemma pystr_eqb_eq (a b : pystr) : PyStr.eqb a b = true <-> a = b.
Proof.
  split.
  - revert b. induction a as [|x a IH]; destruct b as [|y b]; simpl;
      try discriminate; [reflexivity|].
    intros H. apply andb_true_iff in H as [Hx Hab].
    apply N.eqb_eq in Hx. subst. f_equal. now apply IH.
  - intros ->. apply pystr_eqb_refl.
Qed.

Lemma get_set_param (key value : pystr) (params : list (pystr * pystr)) :
  get_param key (set_param key value params) = Some value.
Proof.
  induction params as [|[k v] rest IH]; cbn [set_param get_param].
  - now rewrite pystr_eqb_refl.
  - destruct (PyStr.eqb k key) eqn:E; cbn [get_param]; rewrite E; [reflexivity | exact IH].
Qed.

Lemma mem_In (c : char) (s : pystr) : mem c s = true -> In c s.
Proof.
  unfold mem. intros H. apply existsb_exists in H as (x & Hx & E).
  apply N.eqb_eq in E. now subst.
Qed.

Lemma lstrip_length (s : pystr) : length (lstrip s) <= length s.
Proof.
  induction s as [|c s IH]; simpl; [lia|].
  destruct (isspace c); simpl; lia.
Qed.

Lemma lstrip_Forall (P : char -> Prop) (s : pystr) :
  Forall P s -> Forall P (lstrip s).
Proof.
  induction 1 as [|c s Hc Hs IH]; simpl; [constructor|].
  destruct (isspace c); [exact IH | now constructor].
Qed.

Lemma lstrip_head (s : pystr) (c : char) (rest : pystr) :
  lstrip s = c :: rest -> isspace c = false.
Proof.
  induction s as [|x s IH]; simpl; [discriminate|].
  destruct (isspace x) eqn:E; [exact IH|].
  intros H. injection H as -> _. exact E.
Qed.

(** What [lstrip] returns is a suffix of its argument. *)
Lemma lstrip_suffix (s : pystr) : exists pre, s = pre ++ lstrip s.
Proof.
  induction s as [|x s [pre IH]]; simpl.
  - now exists [].
  - destruct (isspace x).
    + exists (x :: pre). simpl. now f_equal.
    + now exists [].
Qed.

Lemma strip_length (s : pystr) : length (strip s) <= length s.
Proof.
  unfold strip, rstrip. rewrite length_rev.
  pose proof (lstrip_length (rev (lstrip s))) as H.
  rewrite length_rev in H. pose proof (lstrip_length s). lia.
Qed.

Lemma strip_Forall (P : char -> Prop) (s : pystr) :
  Forall P s -> Forall P (strip s).
Proof.
  intros H. unfold strip, rstrip.
  apply Forall_rev, lstrip_Forall, Forall_rev, lstrip_Forall, H.
Qed.

Lemma strip_last (s : pystr) (c : char) (init : pystr) :
  strip s = init ++ [c] -> isspace c = false.
Proof.
  unfold strip, rstrip. intros H.
  apply (f_equal (@rev char)) in H.
  rewrite rev_involutive, rev_app_distr in H. simpl in H.
  eapply lstrip_head, H.
Qed.

Lemma strip_head (s : pystr) (c : char) (rest : pystr) :
  strip s = c :: rest -> isspace c = false.
Proof.
  unfold strip, rstrip. intros H.
  destruct (lstrip s) as [|x t] eqn:E; [simpl in H; discriminate|].
  pose proof (lstrip_head _ _ _ E) as Hx.
  destruct (lstrip_suffix (rev (x :: t))) as [pre Hpre].
  simpl in Hpre.
  (* the reversed text ends with [x], which is no space: it survives *)
  assert (Hend : exists init, lstrip (rev t ++ [x]) = init ++ [x]).
  { clear -Hx. induction (rev t) as [|y r IH]; simpl.
    - rewrite Hx. now exists [].
    - destruct (isspace y); [exact IH|].
      exists (y :: r). reflexivity. }
  destruct Hend as [init Hinit]. simpl in H.
  rewrite Hinit, rev_app_distr in H. simpl in H.
  injection H as -> _. exact Hx.
Qed.

Lemma safe_chars_are_safe (c : char) : mem c safe_chars = true -> is_safe_char c = true.
Proof.
  intros H. apply mem_In in H.
  assert (F : forallb is_safe_char safe_chars = true) by (vm_compute; reflexivity).
  rewrite forallb_forall in F. now apply F.
Qed.

(** ** [safe_filename] *)

(** C10: whatever the text, [safe_filename] returns at most 100
    characters, all of them in the safe set (ASCII letters, digits, '-',
    '_', '.', space), with no whitespace at either end; and it is not
    injective: two distinct titles share a filename. *)
Theorem safe_filename_bounded_safe_stripped :
  (forall text : pystr,
     length (safe_filename text) <= 100 /\
     Forall (fun c => mem c safe_chars = true /\ is_safe_char c = true)
            (safe_filename text) /\
     (forall c rest, safe_filename text = c :: rest -> isspace c = false) /\
     (forall c init, safe_filename text = init ++ [c] -> isspace c = false)) /\
  (exists t1 t2 : pystr, t1 <> t2 /\ safe_filename t1 = safe_filename t2).
Proof.
  split.
  - intros text. unfold safe_filename, safe_filename_with.
    set (m := map _ text).
    set (f := if 100 <? length m then firstn 100 m else m).
    assert (Hlen : length f <= 100).
    { subst f. destruct (100 <? length m) eqn:E.
      - rewrite length_firstn. lia.
      - apply Nat.ltb_ge in E. exact E. }
    assert (Hsafe : Forall (fun c => mem c safe_chars = true /\ is_safe_char c = true) f).
    { assert (Hm : Forall (fun c => mem c safe_chars = true /\ is_safe_char c = true) m).
      { subst m. apply Forall_forall. intros c Hc.
        apply in_map_iff in Hc as (x & <- & _).
        destruct (mem x safe_chars) eqn:E.
        - split; [exact E | now apply safe_chars_are_safe].
        - split; vm_compute; reflexivity. }
      subst f. destruct (100 <? length m); [|exact Hm].
      apply Forall_forall. intros c Hc. rewrite Forall_forall in Hm.
      apply Hm. rewrite <- (firstn_skipn 100 m). apply in_or_app. now left. }
    split; [|split; [|split]].
    + pose proof (strip_length f). lia.
    + now apply strip_Forall.
    + intros c rest. apply strip_head.
    + intros c init. apply strip_last.
  - exists (lit "a/b"), (lit "a:b"). split; [discriminate | reflexivity].
Qed.

(** ** Reasoning about the monad *)

Lemma bind_Ret_inv A B (m : M A) (f : A -> M B) (s s' : State) (b : B) :
  bind m f s = (Ret b, s') ->
  exists a s1, m s = (Ret a, s1) /\ f a s1 = (Ret b, s').
Proof.
  unfold bind. destruct (m s) as [[a|e|] s1]; try discriminate.
  intros H. now exists a, s1.
Qed.

Lemma bind_Ret A B (m : M A) (f : A -> M B) (s s1 : State) (a : A) :
  m s = (Ret a, s1) -> bind m f s = f a s1.
Proof. unfold bind. now intros ->. Qed.

Lemma keeps_bind T A B (proj : State -> T) (m : M A) (f : A -> M B) :
  keeps proj m -> (forall a, keeps proj (f a)) -> keeps proj (bind m f).
Proof.
  intros Hm Hf s. unfold bind. specialize (Hm s).
  destruct (m s) as [[a|e|] s1]; simpl in *; try exact Hm.
  rewrite Hf. exact Hm.
Qed.

Lemma keeps_ret T A (proj : State -> T) (a : A) : keeps proj (ret a).
Proof. intros s. reflexivity. Qed.

Lemma keeps_raise T A (proj : State -> T) (e : exn) : keeps proj (@raise A e).
Proof. intros s. reflexivity. Qed.

Lemma keeps_out_of_fuel T A (proj : State -> T) : keeps proj (@out_of_fuel A).
Proof. intros s. reflexivity. Qed.

Lemma keeps_get_self T (proj : State -> T) : keeps proj get_self.
Proof. intros s. reflexivity. Qed.

Lemma keeps_get_world T (proj : State -> T) : keeps proj get_world.
Proof. intros s. reflexivity. Qed.

Lemma keeps_modify_self T (proj : State -> T) (f : Updater -> Updater) :
  (forall u w, proj (f u, w) = proj (u, w)) -> keeps proj (modify_self f).
Proof. intros H [u w]. apply H. Qed.

Lemma keeps_modify_world T (proj : State -> T) (f : World -> World) :
  (forall u w, proj (u, f w) = proj (u, w)) -> keeps proj (modify_world f).
Proof. intros H [u w]. apply H. Qed.

Lemma keeps_tick T (proj : State -> T) :
  (forall u w i, proj (u, set_interrupt i w) = proj (u, w)) -> keeps proj tick.
Proof.
  intros H [u w]. unfold tick. simpl.
  destruct (interrupt_in w) as [[|k]|]; simpl; auto.
Qed.

Lemma keeps_run T A (proj : State -> T) (m : M A) (s s' : State) (o : outcome A) :
  keeps proj m -> m s = (o, s') -> proj s' = proj s.
Proof. intros H E. specialize (H s). now rewrite E in H. Qed.

Ltac keeps_step :=
  match goal with
  | |- keeps _ (bind _ _) => apply keeps_bind; [| intros ?]
  | |- keeps _ (ret _) => apply keeps_ret
  | |- keeps _ (raise _) => apply keeps_raise
  | |- keeps _ out_of_fuel => apply keeps_out_of_fuel
  | |- keeps _ get_self => apply keeps_get_self
  | |- keeps _ get_world => apply keeps_get_world
  | |- keeps _ (modify_self _) => apply keeps_modify_self; intros; simpl; auto
  | |- keeps _ (modify_world _) => apply keeps_modify_world; intros; simpl; auto
  | |- keeps _ tick => apply keeps_tick; intros; simpl; auto
  | |- keeps _ (if ?c then _ else _) => destruct c
  | |- keeps _ (match ?x with _ => _ end) => destruct x
  | |- keeps _ (let '(_, _) := ?x in _) => destruct x
  end.

Ltac keeps_auto := repeat (keeps_step; try assumption); auto.

(** Frame lemmas: an operation keeps every part of the state that does
    not depend on the fields it writes. *)
Section Frames.

Context {T : Type} (proj : State -> T).

Hypothesis blind_key_pos :
  forall u w k, proj (set_key_pos k u, w) = proj (u, w).
Hypothesis blind_request_count :
  forall u w n, proj (set_request_count n u, w) = proj (u, w).
Hypothesis blind_last_request_time :
  forall u w t, proj (set_last_request_time t u, w) = proj (u, w).
Hypothesis blind_interrupt :
  forall u w i, proj (u, set_interrupt i w) = proj (u, w).
Hypothesis blind_slept :
  forall u w e, proj (u, slept e w) = proj (u, w).
Hypothesis blind_answered :
  forall u w url params, proj (u, answered url params w) = proj (u, w).
Hypothesis blind_created :
  forall u w p, proj (u, created p w) = proj (u, w).
Hypothesis blind_opened :
  forall u w, proj (u, opened w) = proj (u, w).
Hypothesis blind_saved_catalog :
  forall u w c, proj (u, saved_catalog c w) = proj (u, w).

Lemma keeps_sleep e : keeps proj (sleep e).
Proof. unfold sleep. keeps_auto. Qed.

Lemma keeps_get_next_api_key : keeps proj get_next_api_key.
Proof. unfold get_next_api_key. keeps_auto. Qed.

Lemma keeps_handle_429_error attempt : keeps proj (handle_429_error attempt).
Proof.
  unfold handle_429_error. pose proof keeps_get_next_api_key.
  pose proof keeps_sleep. keeps_auto.
Qed.

Lemma keeps_throttle : keeps proj throttle.
Proof. unfold throttle, time_time. pose proof keeps_sleep. keeps_auto. Qed.

Lemma keeps_count_request every : keeps proj (count_request every).
Proof.
  unfold count_request. pose proof keeps_get_next_api_key. keeps_auto.
Qed.

Lemma keeps_stamp_request : keeps proj stamp_request.
Proof. unfold stamp_request, time_time. keeps_auto. Qed.

Lemma keeps_session_get url params : keeps proj (session_get url params).
Proof. unfold session_get. keeps_auto. Qed.

Lemma keeps_try_write p : keeps proj (try_write p).
Proof. unfold try_write. keeps_auto. Qed.

Lemma keeps_write_file p : keeps proj (write_file p).
Proof. unfold write_file. pose proof keeps_try_write. keeps_auto. Qed.

Lemma keeps_mkdir p : keeps proj (mkdir p).
Proof. unfold mkdir. keeps_auto. Qed.

Lemma keeps_path_exists p : keeps proj (path_exists p).
Proof. unfold path_exists. keeps_auto. Qed.

Lemma keeps_save_catalog c : keeps proj (save_catalog c).
Proof. unfold save_catalog. keeps_auto. Qed.

Lemma keeps_make_request_loop fuel url params bound attempt :
  keeps proj (make_request_loop fuel url params bound attempt).
Proof.
  revert params attempt.
  induction fuel as [|fuel IH]; intros params attempt; simpl.
  - apply keeps_out_of_fuel.
  - pose proof keeps_throttle. pose proof (keeps_count_request 4).
    pose proof keeps_stamp_request. pose proof keeps_handle_429_error.
    pose proof keeps_sleep. pose proof keeps_session_get.
    keeps_auto.
Qed.

Lemma keeps_get_articles_for_issue fuel v i :
  keeps proj (get_articles_for_issue fuel v i).
Proof.
  unfold get_articles_for_issue, make_request.
  pose proof keeps_make_request_loop. keeps_auto.
Qed.

Lemma keeps_download_loop budget url filename max_retries attempt :
  keeps proj (download_loop budget url filename max_retries attempt).
Proof.
  revert attempt. induction budget as [|budget IH]; intros attempt; simpl.
  - apply keeps_ret.
  - pose proof keeps_throttle. pose proof (keeps_count_request 10).
    pose proof keeps_stamp_request. pose proof keeps_handle_429_error.
    pose proof keeps_sleep. pose proof keeps_session_get.
    pose proof keeps_try_write.
    keeps_auto.
Qed.

Lemma keeps_download_section_articles out iss i sas n :
  keeps proj (download_section_articles out iss i sas n).
Proof.
  revert i n. induction sas as [|sa sas IH]; intros i n; simpl.
  - apply keeps_ret.
  - pose proof keeps_path_exists. pose proof keeps_write_file.
    pose proof keeps_download_loop. unfold download_article_text.
    keeps_auto.
Qed.

Lemma keeps_download_articles out iss arts n :
  keeps proj (download_articles out iss arts n).
Proof.
  revert n. induction arts as [|a arts IH]; intros n; simpl.
  - apply keeps_ret.
  - pose proof keeps_download_section_articles. keeps_auto.
Qed.

Lemma keeps_download_missing fuel iss out :
  keeps proj (download_missing fuel iss out).
Proof.
  unfold download_missing. pose proof keeps_mkdir.
  pose proof keeps_get_articles_for_issue. pose proof keeps_download_articles.
  keeps_auto.
Qed.

Lemma keeps_check_issue_completeness fuel iss out :
  keeps proj (check_issue_completeness fuel iss out).
Proof.
  unfold check_issue_completeness. pose proof keeps_path_exists.
  pose proof keeps_get_articles_for_issue. keeps_auto.
Qed.

End Frames.

(** ** Running the client when no interrupt is pending *)

Lemma backoff_waits_app (l1 l2 : list sleep_event) :
  backoff_waits (l1 ++ l2) = backoff_waits l1 ++ backoff_waits l2.
Proof. unfold backoff_waits. apply flat_map_app. Qed.

Lemma handle_429_error_calm (attempt : nat) (s : State) :
  calm s ->
  exists s1, handle_429_error attempt s = (Ret tt, s1) /\ backed_off attempt s s1.
Proof.
  destruct s as [u w]. unfold calm. simpl. intros Hc.
  unfold handle_429_error, get_next_api_key, sleep, tick, bind, ret, get_self,
    modify_self, modify_world. simpl.
  destruct (1 <? length (api_keys u)) eqn:E; simpl.
  - eexists. split; [reflexivity|].
    unfold backed_off, calm. simpl. rewrite E, app_nil_r. tauto.
  - rewrite Hc. simpl. eexists. split; [reflexivity|].
    unfold backed_off, calm. simpl. rewrite E, backoff_waits_app. simpl. tauto.
Qed.

Ltac run H := rewrite (bind_Ret _ _ _ _ _ _ _ H).

Lemma tick_calm (s : State) : calm s -> tick s = (Ret tt, s).
Proof. unfold calm, tick. now intros ->. Qed.

Lemma sleep_calm (e : sleep_event) (s : State) :
  calm s -> sleep e s = (Ret tt, (fst s, slept e (snd s))).
Proof. intros Hc. unfold sleep. run (tick_calm _ Hc). reflexivity. Qed.

Lemma session_get_calm (url : pystr) (params : list (pystr * pystr)) (s : State) :
  calm s ->
  session_get url params s =
  (Ret (snd (net (snd s) (net_pos (snd s)))), (fst s, answered url params (snd s))).
Proof. intros Hc. unfold session_get. run (tick_calm _ Hc). reflexivity. Qed.

Lemma verdict_written_ready (w : World) (p : pystr) :
  verdict_on w p = Written -> dir_ready w p = true.
Proof. unfold verdict_on. now destruct (dir_ready w p). Qed.

(** A write that goes through: one verdict used, the path created. *)
Lemma try_write_calm (p : pystr) (s : State) :
  calm s -> verdict_on (snd s) p = Written ->
  try_write p s = (Ret None, (fst s, created p (opened (snd s)))).
Proof.
  intros Hc Hv. unfold try_write. run (tick_calm _ Hc).
  unfold get_world. unfold bind at 1. cbn [fst snd].
  rewrite Hv, (verdict_written_ready _ _ Hv). reflexivity.
Qed.

(** A write that fails: the error text is returned; the path is created
    only by a write that broke after opening. *)
Lemma try_write_fails (p : pystr) (s : State) :
  calm s -> verdict_on (snd s) p <> Written ->
  exists e w1,
    (verdict_on (snd s) p = Refused e \/ verdict_on (snd s) p = Broken e) /\
    try_write p s = (Ret (Some e), (fst s, w1)) /\
    interrupt_in w1 = None /\
    net w1 = net (snd s) /\ net_pos w1 = net_pos (snd s) /\
    disk w1 = disk (snd s) /\
    disk_pos (snd s) <= disk_pos w1 /\ disk_pos w1 <= S (disk_pos (snd s)) /\
    sleeps w1 = sleeps (snd s) /\
    fs w1 = match verdict_on (snd s) p with
            | Broken _ => fs (created p (snd s))
            | _ => fs (snd s)
            end.
Proof.
  intros Hc Hv. unfold try_write. run (tick_calm _ Hc).
  unfold get_world. unfold bind at 1. cbn [fst snd].
  destruct s as [u w]. unfold calm in Hc. cbn [fst snd] in *.
  destruct (verdict_on w p) as [|e|e] eqn:E; [contradiction| |].
  - exists e. destruct (dir_ready w p); eexists; (split; [now left|]);
      (split; [reflexivity|]); cbn; repeat split; auto.
  - exists e. destruct (dir_ready w p); eexists; (split; [now right|]);
      (split; [reflexivity|]); cbn; repeat split; auto.
Qed.

Lemma write_file_calm (p : pystr) (s : State) :
  calm s -> verdict_on (snd s) p = Written ->
  write_file p s = (Ret tt, (fst s, created p (opened (snd s)))).
Proof. intros Hc Hv. unfold write_file. now run (try_write_calm p s Hc Hv). Qed.

Lemma throttle_calm (s : State) :
  calm s ->
  exists w1, throttle s = (Ret tt, (fst s, w1)) /\
    interrupt_in w1 = None /\ net w1 = net (snd s) /\ net_pos w1 = net_pos (snd s) /\
    fs w1 = fs (snd s) /\ catalog_file w1 = catalog_file (snd s) /\
    backoff_waits (sleeps w1) = backoff_waits (sleeps (snd s)) /\
    disk w1 = disk (snd s) /\ disk_pos w1 = disk_pos (snd s) /\
    sent w1 = sent (snd s).
Proof.
  intros Hc. unfold throttle, time_time, get_world, get_self, bind, ret.
  destruct (Qltb _ 1).
  - rewrite (sleep_calm _ _ Hc). eexists. split; [reflexivity|].
    destruct s as [u w]. unfold calm in Hc. simpl in *.
    rewrite backoff_waits_app. simpl. rewrite app_nil_r. tauto.
  - exists (snd s). destruct s as [u w]. simpl. unfold calm in Hc. tauto.
Qed.

Lemma count_request_run (every : nat) (s : State) :
  exists u1, count_request every s = (Ret tt, (u1, snd s)) /\
    api_keys u1 = api_keys (fst s) /\
    consecutive_existing_issues u1 = consecutive_existing_issues (fst s) /\
    stop_threshold u1 = stop_threshold (fst s) /\
    request_count u1 = S (request_count (fst s)) /\
    key_pos u1 =
      (if S (request_count (fst s)) mod every =? 0
       then S (key_pos (fst s)) mod length (api_keys (fst s))
       else key_pos (fst s)).
Proof.
  destruct s as [u w].
  unfold count_request, get_next_api_key, modify_self, get_self, bind, ret.
  cbn [fst snd set_request_count request_count].
  destruct (S (request_count u) mod every =? 0); eexists; (split; [reflexivity|]);
    destruct u; cbn; tauto.
Qed.

Lemma stamp_request_run (s : State) :
  stamp_request s = (Ret tt, (set_last_request_time (clock (snd s)) (fst s), snd s)).
Proof. reflexivity. Qed.

(** One iteration of the loop of [make_request], up to the answer. *)
Lemma make_request_loop_calm (fuel : nat) (url : pystr) (params : list (pystr * pystr))
    (attempt : nat) (s : State) :
  calm s ->
  exists s1 params1,
    attempted 4 s s1 /\
    make_request_loop (S fuel) url params Unbounded attempt s =
    match snd (net (snd s) (net_pos (snd s))) with
    | Status429 =>
        (handle_429_error attempt ;;
         make_request_loop fuel url params1 Unbounded (S attempt)) s1
    | Status200 _ json => (Ret (Some json), s1)
    | Timeout =>
        if attempt <? 3 then
          (sleep RetrySleep ;;
           make_request_loop fuel url params1 Unbounded (S attempt)) s1
        else (Ret None, s1)
    | RequestException e =>
        if contains (lit "429") e then
          (handle_429_error attempt ;;
           make_request_loop fuel url params1 Unbounded (S attempt)) s1
        else (Ret None, s1)
    end.
Proof.
  intros Hc. cbn [make_request_loop within].
  destruct (throttle_calm _ Hc) as (w1 & E1 & Hw1 & Hn1 & Hp1 & Hf1 & Hcat1 & Hb1).
  run E1.
  destruct (count_request_run 4 (fst s, w1)) as (u1 & E2 & Hk & Hce & Hst & Hrc & Hkp).
  run E2.
  unfold get_self at 1. unfold bind at 1.
  run (stamp_request_run (u1, snd (fst s, w1))).
  cbn [fst snd].
  assert (Hc2 : calm (set_last_request_time (clock w1) u1, w1)) by exact Hw1.
  run (session_get_calm url
         (set_param (lit "api_key") (current_api_key u1) params) _ Hc2).
  cbn [fst snd]. rewrite Hn1, Hp1.
  eexists. eexists. split.
  2: { destruct (snd (net (snd s) (net_pos (snd s)))); try reflexivity.
       - destruct (attempt <? 3); reflexivity.
       - destruct (contains (lit "429") message); reflexivity. }
  unfold attempted, calm. destruct u1, w1. cbn in *. subst. tauto.
Qed.

(** One iteration of the loop of [download_article_text], up to the
    answer. *)
Lemma download_loop_calm (budget : nat) (url filename : pystr)
    (max_retries attempt : nat) (s : State) :
  calm s ->
  attempt <= max_retries ->
  exists s1,
    attempted 10 s s1 /\
    download_loop (S budget) url filename max_retries attempt s =
    match snd (net (snd s) (net_pos (snd s))) with
    | Status429 =>
        (handle_429_error attempt ;;
         download_loop budget url filename max_retries (S attempt)) s1
    | Status200 _ _ =>
        (r <- try_write filename ;;
         match r with
         | None => ret (Some true)
         | Some e =>
             if contains (lit "429") e then
               handle_429_error attempt ;;
               download_loop budget url filename max_retries (S attempt)
             else ret (Some false)
         end) s1
    | Timeout =>
        if attempt <? max_retries then
          (sleep RetrySleep ;;
           download_loop budget url filename max_retries (S attempt)) s1
        else (Ret (Some false), s1)
    | RequestException e =>
        if contains (lit "429") e then
          (handle_429_error attempt ;;
           download_loop budget url filename max_retries (S attempt)) s1
        else (Ret (Some false), s1)
    end.
Proof.
  intros Hc Hle. cbn [download_loop].
  apply Nat.leb_le in Hle. rewrite Hle.
  destruct (throttle_calm _ Hc) as (w1 & E1 & Hw1 & Hn1 & Hp1 & Hf1 & Hcat1 & Hb1).
  run E1.
  destruct (count_request_run 10 (fst s, w1)) as (u1 & E2 & Hk & Hce & Hst & Hrc & Hkp).
  run E2.
  run (stamp_request_run (u1, snd (fst s, w1))).
  cbn [fst snd].
  assert (Hc2 : calm (set_last_request_time (clock w1) u1, w1)) by exact Hw1.
  run (session_get_calm url [] _ Hc2).
  cbn [fst snd]. rewrite Hn1, Hp1.
  eexists. split.
  2: { destruct (snd (net (snd s) (net_pos (snd s)))); try reflexivity.
       - destruct (attempt <? max_retries); reflexivity.
       - destruct (contains (lit "429") message); reflexivity. }
  unfold attempted, calm. destruct u1, w1. cbn in *. subst. tauto.
Qed.

Lemma bind_ext A B (m : M A) (f g : A -> M B) (s : State) :
  (forall a s1, f a s1 = g a s1) -> bind m f s = bind m g s.
Proof.
  intros H. unfold bind. destruct (m s) as [[a|e|] s1]; [apply H | reflexivity..].
Qed.

(** The countdown of [download_loop] only has to cover the attempts that
    are left: any two that do give the same run. *)
Lemma download_loop_budget (url filename : pystr) (max_retries : nat) (b1 : nat) :
  forall (b2 attempt : nat) (s : State),
  S max_retries <= attempt + b1 ->
  S max_retries <= attempt + b2 ->
  download_loop b1 url filename max_retries attempt s =
  download_loop b2 url filename max_retries attempt s.
Proof.
  induction b1 as [|b1 IH]; intros b2 attempt s H1 H2.
  - destruct b2 as [|b2]; [reflexivity|]. cbn [download_loop].
    replace (attempt <=? max_retries) with false; [reflexivity|].
    symmetry. apply Nat.leb_gt. lia.
  - destruct b2 as [|b2]; cbn [download_loop].
    + replace (attempt <=? max_retries) with false; [reflexivity|].
      symmetry. apply Nat.leb_gt. lia.
    + destruct (attempt <=? max_retries); [|reflexivity].
      do 3 (apply bind_ext; intros ? ?).
      apply bind_ext. intros response s5.
      destruct response as [| | |msg]; try reflexivity.
      * apply bind_ext. intros ? ?. apply IH; lia.
      * apply bind_ext. intros [e|] s6; [|reflexivity].
        destruct (contains (lit "429") e); [|reflexivity].
        apply bind_ext. intros ? ?. apply IH; lia.
      * destruct (attempt <? max_retries) eqn:E; [|reflexivity].
        apply bind_ext. intros ? ?. apply IH; lia.
      * destruct (contains (lit "429") msg); [|reflexivity].
        apply bind_ext. intros ? ?. apply IH; lia.
Qed.

(** [n] rate-limit answers in a row, then a success: the listing request
    goes through them all. *)
Lemma make_request_loop_through_429 (n : nat) :
  forall (fuel : nat) (url : pystr) (params : list (pystr * pystr))
         (attempt : nat) (s : State) (body : pystr) (json : payload),
  calm s ->
  (forall k, k < n -> snd (net (snd s) (net_pos (snd s) + k)) = Status429) ->
  snd (net (snd s) (net_pos (snd s) + n)) = Status200 body json ->
  n < fuel ->
  exists s',
    make_request_loop fuel url params Unbounded attempt s = (Ret (Some json), s') /\
    calm s' /\
    net (snd s') = net (snd s) /\
    net_pos (snd s') = net_pos (snd s) + S n /\
    api_keys (fst s') = api_keys (fst s) /\
    fs (snd s') = fs (snd s) /\
    backoff_waits (sleeps (snd s')) =
      backoff_waits (sleeps (snd s)) ++
      (if 1 <? length (api_keys (fst s)) then []
       else map backoff_wait (seq attempt n)).
Proof.
  induction n as [|n IH]; intros fuel url params attempt s body json Hc H429 H200 Hfuel.
  - destruct fuel as [|fuel]; [lia|].
    destruct (make_request_loop_calm fuel url params attempt s Hc)
      as (s1 & p1 & Hatt & ->).
    rewrite Nat.add_0_r in H200. rewrite H200.
    destruct Hatt as (? & ? & ? & ? & ? & ? & ? & ? & ? & ?).
    exists s1. repeat split; try assumption; try lia.
    destruct (1 <? _); simpl; rewrite app_nil_r; assumption.
  - destruct fuel as [|fuel]; [lia|].
    destruct (make_request_loop_calm fuel url params attempt s Hc)
      as (s1 & p1 & Hatt & ->).
    pose proof (H429 0 ltac:(lia)) as H0. rewrite Nat.add_0_r in H0. rewrite H0.
    destruct Hatt as (Hc1 & Hn1 & Hp1 & Hk1 & Hf1 & _ & _ & Hb1 & _ & _).
    destruct (handle_429_error_calm attempt s1 Hc1) as (s2 & E2 & Hbo).
    run E2.
    destruct Hbo as (Hc2 & Hn2 & Hp2 & Hk2 & Hf2 & _ & Hb2 & _).
    destruct (IH fuel url p1 (S attempt) s2 body json Hc2) as (s' & E & Hc' & Hn' & Hp' & Hk' & Hf' & Hb').
    + intros k Hk. rewrite Hn2, Hn1, Hp2, Hp1.
      replace (S (net_pos (snd s)) + k) with (net_pos (snd s) + S k) by lia.
      apply H429. lia.
    + rewrite Hn2, Hn1, Hp2, Hp1.
      replace (S (net_pos (snd s)) + n) with (net_pos (snd s) + S n) by lia.
      exact H200.
    + lia.
    + exists s'. split; [exact E|].
      repeat split; try congruence; try lia.
      rewrite Hb', Hb2, Hb1, Hk2, Hk1.
      destruct (1 <? length (api_keys (fst s))); simpl.
      * now rewrite !app_nil_r.
      * now rewrite <- app_assoc.
Qed.

Lemma created_in_fs (p : pystr) (w : World) : in_fs (created p w) p = true.
Proof.
  unfold in_fs, created. simpl.
  destruct (existsb (PyStr.eqb p) (fs w)) eqn:E; [exact E|].
  rewrite existsb_app. simpl. rewrite pystr_eqb_refl.
  now rewrite orb_true_r.
Qed.

Lemma verdict_on_congr (w1 w : World) (p : pystr) :
  fs w1 = fs w -> disk w1 = disk w -> disk_pos w1 = disk_pos w ->
  verdict_on w1 p = verdict_on w p.
Proof.
  intros Hf Hd Hp. unfold verdict_on, dir_ready, in_fs. now rewrite Hf, Hd, Hp.
Qed.

(** Fewer rate-limit answers in a row than attempts left, then a success:
    the download gets to the write of the file, on the disk as it was. *)
Lemma download_loop_through_429 (n : nat) :
  forall (budget : nat) (url filename : pystr) (max_retries attempt : nat)
         (s : State) (body : pystr) (json : payload),
  calm s ->
  (forall k, k < n -> snd (net (snd s) (net_pos (snd s) + k)) = Status429) ->
  snd (net (snd s) (net_pos (snd s) + n)) = Status200 body json ->
  attempt + n <= max_retries ->
  n < budget ->
  exists s1,
    download_loop budget url filename max_retries attempt s =
      (r <- try_write filename ;;
       match r with
       | None => ret (Some true)
       | Some e =>
           if contains (lit "429") e then
             handle_429_error (attempt + n) ;;
             download_loop (budget - S n) url filename max_retries (S (attempt + n))
           else ret (Some false)
       end) s1 /\
    calm s1 /\
    net (snd s1) = net (snd s) /\
    net_pos (snd s1) = net_pos (snd s) + S n /\
    verdict_on (snd s1) filename = verdict_on (snd s) filename.
Proof.
  induction n as [|n IH];
    intros budget url filename max_retries attempt s body json Hc H429 H200 Hle Hb.
  - destruct budget as [|budget]; [lia|].
    destruct (download_loop_calm budget url filename max_retries attempt s Hc)
      as (s1 & Hatt & ->); [lia|].
    rewrite Nat.add_0_r in H200. rewrite H200.
    destruct Hatt as (Hc1 & Hn1 & Hp1 & _ & Hf1 & _ & _ & _ & _ & _ & Hd1 & Hdp1).
    exists s1. rewrite !Nat.add_0_r. replace (S budget - 1) with budget by lia.
    split; [reflexivity|]. split; [exact Hc1|]. split; [exact Hn1|].
    split; [lia|]. now apply verdict_on_congr.
  - destruct budget as [|budget]; [lia|].
    destruct (download_loop_calm budget url filename max_retries attempt s Hc)
      as (s1 & Hatt & ->); [lia|].
    pose proof (H429 0 ltac:(lia)) as H0. rewrite Nat.add_0_r in H0. rewrite H0.
    destruct Hatt as (Hc1 & Hn1 & Hp1 & _ & Hf1 & _ & _ & _ & _ & _ & Hd1 & Hdp1).
    destruct (handle_429_error_calm attempt s1 Hc1) as (s2 & E2 & Hbo).
    run E2.
    destruct Hbo as (Hc2 & Hn2 & Hp2 & _ & Hf2 & _ & _ & _ & Hd2 & Hdp2).
    destruct (IH budget url filename max_retries (S attempt) s2 body json Hc2)
      as (s' & E & Hc' & Hn' & Hp' & Hv').
    + intros k Hk. rewrite Hn2, Hn1, Hp2, Hp1.
      replace (S (net_pos (snd s)) + k) with (net_pos (snd s) + S k) by lia.
      apply H429. lia.
    + rewrite Hn2, Hn1, Hp2, Hp1.
      replace (S (net_pos (snd s)) + n) with (net_pos (snd s) + S n) by lia.
      exact H200.
    + lia.
    + lia.
    + exists s'. rewrite E.
      replace (S attempt + n) with (attempt + S n) by lia.
      replace (budget - S n) with (S budget - S (S n)) by lia.
      split; [reflexivity|]. split; [exact Hc'|]. split; [congruence|].
      split; [lia|]. rewrite Hv'. apply verdict_on_congr; congruence.
Qed.

(** As many rate-limit answers in a row as attempts left: the download
    leaves its loop, which is the implicit [None], having asked no more
    than that often and written nothing. *)
Lemma download_loop_gives_up (n : nat) :
  forall (budget : nat) (url filename : pystr) (max_retries attempt : nat)
         (s : State),
  calm s ->
  (forall k, k < n -> snd (net (snd s) (net_pos (snd s) + k)) = Status429) ->
  attempt + n = S max_retries ->
  n <= budget ->
  exists s',
    download_loop budget url filename max_retries attempt s = (Ret None, s') /\
    calm s' /\
    net_pos (snd s') = net_pos (snd s) + n /\
    fs (snd s') = fs (snd s).
Proof.
  induction n as [|n IH];
    intros budget url filename max_retries attempt s Hc H429 Hle Hb.
  - exists s. rewrite Nat.add_0_r. repeat split; try assumption.
    destruct budget as [|budget]; [reflexivity|]. cbn [download_loop].
    replace (attempt <=? max_retries) with false; [reflexivity|].
    symmetry. apply Nat.leb_gt. lia.
  - destruct budget as [|budget]; [lia|].
    destruct (download_loop_calm budget url filename max_retries attempt s Hc)
      as (s1 & Hatt & ->); [lia|].
    pose proof (H429 0 ltac:(lia)) as H0. rewrite Nat.add_0_r in H0. rewrite H0.
    destruct Hatt as (Hc1 & Hn1 & Hp1 & _ & Hf1 & _).
    destruct (handle_429_error_calm attempt s1 Hc1) as (s2 & E2 & Hbo).
    run E2.
    destruct Hbo as (Hc2 & Hn2 & Hp2 & _ & Hf2 & _).
    destruct (IH budget url filename max_retries (S attempt) s2 Hc2)
      as (s' & E & Hc' & Hp' & Hf').
    + intros k Hk. rewrite Hn2, Hn1, Hp2, Hp1.
      replace (S (net_pos (snd s)) + k) with (net_pos (snd s) + S k) by lia.
      apply H429. lia.
    + lia.
    + lia.
    + exists s'. repeat split; try assumption; [lia | congruence].
Qed.

(** ** RateLimitedClient: rotation, retries, backoff *)

(** C4, as stated, fails: the one request counter is shared.  With no
    listing call before, nine downloads leave the first key current (the
    tenth download is the one that rotates); after a single listing call
    the ninth download already rotates.  Likewise three listing calls do
    not rotate, but after one download the third listing call does. *)
Lemma rotation_points_depend_on_other_calls :
  key_pos (fst (snd (times 9 a_download_call always_ok))) = 0 /\
  key_pos (fst (snd ((a_listing_call ;; times 8 a_download_call) always_ok))) = 0 /\
  key_pos (fst (snd ((a_listing_call ;; times 9 a_download_call) always_ok))) = 1 /\
  key_pos (fst (snd (times 3 a_listing_call always_ok))) = 0 /\
  key_pos (fst (snd ((a_download_call ;; times 3 a_listing_call) always_ok))) = 1.
Proof. vm_compute. repeat split. Qed.

(** One turn of either request loop up to the answer, with what it sends. *)
Lemma make_request_loop_turn (fuel : nat) (url : pystr) (params : list (pystr * pystr))
    (attempt : nat) (s : State) :
  calm s ->
  exists s1 params1,
    attempted 4 s s1 /\
    sent (snd s1) = sent (snd s) ++ [(url, params1)] /\
    get_param (lit "api_key") params1 = Some (current_api_key (fst s1)) /\
    make_request_loop (S fuel) url params Unbounded attempt s =
    listing_turn_rest fuel url params1 attempt
      (snd (net (snd s) (net_pos (snd s)))) s1.
Proof.
  intros Hc. cbn [make_request_loop within].
  destruct (throttle_calm _ Hc)
    as (w1 & E1 & Hw1 & Hn1 & Hp1 & Hf1 & Hcat1 & Hb1 & Hd1 & Hdp1 & Hs1).
  run E1.
  destruct (count_request_run 4 (fst s, w1)) as (u1 & E2 & Hk & Hce & Hst & Hrc & Hkp).
  run E2.
  unfold get_self at 1. unfold bind at 1.
  run (stamp_request_run (u1, snd (fst s, w1))).
  cbn [fst snd].
  assert (Hc2 : calm (set_last_request_time (clock w1) u1, w1)) by exact Hw1.
  run (session_get_calm url
         (set_param (lit "api_key") (current_api_key u1) params) _ Hc2).
  cbn [fst snd]. rewrite Hn1, Hp1.
  eexists. eexists. split; [|split; [|split]].
  4: { unfold listing_turn_rest.
       destruct (snd (net (snd s) (net_pos (snd s)))); try reflexivity. }
  - unfold attempted, calm. destruct u1, w1. cbn in *. subst. tauto.
  - cbn [snd answered sent]. now rewrite Hs1.
  - cbn [fst]. rewrite get_set_param. destruct u1. reflexivity.
Qed.

Lemma download_loop_turn (budget : nat) (url filename : pystr)
    (max_retries attempt : nat) (s : State) :
  calm s ->
  attempt <= max_retries ->
  exists s1,
    attempted 10 s s1 /\
    sent (snd s1) = sent (snd s) ++ [(url, [])] /\
    download_loop (S budget) url filename max_retries attempt s =
    download_turn_rest budget url filename max_retries attempt
      (snd (net (snd s) (net_pos (snd s)))) s1.
Proof.
  intros Hc Hle. cbn [download_loop].
  apply Nat.leb_le in Hle. rewrite Hle.
  destruct (throttle_calm _ Hc)
    as (w1 & E1 & Hw1 & Hn1 & Hp1 & Hf1 & Hcat1 & Hb1 & Hd1 & Hdp1 & Hs1).
  run E1.
  destruct (count_request_run 10 (fst s, w1)) as (u1 & E2 & Hk & Hce & Hst & Hrc & Hkp).
  run E2.
  run (stamp_request_run (u1, snd (fst s, w1))).
  cbn [fst snd].
  assert (Hc2 : calm (set_last_request_time (clock w1) u1, w1)) by exact Hw1.
  run (session_get_calm url [] _ Hc2).
  cbn [fst snd]. rewrite Hn1, Hp1.
  eexists. split; [|split].
  3: { unfold download_turn_rest.
       destruct (snd (net (snd s) (net_pos (snd s)))); try reflexivity. }
  - unfold attempted, calm. destruct u1, w1. cbn in *. subst. tauto.
  - cbn [snd answered sent]. now rewrite Hs1.
Qed.

(** C4, amended: listing and download calls count on one shared request
    counter, one up for every request sent, of either kind.  Every turn
    of the loop of a listing call, whatever its attempt number and
    whatever the answer will be, adds one to the shared count, moves to
    the next key exactly when the count has become a multiple of 4, and
    sends the request under the key then current; every turn of the loop
    of a download does the same on the multiples of 10, and sends no key.
    Only then is the answer looked at; a rate-limit answer moves to the
    next key once more when there are several keys, and leaves the count
    alone. *)
Theorem rotation_on_shared_request_count
    (s : State) (fuel budget : nat) (url filename : pystr)
    (params : list (pystr * pystr)) (attempt : nat) :
  calm s ->
  let next_key := S (key_pos (fst s)) mod length (api_keys (fst s)) in
  (exists s1 params1,
     request_count (fst s1) = S (request_count (fst s)) /\
     key_pos (fst s1) =
       (if S (request_count (fst s)) mod 4 =? 0 then next_key else key_pos (fst s)) /\
     sent (snd s1) = sent (snd s) ++ [(url, params1)] /\
     get_param (lit "api_key") params1 = Some (current_api_key (fst s1)) /\
     make_request_loop (S fuel) url params Unbounded attempt s =
       listing_turn_rest fuel url params1 attempt (answer s 0) s1) /\
  (attempt <= 3 ->
   exists s1,
     request_count (fst s1) = S (request_count (fst s)) /\
     key_pos (fst s1) =
       (if S (request_count (fst s)) mod 10 =? 0 then next_key else key_pos (fst s)) /\
     sent (snd s1) = sent (snd s) ++ [(url, [])] /\
     download_loop (S budget) url filename 3 attempt s =
       download_turn_rest budget url filename 3 attempt (answer s 0) s1) /\
  (exists s2,
     handle_429_error attempt s = (Ret tt, s2) /\
     request_count (fst s2) = request_count (fst s) /\
     key_pos (fst s2) =
       (if 1 <? length (api_keys (fst s)) then next_key else key_pos (fst s))).
Proof.
  intros Hc next_key. unfold answer. rewrite Nat.add_0_r. split; [|split].
  - destruct (make_request_loop_turn fuel url params attempt s Hc)
      as (s1 & p1 & Hatt & Hsent & Hkey & E).
    exists s1, p1.
    destruct Hatt as (_ & _ & _ & _ & _ & _ & _ & _ & Hrc & Hkp & _).
    repeat split; assumption.
  - intros Hle.
    destruct (download_loop_turn budget url filename 3 attempt s Hc Hle)
      as (s1 & Hatt & Hsent & E).
    exists s1.
    destruct Hatt as (_ & _ & _ & _ & _ & _ & _ & _ & Hrc & Hkp & _).
    repeat split; assumption.
  - destruct (handle_429_error_calm attempt s Hc) as (s2 & E & Hbo).
    exists s2. destruct Hbo as (_ & _ & _ & _ & _ & Hrc & _ & Hkp & _).
    repeat split; assumption.
Qed.

Lemma rotation_on_shared_request_count_witness :
  calm (three_requests_made (snd always_ok)) /\
  exists s1 params1,
    request_count (fst s1) = 4 /\ key_pos (fst s1) = 1 /\
    make_request_loop 3 listing_url [] Unbounded 1 (three_requests_made (snd always_ok)) =
      listing_turn_rest 2 listing_url params1 1
        (answer (three_requests_made (snd always_ok)) 0) s1.
Proof.
  assert (Hc : calm (three_requests_made (snd always_ok))) by reflexivity.
  split; [exact Hc|].
  destruct (proj1 (rotation_on_shared_request_count
                     (three_requests_made (snd always_ok)) 2 2 listing_url (lit "f") [] 1 Hc))
    as (s1 & p1 & Hrc & Hkp & _ & _ & E).
  exists s1, p1. split; [exact Hrc|]. split; [|exact E].
  rewrite Hkp. reflexivity.
Defined.

(** C5, as stated, fails for downloads: with three rate-limit answers in a
    row the download leaves its retry loop and returns [None], which the
    caller takes as a failure, although the fourth answer would have been
    a success; nothing is written. *)
Lemma download_surfaces_rate_limit :
  snd (net (snd thrice_limited) 3) = Status200 (lit "ok") no_payload /\
  fst (a_download_call thrice_limited) = Ret None /\
  net_pos (snd (snd (a_download_call thrice_limited))) = 3 /\
  fs (snd (snd (a_download_call thrice_limited))) = [].
Proof. vm_compute. repeat split. Qed.

(** C5, amended: a rate-limit answer is retried.  A listing request
    retries it without bound: after any number [n] of rate-limit answers
    in a row, a success yields the payload.  A download retries it within
    its three attempts: after at most two rate-limit answers in a row, a
    success gets to the write of the file, and yields [True] and the file
    when the write goes through, [False] when it fails with an error
    whose text does not hold "429"; the third rate-limit answer in a row
    ends the download without success. *)
Theorem rate_limit_retried_within_attempts
    (s : State) (n : nat) (url filename : pystr) (params : list (pystr * pystr)) :
  calm s ->
  (forall k, k < n -> snd (net (snd s) (net_pos (snd s) + k)) = Status429) ->
  (forall body json,
     snd (net (snd s) (net_pos (snd s) + n)) = Status200 body json ->
     (forall fuel, n < fuel ->
        exists s', make_request fuel url params s = (Ret (Some json), s')) /\
     (n < 3 ->
        match verdict_on (snd s) filename with
        | Written =>
            exists s', download_article_text url filename s = (Ret (Some true), s') /\
                       in_fs (snd s') filename = true
        | Refused e | Broken e =>
            contains (lit "429") e = false ->
            exists s', download_article_text url filename s = (Ret (Some false), s')
        end)) /\
  (n = 3 ->
     exists s', download_article_text url filename s = (Ret None, s') /\
                net_pos (snd s') = net_pos (snd s) + 3 /\
                fs (snd s') = fs (snd s)).
Proof.
  intros Hc H429. split.
  - intros body json H200. split.
    + intros fuel Hfuel.
      destruct (make_request_loop_through_429 n fuel url params 1 s body json
                  Hc H429 H200 Hfuel) as (s' & E & _).
      now exists s'.
    + intros Hn. unfold download_article_text.
      destruct (download_loop_through_429 n 3 url filename 3 1 s body json
                  Hc H429 H200 ltac:(lia) Hn) as (s1 & -> & Hc1 & _ & _ & Hv).
      rewrite <- Hv.
      destruct (verdict_on (snd s1) filename) as [|e|e] eqn:Ev.
      * run (try_write_calm filename s1 Hc1 Ev).
        eexists. split; [reflexivity|]. apply created_in_fs.
      * intros He.
        destruct (try_write_fails filename s1 Hc1) as (e' & w1 & Hor & E & _);
          [congruence|].
        run E. rewrite Ev in Hor.
        assert (e' = e) by (destruct Hor as [Hor | Hor]; congruence). subst e'.
        rewrite He. now eexists.
      * intros He.
        destruct (try_write_fails filename s1 Hc1) as (e' & w1 & Hor & E & _);
          [congruence|].
        run E. rewrite Ev in Hor.
        assert (e' = e) by (destruct Hor as [Hor | Hor]; congruence). subst e'.
        rewrite He. now eexists.
  - intros ->.
    destruct (download_loop_gives_up 3 3 url filename 3 1 s Hc H429 eq_refl (le_n 3))
      as (s' & E & _ & Hp & Hf).
    now exists s'.
Qed.

Lemma rate_limit_retried_within_attempts_witness :
  calm thrice_limited /\
  (forall k, k < 3 ->
     snd (net (snd thrice_limited) (net_pos (snd thrice_limited) + k)) = Status429) /\
  exists s', make_request 4 listing_url [] thrice_limited = (Ret (Some no_payload), s').
Proof.
  assert (H : forall k, k < 3 ->
     snd (net (snd thrice_limited) (net_pos (snd thrice_limited) + k)) = Status429).
  { intros [|[|[|k]]] Hk; try reflexivity.
    exfalso. apply (Nat.lt_irrefl 3).
    apply (Nat.le_lt_trans _ (S (S (S k)))); [|exact Hk].
    do 3 apply le_n_S. apply Nat.le_0_l. }
  split; [reflexivity|]. split; [exact H|].
  exact (proj1 (proj1 (rate_limit_retried_within_attempts thrice_limited 3
                         listing_url [] [] eq_refl H)
                  (lit "ok") no_payload eq_refl) 4 (le_n 4)).
Defined.

(** C8: with a single key, the wait before retry attempt [k] is
    [min(2^k, 60)] for the first five attempts and 60 afterwards; the
    waits of a listing request that meets [n] rate-limit answers in a row
    are those of attempts [1..n], so three of them give exactly 2, 4, 8. *)
Theorem single_key_backoff_schedule (s : State) :
  calm s ->
  length (api_keys (fst s)) = 1 ->
  (forall k : nat,
     exists s' w,
       handle_429_error k s = (Ret tt, s') /\
       sleeps (snd s') = sleeps (snd s) ++ [BackoffSleep w] /\
       (k <= 5 -> w = Z.min (2 ^ Z.of_nat k) 60) /\
       (5 < k -> w = 60%Z)) /\
  (forall (n fuel : nat) url params body json,
     n < fuel ->
     (forall k, k < n -> snd (net (snd s) (net_pos (snd s) + k)) = Status429) ->
     snd (net (snd s) (net_pos (snd s) + n)) = Status200 body json ->
     exists s',
       make_request fuel url params s = (Ret (Some json), s') /\
       backoff_waits (sleeps (snd s')) =
         backoff_waits (sleeps (snd s)) ++
         map (fun k => if k <=? 5 then Z.min (2 ^ Z.of_nat k) 60 else 60%Z) (seq 1 n) /\
       (n = 3 ->
        backoff_waits (sleeps (snd s')) =
          backoff_waits (sleeps (snd s)) ++ [2; 4; 8]%Z)).
Proof.
  intros Hc Hone. split.
  - intros k. unfold handle_429_error, get_self. unfold bind at 1.
    rewrite Hone. cbn [Nat.ltb Nat.leb].
    rewrite (sleep_calm _ _ Hc).
    exists (fst s, slept (BackoffSleep (backoff_wait k)) (snd s)), (backoff_wait k).
    split; [reflexivity|]. split; [reflexivity|].
    unfold backoff_wait. split; intros Hk.
    + apply Nat.leb_le in Hk. now rewrite Hk.
    + apply Nat.leb_gt in Hk. now rewrite Hk.
  - intros n fuel url params body json Hfuel H429 H200.
    destruct (make_request_loop_through_429 n fuel url params 1 s body json
                Hc H429 H200 Hfuel) as (s' & E & _ & _ & _ & _ & _ & Hb).
    rewrite Hone in Hb. cbn [Nat.ltb Nat.leb] in Hb.
    exists s'. split; [exact E|]. split; [exact Hb|].
    intros ->. exact Hb.
Qed.

Lemma single_key_backoff_schedule_witness :
  calm thrice_limited /\
  length (api_keys (fst thrice_limited)) = 1 /\
  exists s',
    make_request 4 listing_url [] thrice_limited = (Ret (Some no_payload), s') /\
    backoff_waits (sleeps (snd s')) = [2; 4; 8]%Z.
Proof.
  split; [reflexivity|]. split; [reflexivity|].
  assert (H : forall k, k < 3 ->
     snd (net (snd thrice_limited) (net_pos (snd thrice_limited) + k)) = Status429).
  { intros [|[|[|k]]] Hk; try reflexivity.
    exfalso. apply (Nat.lt_irrefl 3).
    apply (Nat.le_lt_trans _ (S (S (S k)))); [|exact Hk].
    do 3 apply le_n_S. apply Nat.le_0_l. }
  destruct (proj2 (single_key_backoff_schedule thrice_limited eq_refl eq_refl)
              3 4 listing_url [] (lit "ok") no_payload (le_n 4) H eq_refl)
    as (s' & E & _ & H3).
  exists s'. split; [exact E | exact (H3 eq_refl)].
Defined.

(** ** CompletenessEvaluator *)

Lemma count_section_articles_spec (f : pystr -> bool) (out : pystr) (iss : issue)
    (sas : list section_article) :
  forall (i : nat) (counts : nat * nat),
  count_section_articles f out iss i sas counts =
  (fst counts + length (filter downloadable sas),
   snd counts + count_true f (section_paths out iss i sas)).
Proof.
  unfold count_true.
  induction sas as [|sa sas IH]; intros i [t e]; simpl.
  - now rewrite !Nat.add_0_r.
  - rewrite IH. unfold downloadable.
    destruct (truthy (find_formatted_text_url (text sa))); simpl.
    + destruct (f (artifact_path out iss (title_of i sa))); simpl; f_equal; lia.
    + reflexivity.
Qed.

Lemma count_articles_spec (f : pystr -> bool) (out : pystr) (iss : issue)
    (arts : list article) :
  forall counts : nat * nat,
  count_articles f out iss arts counts =
  (fst counts + length (filter downloadable (all_section_articles arts)),
   snd counts + count_true f (derived_paths out iss arts)).
Proof.
  unfold count_true, all_section_articles, derived_paths.
  induction arts as [|a arts IH]; intros [t e]; simpl.
  - now rewrite !Nat.add_0_r.
  - rewrite IH, count_section_articles_spec. unfold count_true. simpl.
    rewrite !filter_app, !length_app. f_equal; lia.
Qed.

(** C7, as stated, fails: the evaluator fetched a listing with two section
    articles having a 'Formatted Text' variant, but counts one, the other
    variant carrying no url, and reports the issue complete. *)
Lemma formatted_text_without_url_not_counted :
  fst (check_issue_completeness 3 issue_170_45 records prayer_on_disk) =
    Ret (true, 1, 1) /\
  length (filter has_formatted_text [with_url; without_url]) = 2.
Proof. vm_compute. split; reflexivity. Qed.

(** C7, amended: whenever the check returns, [is_complete] holds iff
    [total > 0] and [existing = total]; without the congress directory
    the counts are zero and nothing is asked; otherwise [total] counts
    exactly the section articles of the fetched listing whose first
    'Formatted Text' entry has a non-empty url, and [existing] those of
    them whose derived path exists; so an issue with no downloadable
    section article is never complete. *)
Theorem completeness_counts
    (fuel : nat) (iss : issue) (out : pystr) (s s' : State)
    (is_complete : bool) (existing total : nat) :
  check_issue_completeness fuel iss out s = (Ret (is_complete, existing, total), s') ->
  (is_complete = true <-> 0 < total /\ existing = total) /\
  (total = 0 -> is_complete = false) /\
  (in_fs (snd s) (congress_dir_of out iss) = false ->
     total = 0 /\ existing = 0 /\ s' = s) /\
  (in_fs (snd s) (congress_dir_of out iss) = true ->
     exists arts,
       get_articles_for_issue fuel (volumeNumber iss) (issueNumber iss) s
         = (Ret arts, s') /\
       total = length (filter downloadable (all_section_articles arts)) /\
       existing = count_true (in_fs (snd s')) (derived_paths out iss arts)).
Proof.
  unfold check_issue_completeness. intros H.
  apply bind_Ret_inv in H as (dir & s0 & Hdir & H).
  unfold path_exists, get_world, bind, ret in Hdir.
  injection Hdir as <- <-. fold (in_fs (snd s) (congress_dir_of out iss)) in H.
  destruct (in_fs (snd s) (congress_dir_of out iss)) eqn:Edir; cbn [negb] in H.
  - apply bind_Ret_inv in H as (arts & s1 & Harts & H).
    unfold get_world at 1 in H. unfold bind at 1 in H.
    rewrite count_articles_spec in H. cbn [fst snd Nat.add] in H.
    injection H as <- <- <- <-.
    set (t := length (filter downloadable (all_section_articles arts))).
    set (e := count_true (in_fs (snd s1)) (derived_paths out iss arts)).
    assert (Hiff : (0 <? t) && (e =? t) = true <-> 0 < t /\ e = t).
    { rewrite andb_true_iff, Nat.ltb_lt, Nat.eqb_eq. reflexivity. }
    split; [exact Hiff|]. split; [|split].
    + intros ->. reflexivity.
    + discriminate.
    + intros _. exists arts. repeat split. exact Harts.
  - injection H as <- <- <- <-.
    split; [|split; [|split]].
    + split; [discriminate | intros [H _]; inversion H].
    + reflexivity.
    + intros _. repeat split.
    + discriminate.
Qed.

Lemma completeness_counts_witness :
  exists s',
    check_issue_completeness 3 issue_170_45 records prayer_on_disk
      = (Ret (true, 1, 1), s') /\
    (true = true <-> 0 < 1 /\ 1 = 1).
Proof.
  exists (snd (check_issue_completeness 3 issue_170_45 records prayer_on_disk)).
  assert (E : check_issue_completeness 3 issue_170_45 records prayer_on_disk
              = (Ret (true, 1, 1),
                 snd (check_issue_completeness 3 issue_170_45 records prayer_on_disk)))
    by (vm_compute; reflexivity).
  split; [exact E|].
  exact (proj1 (completeness_counts 3 issue_170_45 records prayer_on_disk _
                  true 1 1 E)).
Defined.

(** ** IncrementalDownloadController *)

Ltac blind := intros; repeat match goal with x : Updater |- _ => destruct x
                                     | x : World |- _ => destruct x end;
              reflexivity.

Lemma check_keeps_controller fuel iss out :
  keeps the_controller (check_issue_completeness fuel iss out).
Proof. apply keeps_check_issue_completeness; blind. Qed.

Lemma download_missing_keeps_controller fuel iss out :
  keeps the_controller (download_missing fuel iss out).
Proof. apply keeps_download_missing; blind. Qed.

Lemma download_missing_continues fuel iss out s r s' :
  download_missing fuel iss out s = (Ret r, s') -> snd r = false.
Proof.
  unfold download_missing. intros H.
  apply bind_Ret_inv in H as (? & ? & _ & H).
  apply bind_Ret_inv in H as (? & ? & _ & H).
  apply bind_Ret_inv in H as (? & ? & _ & H).
  unfold ret in H. injection H as <- _. reflexivity.
Qed.

Lemma process_issue_complete fuel iss out s existing total sc :
  check_issue_completeness fuel iss out s = (Ret (true, existing, total), sc) ->
  process_issue fuel iss out s =
  let counted :=
    (set_consecutive (S (consecutive_existing_issues (fst sc))) (fst sc), snd sc) in
  if stop_threshold (fst sc) <=? S (consecutive_existing_issues (fst sc))
  then (Ret (0, true), counted)
  else download_missing fuel iss out counted.
Proof.
  intros H. unfold process_issue. run H.
  unfold modify_self, get_self, bind. destruct sc as [[] w]. cbn.
  destruct (_ <=? _); reflexivity.
Qed.

Lemma process_issue_incomplete fuel iss out s existing total sc :
  check_issue_completeness fuel iss out s = (Ret (false, existing, total), sc) ->
  process_issue fuel iss out s =
  download_missing fuel iss out (set_consecutive 0 (fst sc), snd sc).
Proof. intros H. unfold process_issue. run H. reflexivity. Qed.

(** A complete issue met with [c] complete ones before it, short of the
    threshold: processing goes on and leaves the counter at [c + 1]. *)
Lemma process_issue_counts fuel iss out s r s' c :
  evaluates_complete fuel iss out s ->
  consecutive_existing_issues (fst s) = c ->
  S c < stop_threshold (fst s) ->
  process_issue fuel iss out s = (Ret r, s') ->
  snd r = false /\
  consecutive_existing_issues (fst s') = S c /\
  stop_threshold (fst s') = stop_threshold (fst s).
Proof.
  intros (e & t & sc & Hcheck) Hc Hlt Hrun.
  pose proof (keeps_run _ _ _ _ _ _ _ (check_keeps_controller fuel iss out) Hcheck) as Hk.
  unfold the_controller in Hk. injection Hk as Hk1 Hk2.
  rewrite (process_issue_complete _ _ _ _ _ _ _ Hcheck) in Hrun. cbv zeta in Hrun.
  rewrite Hk1, Hk2, Hc in Hrun.
  replace (stop_threshold (fst s) <=? S c) with false in Hrun
    by (symmetry; apply Nat.leb_gt; exact Hlt).
  split; [eapply download_missing_continues, Hrun|].
  pose proof (keeps_run _ _ _ _ _ _ _ (download_missing_keeps_controller fuel iss out) Hrun)
    as Hk. unfold the_controller in Hk. injection Hk as Hk3 Hk4.
  rewrite Hk3, Hk4. destruct sc as [[] w]. cbn in *. now subst.
Qed.

(** A complete issue that brings the counter to the threshold: processing
    stops right after the check. *)
Lemma process_issue_stops fuel iss out s c :
  evaluates_complete fuel iss out s ->
  consecutive_existing_issues (fst s) = c ->
  stop_threshold (fst s) <= S c ->
  exists existing total sc,
    check_issue_completeness fuel iss out s = (Ret (true, existing, total), sc) /\
    process_issue fuel iss out s =
      (Ret (0, true), (set_consecutive (S c) (fst sc), snd sc)).
Proof.
  intros (e & t & sc & Hcheck) Hc Hle.
  exists e, t, sc. split; [exact Hcheck|].
  pose proof (keeps_run _ _ _ _ _ _ _ (check_keeps_controller fuel iss out) Hcheck) as Hk.
  unfold the_controller in Hk. injection Hk as Hk1 Hk2.
  rewrite (process_issue_complete _ _ _ _ _ _ _ Hcheck). cbv zeta.
  rewrite Hk1, Hk2, Hc.
  replace (stop_threshold (fst s) <=? S c) with true
    by (symmetry; apply Nat.leb_le; exact Hle).
  reflexivity.
Qed.

(** C1: from a counter at zero and the threshold of three, three issues
    in a row that evaluate complete make [process_issue] return
    [should_stop = True] on the third; the loop ends there, in the state
    right after the third check, whatever issues follow, so a fourth one
    is never evaluated; and an issue that evaluates incomplete leaves the
    counter at zero, however its processing ends. *)
Theorem stop_after_three_complete
    (fuel : nat) (out : pystr) (i1 i2 i3 : issue) (rest : list issue)
    (s0 s1 s2 : State) (r1 r2 : nat * bool) :
  consecutive_existing_issues (fst s0) = 0 ->
  stop_threshold (fst s0) = 3 ->
  evaluates_complete fuel i1 out s0 ->
  process_issue fuel i1 out s0 = (Ret r1, s1) ->
  evaluates_complete fuel i2 out s1 ->
  process_issue fuel i2 out s1 = (Ret r2, s2) ->
  evaluates_complete fuel i3 out s2 ->
  (exists existing total sc,
     check_issue_completeness fuel i3 out s2 = (Ret (true, existing, total), sc) /\
     let s3 := (set_consecutive 3 (fst sc), snd sc) in
     process_issue fuel i3 out s2 = (Ret (0, true), s3) /\
     forall totals,
       run_issues fuel out (i1 :: i2 :: i3 :: rest) totals s0 =
       (Ret (fst totals + fst r1 + fst r2 + 0, 3 + snd totals), s3)) /\
  (forall iss s existing total sc o s',
     check_issue_completeness fuel iss out s = (Ret (false, existing, total), sc) ->
     process_issue fuel iss out s = (o, s') ->
     consecutive_existing_issues (fst s') = 0).
Proof.
  intros Hc0 Ht0 Hev1 Hp1 Hev2 Hp2 Hev3. split.
  - destruct (process_issue_counts _ _ _ _ _ _ 0 Hev1 Hc0 ltac:(lia) Hp1)
      as (Hr1 & Hc1 & Ht1).
    rewrite Ht0 in Ht1.
    destruct (process_issue_counts _ _ _ _ _ _ 1 Hev2 Hc1 ltac:(lia) Hp2)
      as (Hr2 & Hc2 & Ht2).
    rewrite Ht1 in Ht2.
    destruct (process_issue_stops _ _ _ _ 2 Hev3 Hc2 ltac:(lia))
      as (e & t & sc & Hcheck & Hp3).
    exists e, t, sc. split; [exact Hcheck|]. cbv zeta. split; [exact Hp3|].
    intros totals. cbn [run_issues].
    rewrite Hp1. destruct r1 as [n1 b1]. cbn in Hr1. subst b1.
    rewrite Hp2. destruct r2 as [n2 b2]. cbn in Hr2. subst b2.
    rewrite Hp3. cbn. repeat f_equal; lia.
  - intros iss s e t sc o s' Hcheck Hrun.
    rewrite (process_issue_incomplete _ _ _ _ _ _ _ Hcheck) in Hrun.
    pose proof (keeps_run _ _ _ _ _ _ _ (download_missing_keeps_controller fuel iss out) Hrun)
      as Hk. unfold the_controller in Hk. injection Hk as Hk _.
    rewrite Hk. destruct sc as [[] w]. reflexivity.
Qed.

Lemma stop_after_three_complete_witness :
  consecutive_existing_issues (fst three_on_disk) = 0 /\
  stop_threshold (fst three_on_disk) = 3 /\
  exists s3,
    run_issues 3 records [issue_170_45; issue_170_44; issue_170_43; issue_170_42]
               (0, 0) three_on_disk = (Ret (0, 3), s3).
Proof.
  split; [reflexivity|]. split; [reflexivity|].
  pose (s1 := snd (process_issue 3 issue_170_45 records three_on_disk)).
  pose (s2 := snd (process_issue 3 issue_170_44 records s1)).
  assert (P1 : process_issue 3 issue_170_45 records three_on_disk = (Ret (0, false), s1))
    by (vm_compute; reflexivity).
  assert (P2 : process_issue 3 issue_170_44 records s1 = (Ret (0, false), s2))
    by (vm_compute; reflexivity).
  assert (E1 : evaluates_complete 3 issue_170_45 records three_on_disk).
  { exists 1, 1, (snd (check_issue_completeness 3 issue_170_45 records three_on_disk)).
    vm_compute. reflexivity. }
  assert (E2 : evaluates_complete 3 issue_170_44 records s1).
  { exists 1, 1, (snd (check_issue_completeness 3 issue_170_44 records s1)).
    vm_compute. reflexivity. }
  assert (E3 : evaluates_complete 3 issue_170_43 records s2).
  { exists 1, 1, (snd (check_issue_completeness 3 issue_170_43 records s2)).
    vm_compute. reflexivity. }
  destruct (proj1 (stop_after_three_complete 3 records
                     issue_170_45 issue_170_44 issue_170_43 [issue_170_42]
                     three_on_disk s1 s2 (0, false) (0, false)
                     eq_refl eq_refl E1 P1 E2 P2 E3))
    as (e & t & sc & _ & _ & Hrun).
  exists (set_consecutive 3 (fst sc), snd sc).
  exact (Hrun (0, 0)).
Defined.





(** ** Paths *)

Lemma lit_cons (a : ascii) (x : string) : lit (String a x) = N_of_ascii a :: lit x.
Proof. reflexivity. Qed.


Lemma digits_of_uint (d : Decimal.uint) :
  forallb sign_or_digit (lit (NilEmpty.string_of_uint d)) = true.
Proof.
  induction d; cbn [NilEmpty.string_of_uint]; [reflexivity|..];
    rewrite lit_cons; cbn [forallb]; rewrite IHd; reflexivity.
Qed.

Lemma of_Z_sign_or_digit (z : Z) : forallb sign_or_digit (of_Z z) = true.
Proof.
  unfold of_Z, NilZero.string_of_int, NilZero.string_of_uint.
  destruct (Z.to_int z) as [d|d]; destruct d; try reflexivity;
    try (rewrite lit_cons; cbn [forallb]); apply digits_of_uint.
Qed.


Lemma forallb_weaken (f g : char -> bool) (l : pystr) :
  (forall c, f c = true -> g c = true) -> forallb f l = true -> forallb g l = true.
Proof.
  intros H. induction l as [|c l IH]; cbn [forallb]; [reflexivity|].
  intros E. apply andb_true_iff in E as [E1 E2]. now rewrite (H c E1), IH.
Qed.

Lemma sign_or_digit_plain (c : char) :
  sign_or_digit c = true -> c <> slash /\ c <> underscore.
Proof.
  unfold sign_or_digit, slash, underscore. intros H.
  apply orb_true_iff in H as [H | H].
  - apply N.eqb_eq in H. subst c. split; discriminate.
  - apply andb_true_iff in H as [H1 H2]. apply N.leb_le in H1, H2. split; lia.
Qed.

Lemma of_Z_no_slash (z : Z) : no_slash (of_Z z) = true.
Proof.
  apply (forallb_weaken sign_or_digit); [|apply of_Z_sign_or_digit].
  intros c Hc. apply negb_true_iff, N.eqb_neq. now apply sign_or_digit_plain.
Qed.

Lemma safe_filename_no_slash (text : pystr) : no_slash (safe_filename text) = true.
Proof.
  assert (Hsafe : Forall (fun c => mem c safe_chars = true) (safe_filename text)).
  { unfold safe_filename, safe_filename_with.
    set (m := map _ text).
    assert (Hm : Forall (fun c => mem c safe_chars = true) m).
    { subst m. apply Forall_forall. intros c Hc.
      apply in_map_iff in Hc as (x & <- & _).
      destruct (mem x safe_chars) eqn:E; [exact E | vm_compute; reflexivity]. }
    apply strip_Forall.
    destruct (100 <? length m); [|exact Hm].
    apply Forall_forall. intros c Hc. rewrite Forall_forall in Hm.
    apply Hm. rewrite <- (firstn_skipn 100 m). apply in_or_app. now left. }
  apply forallb_forall. intros c Hc. rewrite Forall_forall in Hsafe.
  specialize (Hsafe c Hc). apply negb_true_iff, N.eqb_neq. intros ->.
  vm_compute in Hsafe. discriminate.
Qed.

Lemma no_slash_app (l1 l2 : pystr) :
  no_slash (l1 ++ l2) = no_slash l1 && no_slash l2.
Proof. apply forallb_app. Qed.

Lemma artifact_stem_no_slash (iss : issue) (t : pystr) :
  no_slash (date_of iss) = true -> no_slash (artifact_stem iss t) = true.
Proof.
  intros Hd. unfold artifact_stem.
  rewrite !no_slash_app, Hd, !of_Z_no_slash, safe_filename_no_slash. reflexivity.
Qed.

Lemma artifact_path_stem out iss (t : pystr) :
  artifact_path out iss t =
  congress_dir_of out iss ++ lit "/" ++ artifact_stem iss t ++ lit ".html".
Proof.
  unfold artifact_path, artifact_stem. repeat rewrite <- app_assoc. reflexivity.
Qed.

Lemma rev_name_app (l1 l2 : pystr) :
  no_slash l1 = true -> rev_name (l1 ++ l2) = l1 ++ rev_name l2.
Proof.
  induction l1 as [|c l1 IH]; cbn [no_slash forallb app rev_name]; [reflexivity|].
  intros H. apply andb_true_iff in H as [Hc H]. apply negb_true_iff in Hc.
  rewrite Hc. f_equal. now apply IH.
Qed.

Lemma drop_to_slash_app (l1 l2 : pystr) :
  no_slash l1 = true -> drop_to_slash (l1 ++ slash :: l2) = l2.
Proof.
  induction l1 as [|c l1 IH]; cbn [no_slash forallb app drop_to_slash].
  - reflexivity.
  - intros H. apply andb_true_iff in H as [Hc H]. apply negb_true_iff in Hc.
    rewrite Hc. now apply IH.
Qed.

Lemma no_slash_rev (l : pystr) : no_slash (rev l) = no_slash l.
Proof.
  induction l as [|c l IH]; [reflexivity|].
  cbn [rev]. rewrite no_slash_app, IH. cbn [no_slash forallb].
  rewrite andb_true_r. apply andb_comm.
Qed.

(** The parent of a path is what stands before its last '/'. *)
Lemma parent_join (dir name : pystr) :
  no_slash name = true -> parent (dir ++ lit "/" ++ name) = dir.
Proof.
  intros H. unfold parent. rewrite !rev_app_distr, <- app_assoc.
  change (rev (lit "/") ++ rev dir) with (slash :: rev dir).
  rewrite drop_to_slash_app by now rewrite no_slash_rev.
  apply rev_involutive.
Qed.

(** [with_suffix('.json')] on a path that ends in '.html' after a
    character of the final component. *)
Lemma with_suffix_json_html (base : pystr) (c : char) :
  c <> slash ->
  with_suffix_json (base ++ c :: lit ".html") = base ++ c :: lit ".json".
Proof.
  intros Hc. unfold with_suffix_json.
  assert (Hrev : rev (base ++ c :: lit ".html")
                 = rev (lit ".html") ++ c :: rev base).
  { rewrite rev_app_distr. cbn [rev]. now rewrite <- app_assoc. }
  rewrite Hrev, rev_name_app by reflexivity.
  cbn [rev_name]. replace (char_eqb c slash) with false
    by (symmetry; apply N.eqb_neq; exact Hc).
  change (suffix_length (rev (lit ".html") ++ c :: rev_name (rev base))) with 5.
  rewrite length_app.
  change (length (c :: lit ".html")) with 6.
  replace (length base + 6 - 5) with (length (base ++ [c]) + 0)
    by (rewrite length_app; cbn [length]; lia).
  change (base ++ c :: lit ".html") with (base ++ [c] ++ lit ".html").
  rewrite app_assoc, firstn_app_2. cbn [firstn].
  now rewrite app_nil_r, <- app_assoc.
Qed.

Lemma safe_filename_last_plain (text : pystr) (init : pystr) (c : char) :
  safe_filename text = init ++ [c] -> c <> slash.
Proof.
  intros E. pose proof (safe_filename_no_slash text) as H.
  rewrite E, no_slash_app in H. apply andb_true_iff in H as [_ H].
  cbn [no_slash forallb] in H. rewrite andb_true_r in H.
  now apply negb_true_iff, N.eqb_neq in H.
Qed.

Lemma last_or_nil (l : pystr) : l = [] \/ exists init c, l = init ++ [c].
Proof.
  destruct l as [|x l]; [now left | right].
  destruct (exists_last (l := x :: l) ltac:(discriminate)) as (init & c & E).
  now exists init, c.
Qed.

(** An artifact path ends in '.html' after a character of its name. *)
Lemma artifact_path_ends out iss (t : pystr) :
  exists base c,
    c <> slash /\
    congress_dir_of out iss ++ lit "/" ++ artifact_stem iss t = base ++ [c].
Proof.
  unfold artifact_stem.
  destruct (last_or_nil (safe_filename t)) as [E | (init & c & E)].
  - rewrite E, app_nil_r. eexists. exists underscore. split; [discriminate|].
    repeat rewrite app_assoc. reflexivity.
  - rewrite E. eexists. exists c. split; [exact (safe_filename_last_plain t init c E)|].
    repeat rewrite app_assoc. reflexivity.
Qed.

(** The sidecar of an artifact: its path with '.json' for '.html'. *)
Lemma sidecar_path out iss (t : pystr) :
  with_suffix_json (artifact_path out iss t) =
  congress_dir_of out iss ++ lit "/" ++ artifact_stem iss t ++ lit ".json".
Proof.
  rewrite artifact_path_stem.
  destruct (artifact_path_ends out iss t) as (base & c & Hc & E).
  rewrite !app_assoc. rewrite <- (app_assoc (congress_dir_of out iss)).
  rewrite E, <- !app_assoc. cbn [app]. now apply with_suffix_json_html.
Qed.

Lemma sidecar_not_artifact out iss out' iss' (t1 t2 : pystr) :
  with_suffix_json (artifact_path out iss t1) <> artifact_path out' iss' t2.
Proof.
  rewrite sidecar_path, artifact_path_stem.
  intros E. apply (f_equal (@rev char)) in E.
  repeat rewrite rev_app_distr in E. cbn in E. discriminate E.
Qed.

Lemma parent_of_artifact out iss (t : pystr) :
  no_slash (date_of iss) = true ->
  parent (artifact_path out iss t) = congress_dir_of out iss /\
  parent (with_suffix_json (artifact_path out iss t)) = congress_dir_of out iss.
Proof.
  intros Hd. rewrite sidecar_path, artifact_path_stem.
  split; apply parent_join; rewrite no_slash_app, (artifact_stem_no_slash iss t Hd);
    reflexivity.
Qed.

(** ** Derived paths *)







(** ** CatalogSynchronizer *)

Lemma id_in_In (a : Z * Z) (ids : list (Z * Z)) : id_in a ids = true <-> In a ids.
Proof.
  unfold id_in. rewrite existsb_exists. split.
  - intros ([x y] & Hin & E). unfold id_eqb in E. simpl in E.
    apply andb_true_iff in E as [E1 E2].
    apply Z.eqb_eq in E1, E2. destruct a. simpl in *. now subst.
  - intros H. exists a. split; [exact H|].
    unfold id_eqb. now rewrite !Z.eqb_refl.
Qed.

Lemma merge_new_filter (ids : list (Z * Z)) (recent : list issue) :
  forall existing,
  merge_new ids existing recent =
  existing ++ filter (fun i => negb (id_in (issue_id i) ids)) recent.
Proof.
  induction recent as [|i recent IH]; intros existing; simpl.
  - now rewrite app_nil_r.
  - destruct (negb (id_in (issue_id i) ids)); rewrite IH; [|reflexivity].
    now rewrite <- app_assoc.
Qed.

(** The merge does keep keys unique when the fetched batch has no key
    twice: what it skips are the keys of the catalog as it was loaded. *)
Lemma merge_new_unique_when_batch_unique (existing recent : list issue) :
  NoDup (map issue_id existing) ->
  NoDup (map issue_id recent) ->
  NoDup (map issue_id (merge_new (map issue_id existing) existing recent)).
Proof.
  intros He Hr. rewrite merge_new_filter, map_app.
  set (ids := map issue_id existing) in *.
  apply NoDup_app; [exact He| |].
  - clear He. induction recent as [|i recent IH]; simpl; [constructor|].
    inversion Hr as [|? ? Hnot Hrest]; subst.
    destruct (negb (id_in (issue_id i) ids)); [|now apply IH].
    simpl. constructor; [|now apply IH].
    intros Hin. apply Hnot. apply in_map_iff in Hin as (j & Ej & Hj).
    apply filter_In in Hj as [Hj _]. apply in_map_iff. now exists j.
  - intros a Hin Hin2. apply in_map_iff in Hin2 as (j & <- & Hj).
    apply filter_In in Hj as [_ Hj]. apply id_in_In in Hin.
    rewrite Hin in Hj. discriminate.
Qed.

Lemma fetched_between_same (oracle : nat -> Q * response) (a : nat) :
  fetched_between oracle a a = [].
Proof. unfold fetched_between. now rewrite Nat.sub_diag. Qed.

Lemma fetched_between_split (oracle : nat -> Q * response) (a b c : nat) :
  a <= b -> b <= c ->
  fetched_between oracle a c = fetched_between oracle a b ++ fetched_between oracle b c.
Proof.
  intros Hab Hbc. unfold fetched_between.
  replace (c - a) with ((b - a) + (c - b)) by lia.
  rewrite seq_app, flat_map_app. repeat f_equal. lia.
Qed.

Lemma fetched_between_one (oracle : nat -> Q * response) (a : nat) :
  fetched_between oracle a (S a) = descriptors_of (snd (oracle a)).
Proof.
  unfold fetched_between. replace (S a - a) with 1 by lia.
  simpl. now rewrite app_nil_r.
Qed.

Lemma session_get_inv url params s r s' :
  session_get url params s = (Ret r, s') ->
  r = snd (net (snd s) (net_pos (snd s))) /\
  net (snd s') = net (snd s) /\
  net_pos (snd s') = S (net_pos (snd s)).
Proof.
  unfold session_get. intros H.
  apply bind_Ret_inv in H as ([] & s1 & Ht & H).
  assert (Hn : the_net s1 = the_net s).
  { apply (keeps_run _ _ _ _ _ _ _ (keeps_tick _ the_net ltac:(blind)) Ht). }
  unfold the_net in Hn. injection Hn as Hn1 Hn2.
  unfold get_world, modify_world, bind, ret in H. injection H as <- <-.
  cbn [fst snd answered net net_pos]. rewrite Hn1, Hn2. repeat split.
Qed.

Lemma keeps_net_handle_429_error attempt : keeps the_net (handle_429_error attempt).
Proof. apply keeps_handle_429_error; blind. Qed.

Lemma keeps_net_sleep e : keeps the_net (sleep e).
Proof. apply keeps_sleep; blind. Qed.

Lemma keeps_net_throttle : keeps the_net throttle.
Proof. apply keeps_throttle; blind. Qed.

Lemma keeps_net_count_request every : keeps the_net (count_request every).
Proof. apply keeps_count_request; blind. Qed.

Lemma keeps_net_stamp_request : keeps the_net stamp_request.
Proof. apply keeps_stamp_request; blind. Qed.

Ltac net_of H :=
  let Hn := fresh "Hn" in
  let Hp := fresh "Hp" in
  match type of H with
  | ?m ?s = (_, ?s') =>
      assert (Hn : the_net s' = the_net s)
        by (eapply (keeps_run _ _ the_net m s s');
            [first [ apply keeps_net_handle_429_error | apply keeps_net_sleep
                   | apply keeps_net_throttle | apply keeps_net_count_request
                   | apply keeps_net_stamp_request ]
            | exact H]);
      unfold the_net in Hn; injection Hn as Hn Hp
  end.

(** What a listing request returns is what the last answer carried; the
    answers before it carried nothing. *)
Lemma make_request_loop_fetched (fuel : nat) :
  forall url params bound attempt s r s',
  make_request_loop fuel url params bound attempt s = (Ret r, s') ->
  net (snd s') = net (snd s) /\
  net_pos (snd s) <= net_pos (snd s') /\
  fetched_between (net (snd s)) (net_pos (snd s)) (net_pos (snd s')) =
    match r with
    | Some json =>
        match dailyCongressionalRecord json with
        | Some l => l
        | None => []
        end
    | None => []
    end.
Proof.
  induction fuel as [|fuel IH]; intros url params bound attempt s r s' H.
  - discriminate.
  - cbn [make_request_loop] in H.
    destruct (within attempt bound).
    2: { unfold ret in H. injection H as <- <-.
         rewrite fetched_between_same. repeat split. lia. }
    apply bind_Ret_inv in H as ([] & s1 & H1 & H). net_of H1.
    apply bind_Ret_inv in H as ([] & s2 & H2 & H). net_of H2.
    apply bind_Ret_inv in H as (u & s3 & H3 & H).
    unfold get_self in H3. injection H3 as <- <-.
    apply bind_Ret_inv in H as ([] & s4 & H4 & H). net_of H4.
    apply bind_Ret_inv in H as (resp & s5 & H5 & H).
    apply session_get_inv in H5 as (Hresp & Hn5 & Hp5).
    assert (Hn05 : net (snd s5) = net (snd s)) by congruence.
    assert (Hp05 : net_pos (snd s5) = S (net_pos (snd s))) by congruence.
    assert (Hresp0 : resp = snd (net (snd s) (net_pos (snd s)))) by congruence.
    clear Hn Hp Hn0 Hp0 Hn1 Hp1 Hn5 Hp5 Hresp H1 H2 H4.
    assert (Hcont : forall s6 p6 r6 s7,
              net (snd s6) = net (snd s5) -> net_pos (snd s6) = net_pos (snd s5) ->
              descriptors_of resp = [] ->
              make_request_loop fuel url p6 bound (S attempt) s6 = (Ret r6, s7) ->
              net (snd s7) = net (snd s) /\
              net_pos (snd s) <= net_pos (snd s7) /\
              fetched_between (net (snd s)) (net_pos (snd s)) (net_pos (snd s7)) =
                match r6 with
                | Some json =>
                    match dailyCongressionalRecord json with
                    | Some l => l
                    | None => []
                    end
                | None => []
                end).
    { intros s6 p6 r6 s7 Hn6 Hp6 Hd Hloop.
      apply IH in Hloop as (Hn7 & Hle & Hf).
      split; [congruence|]. split; [lia|].
      rewrite (fetched_between_split _ (net_pos (snd s)) (S (net_pos (snd s))))
        by lia.
      rewrite fetched_between_one, <- Hresp0, Hd. simpl.
      rewrite <- Hf. congruence. }
    assert (Hnone : descriptors_of resp = [] ->
              net (snd s5) = net (snd s) /\
              net_pos (snd s) <= net_pos (snd s5) /\
              fetched_between (net (snd s)) (net_pos (snd s)) (net_pos (snd s5)) = []).
    { intros Hd. split; [exact Hn05|]. split; [lia|].
      rewrite Hp05, fetched_between_one, <- Hresp0. exact Hd. }
    destruct resp as [| body json | | msg].
    + apply bind_Ret_inv in H as ([] & s6 & H6 & H). net_of H6.
      eapply Hcont; eauto.
    + unfold ret in H. injection H as <- <-.
      split; [exact Hn05|]. split; [lia|].
      rewrite Hp05, fetched_between_one, <- Hresp0. reflexivity.
    + destruct (attempt <? 3).
      * apply bind_Ret_inv in H as ([] & s6 & H6 & H). net_of H6.
        eapply Hcont; eauto.
      * unfold ret in H. injection H as <- <-. now apply Hnone.
    + destruct (contains (lit "429") msg).
      * apply bind_Ret_inv in H as ([] & s6 & H6 & H). net_of H6.
        eapply Hcont; eauto.
      * unfold ret in H. injection H as <- <-. now apply Hnone.
Qed.

Lemma scan_page_prefix parse start issues :
  forall acc res stopped,
  scan_page parse start issues acc = Some (res, stopped) ->
  exists kept rest,
    res = acc ++ kept /\
    issues = kept ++ rest /\
    Forall (dated (parse_issue_date parse) (fun d => start <= d)%Z) kept /\
    (if stopped
     then exists x tl, rest = x :: tl /\
                       dated (parse_issue_date parse) (fun d => d < start)%Z x
     else rest = []).
Proof.
  induction issues as [|i issues IH]; intros acc res stopped H; simpl in H.
  - injection H as <- <-. exists [], []. rewrite app_nil_r. repeat split. constructor.
  - destruct (parse_issue_date parse i) as [d|] eqn:Ed; [|discriminate].
    destruct (d <? start)%Z eqn:Elt.
    + injection H as <- <-. exists [], (i :: issues). rewrite app_nil_r.
      repeat split; [constructor|].
      exists i, issues. split; [reflexivity|].
      exists d. split; [exact Ed|]. now apply Z.ltb_lt.
    + apply IH in H as (kept & rest & -> & -> & Hk & Hs).
      exists (i :: kept), rest. rewrite <- app_assoc. repeat split; [|exact Hs].
      constructor; [|exact Hk].
      exists d. split; [exact Ed|]. now apply Z.ltb_ge.
Qed.

(** What a pass returns is the fetched stream up to its first descriptor
    older than the start date. *)
Lemma fetch_loop_prefix parse (fuel : nat) :
  forall start offset acc s res s',
  fetch_loop parse fuel start offset acc s = (Ret res, s') ->
  net (snd s') = net (snd s) /\
  net_pos (snd s) <= net_pos (snd s') /\
  exists kept rest,
    res = acc ++ kept /\
    fetched_between (net (snd s)) (net_pos (snd s)) (net_pos (snd s')) = kept ++ rest /\
    Forall (dated (parse_issue_date parse) (fun d => start <= d)%Z) kept /\
    (rest = [] \/
     exists x tl, rest = x :: tl /\
                  dated (parse_issue_date parse) (fun d => d < start)%Z x).
Proof.
  induction fuel as [|fuel IH]; intros start offset acc s res s' H.
  - discriminate.
  - cbn [fetch_loop] in H.
    apply bind_Ret_inv in H as (data & s1 & Hreq & H).
    apply make_request_loop_fetched in Hreq as (Hn1 & Hle1 & Hf1).
    assert (Hempty :
      fetched_between (net (snd s)) (net_pos (snd s)) (net_pos (snd s1)) = [] ->
      (Ret acc, s1) = (Ret res, s') ->
      net (snd s') = net (snd s) /\
      net_pos (snd s) <= net_pos (snd s') /\
      exists kept rest,
        res = acc ++ kept /\
        fetched_between (net (snd s)) (net_pos (snd s)) (net_pos (snd s')) = kept ++ rest /\
        Forall (dated (parse_issue_date parse) (fun d => start <= d)%Z) kept /\
        (rest = [] \/
         exists x tl, rest = x :: tl /\
                      dated (parse_issue_date parse) (fun d => d < start)%Z x)).
    { intros Hf0 E. injection E as <- <-.
      split; [exact Hn1|]. split; [exact Hle1|].
      exists [], []. rewrite app_nil_r. repeat split; [exact Hf0 | constructor | now left]. }
    destruct data as [p|]; [|now apply Hempty].
    destruct (dailyCongressionalRecord p) as [[|i issues]|] eqn:Ep;
      [now apply Hempty| |now apply Hempty].
    destruct (scan_page parse start (i :: issues) acc) as [[res1 stopped]|] eqn:Escan;
      [|discriminate].
    apply scan_page_prefix in Escan as (kept & rest & -> & Hsplit & Hk & Hs).
    destruct stopped.
    + unfold ret in H. injection H as <- <-.
      split; [exact Hn1|]. split; [exact Hle1|].
      exists kept, rest. repeat split; [congruence | exact Hk | now right].
    + subst rest. rewrite app_nil_r in Hsplit. subst kept.
      destruct (truthy (pagination_next p)).
      * apply IH in H as (Hn2 & Hle2 & kept2 & rest2 & -> & Hf2 & Hk2 & Hs2).
        split; [congruence|]. split; [lia|].
        exists ((i :: issues) ++ kept2), rest2.
        rewrite <- !app_assoc. repeat split; [| |exact Hs2].
        -- rewrite (fetched_between_split _ _ (net_pos (snd s1))) by lia.
           rewrite Hf1, <- Hn1, Hf2. reflexivity.
        -- apply Forall_app. now split.
      * unfold ret in H. injection H as <- <-.
        split; [exact Hn1|]. split; [exact Hle1|].
        exists (i :: issues), []. rewrite app_nil_r.
        repeat split; [exact Hf1 | exact Hk | now left].
Qed.

Lemma descending_older parse (start : Z) kept x tl :
  descending parse (kept ++ x :: tl) ->
  dated parse (fun d => d < start)%Z x ->
  Forall (dated parse (fun d => d < start)%Z) (x :: tl).
Proof.
  intros Hdesc (d & Ed & Hd). constructor; [now exists d|].
  apply Forall_forall. intros y Hy.
  apply in_split in Hy as (l2 & l3 & ->).
  destruct (Hdesc kept x l2 y l3 eq_refl) as (dx & dy & Ex & Ey & Hle).
  exists dy. split; [exact Ey|]. rewrite Ed in Ex. injection Ex as <-. lia.
Qed.

(** C2: in a pass over a catalog whose newest entry has date [D], the
    pass keeps the fetched descriptors up to the first one strictly
    older than [D], all of them of date [D] or later, and discards that
    one and whatever came after it; on a stream ordered newest first, as
    requested, the kept ones are thus all those of date [D] or later and
    the discarded ones all those strictly older.  The kept descriptors are
    what is merged into the catalog. *)
Theorem cutoff_keeps_recent_prefix
    (fromisoformat : pystr -> option Z) (fuel : nat) (s s' : State)
    (newest : issue) (others merged : list issue) (D : Z) :
  load_existing (snd s) = newest :: others ->
  parse_issue_date fromisoformat newest = Some D ->
  update_issues_file fromisoformat fuel s = (Ret merged, s') ->
  let parse := parse_issue_date fromisoformat in
  let fetched := fetched_between (net (snd s)) (net_pos (snd s)) (net_pos (snd s')) in
  exists kept discarded,
    fetched = kept ++ discarded /\
    Forall (dated parse (fun d => D <= d)%Z) kept /\
    (discarded = [] \/
     exists x tl, discarded = x :: tl /\ dated parse (fun d => d < D)%Z x) /\
    (descending parse fetched ->
     Forall (dated parse (fun d => d < D)%Z) discarded) /\
    merged =
      match kept with
      | [] => newest :: others
      | _ :: _ =>
          sort_by_date_desc
            (merge_new (map issue_id (newest :: others)) (newest :: others) kept)
      end.
Proof.
  intros Hload HD H parse fetched. unfold update_issues_file in H.
  unfold get_world at 1 in H. unfold bind at 1 in H.
  rewrite Hload in H. fold parse in HD. unfold parse_issue_date in H.
  unfold parse, parse_issue_date in HD. rewrite HD in H.
  unfold ret at 1 in H. unfold bind at 1 in H.
  apply bind_Ret_inv in H as (recent & s1 & Hfetch & H).
  unfold fetch_recent_issues in Hfetch.
  apply fetch_loop_prefix in Hfetch as (Hn1 & Hle1 & kept & rest & Hres & Hf & Hk & Hs).
  simpl in Hres. subst recent.
  assert (Hpos : net_pos (snd s') = net_pos (snd s1)).
  { destruct kept as [|k kept].
    - unfold ret in H. now injection H as _ <-.
    - apply bind_Ret_inv in H as ([] & s2 & Hsave & H).
      unfold ret in H. injection H as _ <-.
      assert (Hn : the_net s2 = the_net s1).
      { eapply (keeps_run _ _ the_net _ s1 s2); [|exact Hsave].
        apply keeps_save_catalog; blind. }
      unfold the_net in Hn. now injection Hn as _ Hn. }
  exists kept, rest. subst fetched. rewrite Hpos.
  split; [exact Hf|]. split; [exact Hk|]. split; [exact Hs|]. split.
  - intros Hdesc. destruct Hs as [-> | (x & tl & -> & Hx)]; [constructor|].
    rewrite Hf in Hdesc. eapply descending_older; eassumption.
  - destruct kept as [|k kept].
    + unfold ret in H. now injection H as <- _.
    + apply bind_Ret_inv in H as ([] & s2 & _ & H).
      unfold ret in H. now injection H as <- _.
Qed.

Lemma cutoff_keeps_recent_prefix_witness :
  load_existing (snd catalog_to_44) = [issue_170_44; issue_170_43] /\
  parse_issue_date iso_instant issue_170_44 = Some 1710129600%Z /\
  exists s' kept discarded,
    update_issues_file iso_instant 5 catalog_to_44
      = (Ret [issue_170_46; issue_170_45; issue_170_44; issue_170_43], s') /\
    fetched_between (net (snd catalog_to_44)) (net_pos (snd catalog_to_44))
                    (net_pos (snd s')) = kept ++ discarded /\
    Forall (dated (parse_issue_date iso_instant) (fun d => 1710129600 <= d)%Z) kept /\
    Forall (dated (parse_issue_date iso_instant) (fun d => d < 1710129600)%Z) discarded.
Proof.
  assert (L : load_existing (snd catalog_to_44) = [issue_170_44; issue_170_43])
    by (vm_compute; reflexivity).
  assert (P : parse_issue_date iso_instant issue_170_44 = Some 1710129600%Z)
    by (vm_compute; reflexivity).
  pose (s' := snd (update_issues_file iso_instant 5 catalog_to_44)).
  assert (E : update_issues_file iso_instant 5 catalog_to_44
              = (Ret [issue_170_46; issue_170_45; issue_170_44; issue_170_43], s'))
    by (vm_compute; reflexivity).
  split; [exact L|]. split; [exact P|].
  destruct (cutoff_keeps_recent_prefix iso_instant 5 catalog_to_44 s'
              issue_170_44 [issue_170_43] _ 1710129600%Z L P E)
    as (kept & discarded & Hf & Hk & _ & Hd & _).
  exists s', kept, discarded.
  split; [exact E|]. split; [exact Hf|]. split; [exact Hk|].
  apply Hd.
  intros l1 x l2 y l3 Hl.
  assert (F : fetched_between (net (snd catalog_to_44)) (net_pos (snd catalog_to_44))
                              (net_pos (snd s'))
              = [issue_170_46; issue_170_45; issue_170_44; issue_170_43; issue_170_42])
    by (vm_compute; reflexivity).
  rewrite F in Hl.
  assert (A : Forall (fun i => exists d, parse_issue_date iso_instant i = Some d)
                [issue_170_46; issue_170_45; issue_170_44; issue_170_43; issue_170_42]).
  { repeat constructor; eexists; vm_compute; reflexivity. }
  destruct l1 as [|a1 [|a2 [|a3 [|a4 [|a5 l1]]]]]; simpl in Hl;
    injection Hl; intros; subst;
    repeat match goal with
    | H : _ :: _ = ?l ++ _ :: _ |- _ =>
        destruct l; simpl in H; injection H; clear H; intros; subst
    | H : [] = ?l ++ _ :: _ |- _ => destruct l; discriminate H
    end;
    do 2 eexists; (split; [vm_compute; reflexivity|]);
    (split; [vm_compute; reflexivity|]); vm_compute; discriminate.
Defined.

(** C3: the merge skips a fetched descriptor only when its key is among
    the keys the catalog had when it was loaded; the set of keys is not
    extended as descriptors are appended.  When a page boundary repeats a
    descriptor, both copies enter the catalog that is saved. *)
Theorem fetched_duplicate_survives_merge :
  exists merged s',
    update_issues_file iso_instant 5 shifted_pages = (Ret merged, s') /\
    merged = [issue_170_46; issue_170_45; issue_170_45; issue_170_44] /\
    catalog_file (snd s') = Some merged /\
    ~ NoDup (map issue_id merged).
Proof.
  exists [issue_170_46; issue_170_45; issue_170_45; issue_170_44],
         (snd (update_issues_file iso_instant 5 shifted_pages)).
  split; [vm_compute; reflexivity|]. split; [reflexivity|].
  split; [vm_compute; reflexivity|].
  intros H. inversion H as [|? ? _ H1]; subst.
  inversion H1 as [|? ? Hnot _]; subst.
  apply Hnot. now left.
Qed.

(** * Further properties of the code *)

(** ** Text and paths *)

Lemma lstrip_fixed (s : pystr) :
  (forall c rest, s = c :: rest -> isspace c = false) -> lstrip s = s.
Proof.
  destruct s as [|c s]; [reflexivity|]. intros H. simpl.
  now rewrite (H c s eq_refl).
Qed.

Lemma strip_fixed (s : pystr) :
  (forall c rest, s = c :: rest -> isspace c = false) ->
  (forall c init, s = init ++ [c] -> isspace c = false) ->
  strip s = s.
Proof.
  intros Hh Hl. unfold strip, rstrip. rewrite (lstrip_fixed s Hh).
  rewrite lstrip_fixed; [apply rev_involutive|].
  intros c rest E. apply (Hl c (rev rest)).
  rewrite <- (rev_involutive s), E. reflexivity.
Qed.

(** X1: [safe_filename] is idempotent: a sanitized title sanitizes to
    itself, so a filename can be fed back without changing. *)
Theorem safe_filename_idempotent (text : pystr) :
  safe_filename (safe_filename text) = safe_filename text.
Proof.
  set (r := safe_filename text).
  assert (Hlen : length r <= 100).
  { subst r. unfold safe_filename, safe_filename_with.
    set (m := map _ text).
    destruct (100 <? length m) eqn:E.
    - pose proof (strip_length (firstn 100 m)) as H.
      rewrite length_firstn in H. lia.
    - apply Nat.ltb_ge in E. pose proof (strip_length m). lia. }
  assert (Hsafe : Forall (fun c => mem c safe_chars = true) r).
  { subst r. unfold safe_filename, safe_filename_with.
    set (m := map _ text).
    assert (Hm : Forall (fun c => mem c safe_chars = true) m).
    { subst m. apply Forall_forall. intros c Hc.
      apply in_map_iff in Hc as (x & <- & _).
      destruct (mem x safe_chars) eqn:E; [exact E | vm_compute; reflexivity]. }
    apply strip_Forall.
    destruct (100 <? length m); [|exact Hm].
    apply Forall_forall. intros c Hc. rewrite Forall_forall in Hm.
    apply Hm. rewrite <- (firstn_skipn 100 m). apply in_or_app. now left. }
  assert (Hmap : map (fun c => if mem c safe_chars then c else underscore) r = r).
  { clear Hlen. induction Hsafe as [|c l Hc _ IH]; cbn [map]; [reflexivity|].
    now rewrite Hc, IH. }
  unfold safe_filename at 1. unfold safe_filename_with. rewrite Hmap.
  replace (100 <? length r) with false by (symmetry; apply Nat.ltb_ge; exact Hlen).
  apply strip_fixed; subst r; unfold safe_filename, safe_filename_with.
  - intros c rest. apply strip_head.
  - intros c init. apply strip_last.
Qed.

(** X2: the sidecar of a content file.  [with_suffix('.json')] on a path
    that ends in '.html' after a character of its final component
    replaces just that ending, whatever dots the rest of the path holds;
    so the sidecar of an artifact is the artifact's path with '.json' for
    '.html', beside it in the congress directory, and is never itself the
    path of a content file. *)
Theorem sidecar_beside_content :
  (forall (base : pystr) (c : char),
     c <> slash ->
     with_suffix_json (base ++ c :: lit ".html") = base ++ c :: lit ".json") /\
  (forall out iss (t : pystr),
     artifact_path out iss t =
       congress_dir_of out iss ++ lit "/" ++ artifact_stem iss t ++ lit ".html" /\
     with_suffix_json (artifact_path out iss t) =
       congress_dir_of out iss ++ lit "/" ++ artifact_stem iss t ++ lit ".json") /\
  (forall out iss out' iss' (t1 t2 : pystr),
     with_suffix_json (artifact_path out iss t1) <> artifact_path out' iss' t2).
Proof.
  split; [|split].
  - intros base c Hc. now apply with_suffix_json_html.
  - intros out iss t. split; [apply artifact_path_stem | apply sidecar_path].
  - intros out iss out' iss' t1 t2. apply sidecar_not_artifact.
Qed.

Lemma sidecar_beside_content_witness :
  with_suffix_json (lit "a.b/c.d.html") = lit "a.b/c.d.json".
Proof.
  exact (proj1 sidecar_beside_content (lit "a.b/c.") 100%N
           ltac:(intros H; discriminate H)).
Defined.

(** ** The catalog: sorting and merging *)

Lemma pystr_ltb_asym (a : pystr) :
  forall b, PyStr.ltb a b = true -> PyStr.ltb b a = false.
Proof.
  induction a as [|x a IH]; intros [|y b]; simpl; try reflexivity; try discriminate.
  intros H. apply orb_true_iff in H as [H | H].
  - apply N.ltb_lt in H.
    replace (N.ltb y x) with false by (symmetry; apply N.ltb_ge; lia).
    replace (N.eqb y x) with false by (symmetry; apply N.eqb_neq; lia).
    reflexivity.
  - apply andb_true_iff in H as [E H]. apply N.eqb_eq in E. subst y.
    rewrite N.ltb_irrefl, N.eqb_refl. simpl. now apply IH.
Qed.

Lemma pystr_ltb_irrefl (a : pystr) : PyStr.ltb a a = false.
Proof.
  destruct (PyStr.ltb a a) eqn:E; [|reflexivity].
  pose proof (pystr_ltb_asym a a E) as H. congruence.
Qed.

Lemma insert_desc_perm (x : issue) (l : list issue) :
  Permutation (insert_desc x l) (x :: l).
Proof.
  induction l as [|y l IH]; simpl; [reflexivity|].
  destruct (PyStr.ltb (issueDate x) (issueDate y)); [|reflexivity].
  rewrite IH. apply perm_swap.
Qed.

Lemma sort_by_date_desc_perm (l : list issue) : Permutation (sort_by_date_desc l) l.
Proof.
  induction l as [|x l IH]; simpl; [reflexivity|].
  rewrite insert_desc_perm. now constructor.
Qed.

Lemma insert_desc_descending (x : issue) (l : list issue) :
  date_descending l -> date_descending (insert_desc x l).
Proof.
  induction l as [|y l IH]; intros H.
  - simpl. auto.
  - cbn [insert_desc].
    destruct (PyStr.ltb (issueDate x) (issueDate y)) eqn:E.
    + destruct H as [Hy Hl]. specialize (IH Hl).
      cbn [date_descending]. split; [|exact IH].
      destruct l as [|z l]; cbn [insert_desc].
      * now apply pystr_ltb_asym.
      * destruct (PyStr.ltb (issueDate x) (issueDate z)); [exact Hy|].
        now apply pystr_ltb_asym.
    + cbn [date_descending]. split; [exact E|]. exact H.
Qed.

Lemma sort_by_date_desc_descending (l : list issue) :
  date_descending (sort_by_date_desc l).
Proof.
  induction l as [|x l IH]; simpl; [exact I|].
  now apply insert_desc_descending.
Qed.

Lemma insert_desc_stable (d : pystr) (x : issue) (l : list issue) :
  filter (fun i => PyStr.eqb (issueDate i) d) (insert_desc x l) =
  filter (fun i => PyStr.eqb (issueDate i) d) (x :: l).
Proof.
  induction l as [|y l IH]; [reflexivity|].
  cbn [insert_desc].
  destruct (PyStr.ltb (issueDate x) (issueDate y)) eqn:E; [|reflexivity].
  cbn [filter] in *. rewrite IH.
  destruct (PyStr.eqb (issueDate x) d) eqn:Ex; [|reflexivity].
  destruct (PyStr.eqb (issueDate y) d) eqn:Ey; [|reflexivity].
  apply pystr_eqb_eq in Ex, Ey. rewrite Ex, Ey, pystr_ltb_irrefl in E. discriminate.
Qed.

(** X3: the sort of the catalog returns the same entries, newest date
    text first, and is stable: entries of one date keep the order they
    had. *)
Theorem sort_by_date_desc_sorted_stable (l : list issue) :
  Permutation (sort_by_date_desc l) l /\
  date_descending (sort_by_date_desc l) /\
  forall d, filter (fun i => PyStr.eqb (issueDate i) d) (sort_by_date_desc l) =
            filter (fun i => PyStr.eqb (issueDate i) d) l.
Proof.
  split; [apply sort_by_date_desc_perm|].
  split; [apply sort_by_date_desc_descending|].
  intros d. induction l as [|x l IH]; [reflexivity|].
  cbn [sort_by_date_desc fold_right]. fold (sort_by_date_desc l).
  rewrite insert_desc_stable. cbn [filter]. now rewrite IH.
Qed.

(** More frame lemmas: the page loop, the controller, the loop of [main]. *)
Section MoreFrames.

Context {T : Type} (proj : State -> T).

Hypothesis blind_key_pos :
  forall u w k, proj (set_key_pos k u, w) = proj (u, w).
Hypothesis blind_request_count :
  forall u w n, proj (set_request_count n u, w) = proj (u, w).
Hypothesis blind_last_request_time :
  forall u w t, proj (set_last_request_time t u, w) = proj (u, w).
Hypothesis blind_consecutive :
  forall u w n, proj (set_consecutive n u, w) = proj (u, w).
Hypothesis blind_interrupt :
  forall u w i, proj (u, set_interrupt i w) = proj (u, w).
Hypothesis blind_slept :
  forall u w e, proj (u, slept e w) = proj (u, w).
Hypothesis blind_answered :
  forall u w url params, proj (u, answered url params w) = proj (u, w).
Hypothesis blind_created :
  forall u w p, proj (u, created p w) = proj (u, w).
Hypothesis blind_opened :
  forall u w, proj (u, opened w) = proj (u, w).

Lemma keeps_fetch_loop parse fuel :
  forall start offset acc, keeps proj (fetch_loop parse fuel start offset acc).
Proof.
  induction fuel as [|fuel IH]; intros start offset acc; cbn [fetch_loop].
  - apply keeps_out_of_fuel.
  - pose proof (keeps_make_request_loop proj blind_key_pos blind_request_count
                  blind_last_request_time blind_interrupt blind_slept blind_answered).
    unfold make_request. keeps_auto.
Qed.

Lemma keeps_process_issue fuel iss out : keeps proj (process_issue fuel iss out).
Proof.
  unfold process_issue.
  pose proof (keeps_check_issue_completeness proj blind_key_pos blind_request_count
                blind_last_request_time blind_interrupt blind_slept blind_answered).
  pose proof (keeps_download_missing proj blind_key_pos blind_request_count
                blind_last_request_time blind_interrupt blind_slept blind_answered
                blind_created blind_opened).
  apply keeps_bind; [auto|]. intros [[c e] t]. keeps_auto.
Qed.

Lemma keeps_run_issues fuel out issues :
  forall totals, keeps proj (run_issues fuel out issues totals).
Proof.
  induction issues as [|iss issues IH]; intros totals s; cbn [run_issues].
  - reflexivity.
  - pose proof (keeps_process_issue fuel iss out s) as H.
    destruct (process_issue fuel iss out s) as [[[n stop]|[]|] s1]; cbn [snd] in *.
    + destruct stop; [exact H|]. now rewrite IH.
    + exact H.
    + now rewrite IH.
    + exact H.
Qed.

End MoreFrames.

(** What a pass of [update_issues_file] that returns did: it kept a prefix
    of what it fetched, all from the start date on; with nothing kept the
    catalog file is as it was and the loaded catalog is returned, else the
    merged and sorted catalog is saved and returned. *)
Lemma update_issues_file_inv parse fuel s merged s' :
  update_issues_file parse fuel s = (Ret merged, s') ->
  let existing := load_existing (snd s) in
  exists start kept rest,
    match existing with
    | [] => start = default_start_date
    | newest :: _ => parse_issue_date parse newest = Some start
    end /\
    fetched_between (net (snd s)) (net_pos (snd s)) (net_pos (snd s')) = kept ++ rest /\
    Forall (dated (parse_issue_date parse) (fun d => start <= d)%Z) kept /\
    fs (snd s') = fs (snd s) /\
    match kept with
    | [] => merged = existing /\ catalog_file (snd s') = catalog_file (snd s)
    | _ :: _ =>
        merged = sort_by_date_desc (merge_new (map issue_id existing) existing kept) /\
        catalog_file (snd s') = Some merged
    end.
Proof.
  intros H existing. unfold update_issues_file in H.
  unfold get_world at 1 in H. unfold bind at 1 in H. fold existing in H.
  apply bind_Ret_inv in H as (newest_date & s0 & Hdate & H).
  assert (Hstart : s0 = s /\
            exists start,
              match existing with
              | [] => start = default_start_date
              | newest :: _ => parse_issue_date parse newest = Some start
              end /\
              fetch_recent_issues parse fuel newest_date =
              fetch_loop parse fuel start 0 []).
  { destruct existing as [|newest others].
    - unfold ret in Hdate. injection Hdate as <- <-. split; [reflexivity|].
      exists default_start_date. split; reflexivity.
    - destruct (parse_issue_date parse newest) as [d|]; [|discriminate].
      unfold ret in Hdate. injection Hdate as <- <-. split; [reflexivity|].
      exists d. split; reflexivity. }
  destruct Hstart as (-> & start & Hstart & Hfetch). rewrite Hfetch in H.
  apply bind_Ret_inv in H as (recent & s1 & Hloop & H).
  pose proof (keeps_run _ _ the_files _ _ _ _
                (keeps_fetch_loop the_files ltac:(blind) ltac:(blind) ltac:(blind)
                   ltac:(blind) ltac:(blind) ltac:(blind) parse fuel start 0 [])
                Hloop) as Hfs1.
  pose proof (keeps_run _ _ the_catalog _ _ _ _
                (keeps_fetch_loop the_catalog ltac:(blind) ltac:(blind) ltac:(blind)
                   ltac:(blind) ltac:(blind) ltac:(blind) parse fuel start 0 [])
                Hloop) as Hcat1.
  unfold the_files in Hfs1. unfold the_catalog in Hcat1.
  apply fetch_loop_prefix in Hloop as (Hn1 & Hle1 & kept & rest & Hres & Hf & Hk & _).
  simpl in Hres. subst recent.
  exists start, kept, rest. split; [exact Hstart|].
  destruct kept as [|k kept].
  - unfold ret in H. injection H as <- <-. repeat split; assumption.
  - apply bind_Ret_inv in H as ([] & s2 & Hsave & H).
    unfold ret in H. injection H as <- <-.
    unfold save_catalog in Hsave.
    apply bind_Ret_inv in Hsave as ([] & s3 & Htick & Hsave).
    assert (Hs3 : the_net s3 = the_net s1 /\ the_files s3 = the_files s1).
    { split; eapply keeps_run; try exact Htick; apply keeps_tick; blind. }
    destruct Hs3 as [Hnet3 Hfs3]. unfold the_net in Hnet3. unfold the_files in Hfs3.
    injection Hnet3 as Hn3 Hp3.
    unfold get_world, modify_world, bind, raise in Hsave. cbn [fst snd] in Hsave.
    destruct (disk (snd s3) (disk_pos (snd s3))); try discriminate Hsave.
    injection Hsave as <-.
    cbn [fst snd saved_catalog opened net_pos fs catalog_file].
    rewrite Hp3, Hfs3. repeat split; assumption.
Qed.

(** X4: a synchronization pass that returns loses nothing and invents
    nothing: every entry of the catalog it loaded is in the catalog it
    returns; every other entry it returns was fetched in this pass and has
    a key the loaded catalog did not have; the returned catalog is in
    descending order of date text; and either it is the loaded catalog,
    with the file left as it was, or it is what the file now holds. *)
Theorem synchronization_extends_catalog parse fuel s merged s' :
  update_issues_file parse fuel s = (Ret merged, s') ->
  let existing := load_existing (snd s) in
  (forall x, In x existing -> In x merged) /\
  (forall x, In x merged -> ~ In x existing ->
     In x (fetched_between (net (snd s)) (net_pos (snd s)) (net_pos (snd s'))) /\
     ~ In (issue_id x) (map issue_id existing)) /\
  date_descending merged /\
  ((merged = existing /\ catalog_file (snd s') = catalog_file (snd s)) \/
   catalog_file (snd s') = Some merged).
Proof.
  intros H existing.
  destruct (update_issues_file_inv _ _ _ _ _ H)
    as (start & kept & rest & _ & Hf & _ & _ & Hm).
  fold existing in Hm.
  destruct kept as [|k kept].
  - destruct Hm as [-> Hcat]. repeat split.
    + auto.
    + contradiction.
    + contradiction.
    + unfold existing, load_existing.
      destruct (catalog_file (snd s)); [apply sort_by_date_desc_descending | exact I].
    + now left.
  - destruct Hm as [-> Hcat].
    assert (Hin : forall x,
              In x (sort_by_date_desc
                      (merge_new (map issue_id existing) existing (k :: kept))) <->
              In x existing \/
              (In x (k :: kept) /\ id_in (issue_id x) (map issue_id existing) = false)).
    { intros x. rewrite merge_new_filter. split.
      - intros Hx.
        apply (Permutation_in _ (sort_by_date_desc_perm _)) in Hx.
        apply in_app_or in Hx as [Hx | Hx]; [now left|].
        apply filter_In in Hx as [Hx Hid]. right. split; [exact Hx|].
        now apply negb_true_iff in Hid.
      - intros Hx.
        apply (Permutation_in _ (Permutation_sym (sort_by_date_desc_perm _))).
        apply in_or_app. destruct Hx as [Hx | [Hx Hid]]; [now left|].
        right. apply filter_In. split; [exact Hx|]. now rewrite Hid. }
    repeat split.
    + intros x Hx. apply Hin. now left.
    + match goal with Hm : In _ (sort_by_date_desc _) |- _ =>
        apply Hin in Hm as [Hx | [Hx _]]; [contradiction|] end.
      rewrite Hf. apply in_or_app. now left.
    + match goal with Hm : In _ (sort_by_date_desc _) |- _ =>
        apply Hin in Hm as [Hx | [_ Hid]]; [contradiction|] end.
      intros Hk. apply id_in_In in Hk. congruence.
    + apply sort_by_date_desc_descending.
    + now right.
Qed.

Lemma synchronization_extends_catalog_witness :
  exists s',
    update_issues_file iso_instant 5 catalog_to_44
      = (Ret [issue_170_46; issue_170_45; issue_170_44; issue_170_43], s') /\
    catalog_file (snd s')
      = Some [issue_170_46; issue_170_45; issue_170_44; issue_170_43] /\
    date_descending [issue_170_46; issue_170_45; issue_170_44; issue_170_43].
Proof.
  pose (s' := snd (update_issues_file iso_instant 5 catalog_to_44)).
  assert (E : update_issues_file iso_instant 5 catalog_to_44
              = (Ret [issue_170_46; issue_170_45; issue_170_44; issue_170_43], s'))
    by (vm_compute; reflexivity).
  exists s'. split; [exact E|].
  destruct (synchronization_extends_catalog iso_instant 5 catalog_to_44 _ s' E)
    as (_ & _ & Hd & [[Hm _] | Hc]).
  - exfalso. revert Hm. vm_compute. discriminate.
  - split; [exact Hc | exact Hd].
Defined.

(** X5: when neither the loaded catalog nor what the pass fetched holds a
    key twice, the catalog the pass returns holds no key twice. *)
Theorem synchronization_keeps_keys_unique parse fuel s merged s' :
  update_issues_file parse fuel s = (Ret merged, s') ->
  NoDup (map issue_id (load_existing (snd s))) ->
  NoDup (map issue_id
           (fetched_between (net (snd s)) (net_pos (snd s)) (net_pos (snd s')))) ->
  NoDup (map issue_id merged).
Proof.
  intros H He Hfetched.
  destruct (update_issues_file_inv _ _ _ _ _ H)
    as (start & kept & rest & _ & Hf & _ & _ & Hm).
  rewrite Hf, map_app in Hfetched. apply NoDup_app_remove_r in Hfetched.
  destruct kept as [|k kept].
  - destruct Hm as [-> _]. exact He.
  - destruct Hm as [-> _].
    eapply Permutation_NoDup.
    + apply Permutation_map, Permutation_sym, sort_by_date_desc_perm.
    + now apply merge_new_unique_when_batch_unique.
Qed.

Lemma synchronization_keeps_keys_unique_witness :
  exists s',
    update_issues_file iso_instant 5 catalog_to_44
      = (Ret [issue_170_46; issue_170_45; issue_170_44; issue_170_43], s') /\
    NoDup (map issue_id [issue_170_46; issue_170_45; issue_170_44; issue_170_43]).
Proof.
  pose (s' := snd (update_issues_file iso_instant 5 catalog_to_44)).
  assert (E : update_issues_file iso_instant 5 catalog_to_44
              = (Ret [issue_170_46; issue_170_45; issue_170_44; issue_170_43], s'))
    by (vm_compute; reflexivity).
  exists s'. split; [exact E|].
  apply (synchronization_keeps_keys_unique iso_instant 5 catalog_to_44 _ s' E).
  - vm_compute. repeat constructor; simpl; intuition discriminate.
  - vm_compute. repeat constructor; simpl; intuition discriminate.
Defined.

(** X6: a first synchronization, with no catalog on disk or an empty one,
    lets nothing in that is dated before 2014-01-01 UTC: every entry of
    the catalog it returns has a date that parses, to that instant or a
    later one. *)
Theorem first_synchronization_starts_in_2014 parse fuel s merged s' :
  update_issues_file parse fuel s = (Ret merged, s') ->
  load_existing (snd s) = [] ->
  Forall (dated (parse_issue_date parse) (fun d => default_start_date <= d)%Z) merged.
Proof.
  intros H Hempty.
  destruct (update_issues_file_inv _ _ _ _ _ H)
    as (start & kept & rest & Hstart & _ & Hk & _ & Hm).
  rewrite Hempty in Hstart, Hm. subst start.
  destruct kept as [|k kept].
  - destruct Hm as [-> _]. constructor.
  - destruct Hm as [-> _]. apply Forall_forall. intros x Hx.
    apply (Permutation_in _ (sort_by_date_desc_perm _)) in Hx.
    rewrite merge_new_filter in Hx. simpl in Hx.
    rewrite Forall_forall in Hk. apply Hk.
    destruct Hx as [<- | Hx]; [now left|].
    right. now apply filter_In in Hx as [Hx _].
Qed.

Lemma first_synchronization_starts_in_2014_witness :
  load_existing (snd shifted_pages) = [] /\
  exists merged s',
    update_issues_file iso_instant 5 shifted_pages = (Ret merged, s') /\
    Forall (dated (parse_issue_date iso_instant) (fun d => 1388534400 <= d)%Z) merged.
Proof.
  split; [reflexivity|].
  pose (r := update_issues_file iso_instant 5 shifted_pages).
  assert (E : update_issues_file iso_instant 5 shifted_pages
              = (Ret [issue_170_46; issue_170_45; issue_170_45; issue_170_44], snd r))
    by (vm_compute; reflexivity).
  exists [issue_170_46; issue_170_45; issue_170_45; issue_170_44], (snd r).
  split; [exact E|].
  exact (first_synchronization_starts_in_2014 iso_instant 5 shifted_pages _ _ E eq_refl).
Defined.

(** ** The client: timeouts, errors, spacing *)

Lemma sleep_calm_frame (e : sleep_event) (s : State) :
  calm s ->
  exists s1, sleep e s = (Ret tt, s1) /\
    calm s1 /\ net (snd s1) = net (snd s) /\ net_pos (snd s1) = net_pos (snd s) /\
    api_keys (fst s1) = api_keys (fst s) /\ fs (snd s1) = fs (snd s) /\
    fst s1 = fst s /\ sleeps (snd s1) = sleeps (snd s) ++ [e] /\
    disk (snd s1) = disk (snd s) /\ disk_pos (snd s1) = disk_pos (snd s).
Proof.
  intros Hc. rewrite (sleep_calm _ _ Hc). eexists. split; [reflexivity|].
  destruct s as [u w]. unfold calm in *. simpl in *. tauto.
Qed.

Lemma throttle_spaced (s : State) :
  calm s ->
  exists w1, throttle s = (Ret tt, (fst s, w1)) /\
    (last_request_time (fst s) + 1 <= clock w1)%Q.
Proof.
  intros Hc. unfold throttle, time_time, get_world, get_self, bind, ret.
  destruct (Qltb (clock (snd s) - last_request_time (fst s)) 1) eqn:E.
  - rewrite (sleep_calm _ _ Hc). eexists. split; [reflexivity|].
    cbn [slept clock duration]. lra.
  - exists (snd s). split; [now destruct s|].
    unfold Qltb in E. apply negb_false_iff in E. apply Qle_bool_iff in E. lra.
Qed.

Lemma keeps_stamp_count_request (every : nat) :
  keeps (fun s => last_request_time (fst s)) (count_request every).
Proof. apply keeps_count_request; blind. Qed.

Lemma keeps_stamp_handle_429_error (attempt : nat) :
  keeps (fun s => last_request_time (fst s)) (handle_429_error attempt).
Proof. apply keeps_handle_429_error; blind. Qed.

Lemma count_request_keeps_stamp (every : nat) (s : State) (u1 : Updater) (w1 : World) :
  count_request every s = (Ret tt, (u1, w1)) ->
  last_request_time u1 = last_request_time (fst s).
Proof.
  intros E.
  apply (keeps_run _ _ (fun s => last_request_time (fst s)) _ _ _ _
           (keeps_stamp_count_request every) E).
Qed.

Lemma handle_429_error_keeps_stamp (attempt : nat) (s s1 : State) :
  handle_429_error attempt s = (Ret tt, s1) ->
  last_request_time (fst s1) = last_request_time (fst s).
Proof.
  intros E.
  apply (keeps_run _ _ (fun s => last_request_time (fst s)) _ _ _ _
           (keeps_stamp_handle_429_error attempt) E).
Qed.

(** One iteration of the loop of [make_request], with the stamp. *)
Lemma make_request_loop_calm_stamped (fuel : nat) (url : pystr)
    (params : list (pystr * pystr)) (attempt : nat) (s : State) :
  calm s ->
  exists s1 params1,
    attempted 4 s s1 /\
    (last_request_time (fst s) + 1 <= last_request_time (fst s1))%Q /\
    make_request_loop (S fuel) url params Unbounded attempt s =
    match snd (net (snd s) (net_pos (snd s))) with
    | Status429 =>
        (handle_429_error attempt ;;
         make_request_loop fuel url params1 Unbounded (S attempt)) s1
    | Status200 _ json => (Ret (Some json), s1)
    | Timeout =>
        if attempt <? 3 then
          (sleep RetrySleep ;;
           make_request_loop fuel url params1 Unbounded (S attempt)) s1
        else (Ret None, s1)
    | RequestException e =>
        if contains (lit "429") e then
          (handle_429_error attempt ;;
           make_request_loop fuel url params1 Unbounded (S attempt)) s1
        else (Ret None, s1)
    end.
Proof.
  intros Hc. cbn [make_request_loop within].
  destruct (throttle_calm _ Hc) as (w1 & E1 & Hw1 & Hn1 & Hp1 & Hf1 & Hcat1 & Hb1).
  destruct (throttle_spaced _ Hc) as (w1' & E1' & Hsp).
  rewrite E1 in E1'. injection E1' as <-.
  run E1.
  destruct (count_request_run 4 (fst s, w1)) as (u1 & E2 & Hk & Hce & Hst & Hrc & Hkp).
  pose proof (count_request_keeps_stamp _ _ _ _ E2) as Hlast.
  run E2.
  unfold get_self at 1. unfold bind at 1.
  run (stamp_request_run (u1, snd (fst s, w1))).
  cbn [fst snd].
  assert (Hc2 : calm (set_last_request_time (clock w1) u1, w1)) by exact Hw1.
  run (session_get_calm url
         (set_param (lit "api_key") (current_api_key u1) params) _ Hc2).
  cbn [fst snd]. rewrite Hn1, Hp1.
  eexists. eexists. split; [|split].
  3: { destruct (snd (net (snd s) (net_pos (snd s)))); try reflexivity.
       - destruct (attempt <? 3); reflexivity.
       - destruct (contains (lit "429") message); reflexivity. }
  - unfold attempted, calm. destruct u1, w1. cbn in *. subst. tauto.
  - cbn [fst snd set_last_request_time last_request_time]. exact Hsp.
Qed.

(** One iteration of the loop of [download_article_text], with the stamp. *)
Lemma download_loop_calm_stamped (budget : nat) (url filename : pystr)
    (max_retries attempt : nat) (s : State) :
  calm s ->
  attempt <= max_retries ->
  exists s1,
    attempted 10 s s1 /\
    (last_request_time (fst s) + 1 <= last_request_time (fst s1))%Q /\
    download_loop (S budget) url filename max_retries attempt s =
    match snd (net (snd s) (net_pos (snd s))) with
    | Status429 =>
        (handle_429_error attempt ;;
         download_loop budget url filename max_retries (S attempt)) s1
    | Status200 _ _ =>
        (r <- try_write filename ;;
         match r with
         | None => ret (Some true)
         | Some e =>
             if contains (lit "429") e then
               handle_429_error attempt ;;
               download_loop budget url filename max_retries (S attempt)
             else ret (Some false)
         end) s1
    | Timeout =>
        if attempt <? max_retries then
          (sleep RetrySleep ;;
           download_loop budget url filename max_retries (S attempt)) s1
        else (Ret (Some false), s1)
    | RequestException e =>
        if contains (lit "429") e then
          (handle_429_error attempt ;;
           download_loop budget url filename max_retries (S attempt)) s1
        else (Ret (Some false), s1)
    end.
Proof.
  intros Hc Hle. cbn [download_loop].
  apply Nat.leb_le in Hle. rewrite Hle.
  destruct (throttle_calm _ Hc) as (w1 & E1 & Hw1 & Hn1 & Hp1 & Hf1 & Hcat1 & Hb1).
  destruct (throttle_spaced _ Hc) as (w1' & E1' & Hsp).
  rewrite E1 in E1'. injection E1' as <-.
  run E1.
  destruct (count_request_run 10 (fst s, w1)) as (u1 & E2 & Hk & Hce & Hst & Hrc & Hkp).
  pose proof (count_request_keeps_stamp _ _ _ _ E2) as Hlast.
  run E2.
  run (stamp_request_run (u1, snd (fst s, w1))).
  cbn [fst snd].
  assert (Hc2 : calm (set_last_request_time (clock w1) u1, w1)) by exact Hw1.
  run (session_get_calm url [] _ Hc2).
  cbn [fst snd]. rewrite Hn1, Hp1.
  eexists. split; [|split].
  3: { destruct (snd (net (snd s) (net_pos (snd s)))); try reflexivity.
       - destruct (attempt <? max_retries); reflexivity.
       - destruct (contains (lit "429") message); reflexivity. }
  - unfold attempted, calm. destruct u1, w1. cbn in *. subst. tauto.
  - cbn [fst snd set_last_request_time last_request_time]. exact Hsp.
Qed.

Lemma Qnat_succ (n : nat) :
  (inject_Z (Z.of_nat (S n)) == inject_Z (Z.of_nat n) + 1)%Q.
Proof. rewrite Nat2Z.inj_succ. unfold Z.succ. rewrite inject_Z_plus. reflexivity. Qed.

(** [n] answers in a row that make the listing loop go round: the loop is
    then where it would be had it started [n] attempts later, [n]
    requests on, each stamped a second or more after the one before. *)
Lemma make_request_loop_skip (n : nat) :
  forall (fuel : nat) (url : pystr) (params : list (pystr * pystr))
         (attempt : nat) (s : State),
  calm s ->
  (forall k, k < n -> listing_retries (attempt + k) (answer s k) = true) ->
  exists s2 params2,
    make_request_loop (n + fuel) url params Unbounded attempt s =
    make_request_loop fuel url params2 Unbounded (attempt + n) s2 /\
    calm s2 /\
    net (snd s2) = net (snd s) /\
    net_pos (snd s2) = net_pos (snd s) + n /\
    api_keys (fst s2) = api_keys (fst s) /\
    fs (snd s2) = fs (snd s) /\
    request_count (fst s2) = request_count (fst s) + n /\
    (last_request_time (fst s) + inject_Z (Z.of_nat n)
       <= last_request_time (fst s2))%Q.
Proof.
  induction n as [|n IH]; intros fuel url params attempt s Hc Hretry.
  - exists s, params. rewrite !Nat.add_0_r. repeat split; try assumption.
    change (inject_Z (Z.of_nat 0)) with 0%Q. rewrite Qplus_0_r. apply Qle_refl.
  - cbn [Nat.add].
    destruct (make_request_loop_calm_stamped (n + fuel) url params attempt s Hc)
      as (s1 & p1 & Hatt & Hsp1 & ->).
    pose proof (Hretry 0 ltac:(lia)) as H0. unfold answer in H0.
    rewrite !Nat.add_0_r in H0.
    destruct Hatt as (Hc1 & Hn1 & Hp1 & Hk1 & Hf1 & _ & _ & _ & Hrc1 & _).
    assert (Hnext : forall s2,
              calm s2 -> net (snd s2) = net (snd s1) ->
              net_pos (snd s2) = net_pos (snd s1) ->
              api_keys (fst s2) = api_keys (fst s1) -> fs (snd s2) = fs (snd s1) ->
              request_count (fst s2) = request_count (fst s1) ->
              last_request_time (fst s2) = last_request_time (fst s1) ->
              exists s3 params3,
                make_request_loop (n + fuel) url p1 Unbounded (S attempt) s2 =
                make_request_loop fuel url params3 Unbounded (attempt + S n) s3 /\
                calm s3 /\ net (snd s3) = net (snd s) /\
                net_pos (snd s3) = net_pos (snd s) + S n /\
                api_keys (fst s3) = api_keys (fst s) /\ fs (snd s3) = fs (snd s) /\
                request_count (fst s3) = request_count (fst s) + S n /\
                (last_request_time (fst s) + inject_Z (Z.of_nat (S n))
                   <= last_request_time (fst s3))%Q).
    { intros s2 Hc2 Hn2 Hp2 Hk2 Hf2 Hrc2 Hl2.
      destruct (IH fuel url p1 (S attempt) s2 Hc2)
        as (s3 & p3 & E & Hc3 & Hn3 & Hp3 & Hk3 & Hf3 & Hrc3 & Hl3).
      - intros k Hk. unfold answer. rewrite Hn2, Hn1, Hp2, Hp1.
        replace (S (net_pos (snd s)) + k) with (net_pos (snd s) + S k) by lia.
        replace (S attempt + k) with (attempt + S k) by lia.
        apply Hretry. lia.
      - exists s3, p3. replace (attempt + S n) with (S attempt + n) by lia.
        split; [exact E|]. repeat split; try congruence; try lia.
        rewrite Qnat_succ. rewrite Hl2 in Hl3. lra. }
    destruct (snd (net (snd s) (net_pos (snd s)))) as [| |  |msg];
      cbn [listing_retries] in H0.
    + destruct (handle_429_error_calm attempt s1 Hc1) as (s2 & E2 & Hbo).
      pose proof (handle_429_error_keeps_stamp _ _ _ E2).
      run E2. destruct Hbo as (Hc2 & Hn2 & Hp2 & Hk2 & Hf2 & Hrc2 & _).
      now apply Hnext.
    + discriminate.
    + rewrite H0.
      destruct (sleep_calm_frame RetrySleep s1 Hc1)
        as (s2 & E2 & Hc2 & Hn2 & Hp2 & Hk2 & Hf2 & Hu2 & _).
      run E2. apply Hnext; try assumption; now rewrite Hu2.
    + rewrite H0.
      destruct (handle_429_error_calm attempt s1 Hc1) as (s2 & E2 & Hbo).
      pose proof (handle_429_error_keeps_stamp _ _ _ E2).
      run E2. destruct Hbo as (Hc2 & Hn2 & Hp2 & Hk2 & Hf2 & Hrc2 & _).
      now apply Hnext.
Qed.

(** The same for the loop of [download_article_text], as long as attempts
    are left. *)
Lemma download_loop_skip (n : nat) :
  forall (budget : nat) (url filename : pystr) (max_retries attempt : nat) (s : State),
  calm s ->
  attempt + n <= S max_retries ->
  (forall k, k < n -> download_retries max_retries (attempt + k) (answer s k) = true) ->
  exists s2,
    download_loop (n + budget) url filename max_retries attempt s =
    download_loop budget url filename max_retries (attempt + n) s2 /\
    calm s2 /\
    net (snd s2) = net (snd s) /\
    net_pos (snd s2) = net_pos (snd s) + n /\
    api_keys (fst s2) = api_keys (fst s) /\
    fs (snd s2) = fs (snd s) /\
    request_count (fst s2) = request_count (fst s) + n /\
    (last_request_time (fst s) + inject_Z (Z.of_nat n)
       <= last_request_time (fst s2))%Q /\
    disk (snd s2) = disk (snd s) /\
    disk_pos (snd s2) = disk_pos (snd s).
Proof.
  induction n as [|n IH]; intros budget url filename max_retries attempt s Hc Hle Hretry.
  - exists s. rewrite !Nat.add_0_r. repeat split; try assumption.
    change (inject_Z (Z.of_nat 0)) with 0%Q. rewrite Qplus_0_r. apply Qle_refl.
  - cbn [Nat.add].
    destruct (download_loop_calm_stamped (n + budget) url filename max_retries attempt s Hc)
      as (s1 & Hatt & Hsp1 & ->); [lia|].
    pose proof (Hretry 0 ltac:(lia)) as H0. unfold answer in H0.
    rewrite !Nat.add_0_r in H0.
    destruct Hatt as (Hc1 & Hn1 & Hp1 & Hk1 & Hf1 & _ & _ & _ & Hrc1 & _ & Hd1 & Hdp1).
    assert (Hnext : forall s2,
              calm s2 -> net (snd s2) = net (snd s1) ->
              net_pos (snd s2) = net_pos (snd s1) ->
              api_keys (fst s2) = api_keys (fst s1) -> fs (snd s2) = fs (snd s1) ->
              request_count (fst s2) = request_count (fst s1) ->
              last_request_time (fst s2) = last_request_time (fst s1) ->
              disk (snd s2) = disk (snd s1) ->
              disk_pos (snd s2) = disk_pos (snd s1) ->
              exists s3,
                download_loop (n + budget) url filename max_retries (S attempt) s2 =
                download_loop budget url filename max_retries (attempt + S n) s3 /\
                calm s3 /\ net (snd s3) = net (snd s) /\
                net_pos (snd s3) = net_pos (snd s) + S n /\
                api_keys (fst s3) = api_keys (fst s) /\ fs (snd s3) = fs (snd s) /\
                request_count (fst s3) = request_count (fst s) + S n /\
                (last_request_time (fst s) + inject_Z (Z.of_nat (S n))
                   <= last_request_time (fst s3))%Q /\
                disk (snd s3) = disk (snd s) /\
                disk_pos (snd s3) = disk_pos (snd s)).
    { intros s2 Hc2 Hn2 Hp2 Hk2 Hf2 Hrc2 Hl2 Hd2 Hdp2.
      destruct (IH budget url filename max_retries (S attempt) s2 Hc2)
        as (s3 & E & Hc3 & Hn3 & Hp3 & Hk3 & Hf3 & Hrc3 & Hl3 & Hd3 & Hdp3).
      - lia.
      - intros k Hk. unfold answer. rewrite Hn2, Hn1, Hp2, Hp1.
        replace (S (net_pos (snd s)) + k) with (net_pos (snd s) + S k) by lia.
        replace (S attempt + k) with (attempt + S k) by lia.
        apply Hretry. lia.
      - exists s3. replace (attempt + S n) with (S attempt + n) by lia.
        split; [exact E|]. repeat split; try congruence; try lia.
        rewrite Qnat_succ. rewrite Hl2 in Hl3. lra. }
    destruct (snd (net (snd s) (net_pos (snd s)))) as [| |  |msg];
      cbn [download_retries] in H0.
    + destruct (handle_429_error_calm attempt s1 Hc1) as (s2 & E2 & Hbo).
      pose proof (handle_429_error_keeps_stamp _ _ _ E2).
      run E2. destruct Hbo as (Hc2 & Hn2 & Hp2 & Hk2 & Hf2 & Hrc2 & _ & _ & Hd2 & Hdp2).
      now apply Hnext.
    + discriminate.
    + rewrite H0.
      destruct (sleep_calm_frame RetrySleep s1 Hc1)
        as (s2 & E2 & Hc2 & Hn2 & Hp2 & Hk2 & Hf2 & Hu2 & _ & Hd2 & Hdp2).
      run E2. apply Hnext; try assumption; now rewrite Hu2.
    + rewrite H0.
      destruct (handle_429_error_calm attempt s1 Hc1) as (s2 & E2 & Hbo).
      pose proof (handle_429_error_keeps_stamp _ _ _ E2).
      run E2. destruct Hbo as (Hc2 & Hn2 & Hp2 & Hk2 & Hf2 & Hrc2 & _ & _ & Hd2 & Hdp2).
      now apply Hnext.
Qed.

(** From a state with no interrupt pending the loop of
    [download_article_text] returns, whatever the answers and the disk:
    its [m] requests are stamped a second or more apart, and it makes one
    or more when an attempt is left. *)
Lemma download_loop_returns (budget : nat) :
  forall (url filename : pystr) (max_retries attempt : nat) (s : State),
  calm s ->
  exists r s' m,
    download_loop budget url filename max_retries attempt s = (Ret r, s') /\
    calm s' /\
    net (snd s') = net (snd s) /\
    net_pos (snd s') = net_pos (snd s) + m /\
    (attempt <= max_retries -> 0 < budget -> 1 <= m) /\
    (last_request_time (fst s) + inject_Z (Z.of_nat m)
       <= last_request_time (fst s'))%Q.
Proof.
  induction budget as [|budget IH]; intros url filename max_retries attempt s Hc.
  - exists None, s, 0. cbn [download_loop]. rewrite Nat.add_0_r.
    repeat split; try assumption; try lia.
    change (inject_Z (Z.of_nat 0)) with 0%Q. rewrite Qplus_0_r. apply Qle_refl.
  - destruct (attempt <=? max_retries) eqn:Ele.
    2: { exists None, s, 0. cbn [download_loop]. rewrite Ele, Nat.add_0_r.
         apply Nat.leb_gt in Ele.
         repeat split; try assumption; try lia.
         change (inject_Z (Z.of_nat 0)) with 0%Q. rewrite Qplus_0_r. apply Qle_refl. }
    apply Nat.leb_le in Ele.
    destruct (download_loop_calm_stamped budget url filename max_retries attempt s Hc Ele)
      as (s1 & Hatt & Hsp1 & ->).
    destruct Hatt as (Hc1 & Hn1 & Hp1 & _).
    assert (Hnext : forall s2,
              calm s2 -> net (snd s2) = net (snd s1) ->
              net_pos (snd s2) = net_pos (snd s1) ->
              last_request_time (fst s2) = last_request_time (fst s1) ->
              exists r s' m,
                download_loop budget url filename max_retries (S attempt) s2 = (Ret r, s') /\
                calm s' /\ net (snd s') = net (snd s) /\
                net_pos (snd s') = net_pos (snd s) + m /\
                (attempt <= max_retries -> 0 < S budget -> 1 <= m) /\
                (last_request_time (fst s) + inject_Z (Z.of_nat m)
                   <= last_request_time (fst s'))%Q).
    { intros s2 Hc2 Hn2 Hp2 Hl2.
      destruct (IH url filename max_retries (S attempt) s2 Hc2)
        as (r & s' & m & E & Hc' & Hn' & Hp' & _ & Hl').
      exists r, s', (S m). split; [exact E|]. split; [exact Hc'|].
      split; [congruence|]. split; [lia|]. split; [lia|].
      rewrite Qnat_succ. rewrite Hl2 in Hl'. lra. }
    assert (Hstop : forall (r : option bool) s2,
              calm s2 -> net (snd s2) = net (snd s1) ->
              net_pos (snd s2) = net_pos (snd s1) ->
              last_request_time (fst s2) = last_request_time (fst s1) ->
              exists r' s' m,
                (Ret r, s2) = (@Ret (option bool) r', s') /\
                calm s' /\ net (snd s') = net (snd s) /\
                net_pos (snd s') = net_pos (snd s) + m /\
                (attempt <= max_retries -> 0 < S budget -> 1 <= m) /\
                (last_request_time (fst s) + inject_Z (Z.of_nat m)
                   <= last_request_time (fst s'))%Q).
    { intros r s2 Hc2 Hn2 Hp2 Hl2. exists r, s2, 1.
      split; [reflexivity|]. split; [exact Hc2|]. split; [congruence|].
      split; [lia|]. split; [lia|].
      change (inject_Z (Z.of_nat 1)) with 1%Q. rewrite Hl2. exact Hsp1. }
    assert (Hround : forall s2,
              calm s2 -> net (snd s2) = net (snd s1) ->
              net_pos (snd s2) = net_pos (snd s1) ->
              last_request_time (fst s2) = last_request_time (fst s1) ->
              exists r s' m,
                (handle_429_error attempt ;;
                 download_loop budget url filename max_retries (S attempt)) s2
                  = (Ret r, s') /\
                calm s' /\ net (snd s') = net (snd s) /\
                net_pos (snd s') = net_pos (snd s) + m /\
                (attempt <= max_retries -> 0 < S budget -> 1 <= m) /\
                (last_request_time (fst s) + inject_Z (Z.of_nat m)
                   <= last_request_time (fst s'))%Q).
    { intros s2 Hc2 Hn2 Hp2 Hl2.
      destruct (handle_429_error_calm attempt s2 Hc2) as (s3 & E3 & Hbo).
      pose proof (handle_429_error_keeps_stamp _ _ _ E3) as Hl3.
      run E3. destruct Hbo as (Hc3 & Hn3 & Hp3 & _).
      apply Hnext; congruence. }
    destruct (snd (net (snd s) (net_pos (snd s)))) as [|body json| |msg].
    + now apply Hround.
    + destruct (verdict_on (snd s1) filename) as [|e|e] eqn:Ev.
      * run (try_write_calm filename s1 Hc1 Ev). now apply Hstop.
      * destruct (try_write_fails filename s1 Hc1)
          as (e' & w1 & _ & E & Hi & Hnw & Hpw & _); [congruence|].
        run E. destruct (contains (lit "429") e'); [now apply Hround | now apply Hstop].
      * destruct (try_write_fails filename s1 Hc1)
          as (e' & w1 & _ & E & Hi & Hnw & Hpw & _); [congruence|].
        run E. destruct (contains (lit "429") e'); [now apply Hround | now apply Hstop].
    + destruct (attempt <? max_retries).
      * destruct (sleep_calm_frame RetrySleep s1 Hc1)
          as (s2 & E2 & Hc2 & Hn2 & Hp2 & _ & _ & Hu2 & _).
        run E2. apply Hnext; try assumption. now rewrite Hu2.
      * now apply Hstop.
    + destruct (contains (lit "429") msg); [now apply Hround | now apply Hstop].
Qed.

(** The outcome of a listing request over any answers, none interrupted:
    after [n] answers that are retried, the first that is not decides. *)
Lemma make_request_decided (n fuel : nat) url params (s : State) :
  calm s ->
  (forall k, k < n -> listing_retries (1 + k) (answer s k) = true) ->
  listing_retries (1 + n) (answer s n) = false ->
  n < fuel ->
  exists s',
    make_request fuel url params s =
      (Ret match answer s n with
           | Status200 _ json => Some json
           | _ => None
           end, s') /\
    calm s' /\
    net (snd s') = net (snd s) /\
    net_pos (snd s') = net_pos (snd s) + S n /\
    api_keys (fst s') = api_keys (fst s) /\
    fs (snd s') = fs (snd s) /\
    request_count (fst s') = request_count (fst s) + S n.
Proof.
  intros Hc Hretry Hlast Hfuel. unfold make_request.
  replace fuel with (n + S (fuel - S n)) by lia.
  destruct (make_request_loop_skip n (S (fuel - S n)) url params 1 s Hc Hretry)
    as (s2 & p2 & -> & Hc2 & Hn2 & Hp2 & Hk2 & Hf2 & Hrc2).
  destruct (make_request_loop_calm (fuel - S n) url p2 (1 + n) s2 Hc2)
    as (s3 & p3 & Hatt & ->).
  destruct Hatt as (Hc3 & Hn3 & Hp3 & Hk3 & Hf3 & _ & _ & _ & Hrc3 & _).
  unfold answer in Hlast. rewrite Hn2, Hp2.
  unfold answer.
  destruct (snd (net (snd s) (net_pos (snd s) + n))) as [| body json | |msg];
    cbn [listing_retries] in Hlast; try discriminate.
  - exists s3. repeat split; try congruence; lia.
  - rewrite Hlast. exists s3. repeat split; try congruence; lia.
  - rewrite Hlast. exists s3. repeat split; try congruence; lia.
Qed.

Lemma created_fs_congr (p : pystr) (w1 w2 : World) :
  fs w1 = fs w2 -> fs (created p w1) = fs (created p w2).
Proof. unfold created. simpl. now intros ->. Qed.

(** A download over any answers, none interrupted: after [n] answers that
    are retried, the first that is not decides, [n + 1] requests on; a
    timeout or an error ends the download, a success leaves it to the
    write of the file, on the disk as it was. *)
Lemma download_decided (n : nat) (url filename : pystr) (s : State) :
  calm s ->
  (forall k, k < n -> download_retries 3 (1 + k) (answer s k) = true) ->
  (n < 3 ->
   download_retries 3 (1 + n) (answer s n) = false ->
   exists s1,
     calm s1 /\
     net (snd s1) = net (snd s) /\
     net_pos (snd s1) = net_pos (snd s) + S n /\
     fs (snd s1) = fs (snd s) /\
     disk (snd s1) = disk (snd s) /\
     disk_pos (snd s1) = disk_pos (snd s) /\
     (last_request_time (fst s) + inject_Z (Z.of_nat (S n))
        <= last_request_time (fst s1))%Q /\
     download_article_text url filename s =
       match answer s n with
       | Status200 _ _ =>
           (r <- try_write filename ;;
            match r with
            | None => ret (Some true)
            | Some e =>
                if contains (lit "429") e then
                  handle_429_error (1 + n) ;;
                  download_loop (2 - n) url filename 3 (S (1 + n))
                else ret (Some false)
            end) s1
       | _ => (Ret (Some false), s1)
       end) /\
  (n = 3 ->
   exists s',
     download_article_text url filename s = (Ret None, s') /\
     calm s' /\
     net (snd s') = net (snd s) /\
     net_pos (snd s') = net_pos (snd s) + 3 /\
     fs (snd s') = fs (snd s)).
Proof.
  intros Hc Hretry. unfold download_article_text. split.
  - intros Hn Hlast.
    rewrite (download_loop_budget url filename 3 3 (n + S (2 - n)) 1 s) by lia.
    destruct (download_loop_skip n (S (2 - n)) url filename 3 1 s Hc ltac:(lia) Hretry)
      as (s2 & -> & Hc2 & Hn2 & Hp2 & Hk2 & Hf2 & _ & Hl2 & Hd2 & Hdp2).
    destruct (download_loop_calm_stamped (2 - n) url filename 3 (1 + n) s2 Hc2)
      as (s3 & Hatt & Hl3 & ->); [lia|].
    destruct Hatt as (Hc3 & Hn3 & Hp3 & _ & Hf3 & _ & _ & _ & _ & _ & Hd3 & Hdp3).
    exists s3.
    split; [exact Hc3|]. split; [congruence|]. split; [lia|].
    split; [congruence|]. split; [congruence|]. split; [congruence|].
    split; [rewrite Qnat_succ; lra|].
    unfold answer in Hlast |- *. rewrite Hn2, Hp2.
    destruct (snd (net (snd s) (net_pos (snd s) + n))) as [| body json | |msg];
      cbn [download_retries] in Hlast; try discriminate.
    + reflexivity.
    + now rewrite Hlast.
    + now rewrite Hlast.
  - intros ->.
    destruct (download_loop_skip 3 0 url filename 3 1 s Hc ltac:(lia) Hretry)
      as (s2 & E & Hc2 & Hn2 & Hp2 & _ & Hf2 & _).
    cbn [Nat.add] in E. rewrite E. cbn [download_loop].
    exists s2. repeat split; assumption.
Qed.

Lemma verdict_written (w : World) (p : pystr) :
  in_fs w (parent p) = true -> disk w (disk_pos w) = Written ->
  verdict_on w p = Written.
Proof.
  intros Hdir Hd. unfold verdict_on, dir_ready.
  destruct (parent p); [exact Hd|]. now rewrite Hdir.
Qed.

(** X7: the outcome of a listing request, with no interrupt pending: it
    asks again after every 429, every timeout met on attempt 1 or 2 and
    every error whose text contains "429"; the first other answer ends it,
    after exactly that many requests, with the payload if it is a success
    and with [None] if not; and it never touches the files. *)
Theorem listing_request_outcome (n fuel : nat) url params (s : State) :
  calm s ->
  (forall k, k < n -> listing_retries (1 + k) (answer s k) = true) ->
  listing_retries (1 + n) (answer s n) = false ->
  n < fuel ->
  exists s',
    make_request fuel url params s =
      (Ret match answer s n with
           | Status200 _ json => Some json
           | _ => None
           end, s') /\
    net_pos (snd s') = net_pos (snd s) + S n /\
    request_count (fst s') = request_count (fst s) + S n /\
    fs (snd s') = fs (snd s).
Proof.
  intros Hc Hretry Hlast Hfuel.
  destruct (make_request_decided n fuel url params s Hc Hretry Hlast Hfuel)
    as (s' & E & _ & _ & Hp & _ & Hf & Hrc).
  exists s'. repeat split; assumption.
Qed.

(** X8: two or more rate-limit answers use up the timeout retries of a
    listing request: the attempt counter is shared, so the first timeout
    after them ends the request with [None], without a retry. *)
Theorem rate_limits_use_up_timeout_retries (n fuel : nat) url params (s : State) :
  calm s ->
  2 <= n ->
  (forall k, k < n -> answer s k = Status429) ->
  answer s n = Timeout ->
  n < fuel ->
  exists s',
    make_request fuel url params s = (Ret None, s') /\
    net_pos (snd s') = net_pos (snd s) + S n.
Proof.
  intros Hc Hn H429 Ht Hfuel.
  destruct (make_request_decided n fuel url params s Hc) as (s' & E & _ & _ & Hp & _).
  - intros k Hk. now rewrite H429.
  - rewrite Ht. cbn [listing_retries]. apply Nat.ltb_ge. lia.
  - exact Hfuel.
  - rewrite Ht in E. now exists s'.
Qed.

(** X9: the outcome of a download, with no interrupt pending.  Of its
    three attempts each 429, each timeout met on attempt 1 or 2 and each
    error whose text contains "429" uses one; the first other answer ends
    the asking.  A timeout or an error returns [False], the files as they
    were.  A success leaves it to the write of the file (lines 152-155):
    when the write goes through the download returns [True] and the file
    exists; when the file cannot be opened it returns [False], the files
    as they were; when the write breaks after the file was opened it
    returns [False] and leaves the file behind; but a write error whose
    text holds "429" is taken for a rate limit (line 165) and uses the
    attempt: the download asks again when one is left and ends with [None]
    after the third.  When the answers use up all three attempts it
    returns [None] after three requests, the files as they were. *)
Theorem download_outcome (n : nat) (url filename : pystr) (s : State) :
  calm s ->
  (forall k, k < n -> download_retries 3 (1 + k) (answer s k) = true) ->
  (n < 3 ->
   download_retries 3 (1 + n) (answer s n) = false ->
   match answer s n with
   | Status200 _ _ =>
       match verdict_on (snd s) filename with
       | Written =>
           exists s',
             download_article_text url filename s = (Ret (Some true), s') /\
             net_pos (snd s') = net_pos (snd s) + S n /\
             fs (snd s') = fs (created filename (snd s))
       | Refused e =>
           if contains (lit "429") e then
             exists r s',
               download_article_text url filename s = (Ret r, s') /\
               if n <? 2 then net_pos (snd s) + S (S n) <= net_pos (snd s')
               else r = None /\ net_pos (snd s') = net_pos (snd s) + 3
           else
             exists s',
               download_article_text url filename s = (Ret (Some false), s') /\
               net_pos (snd s') = net_pos (snd s) + S n /\
               fs (snd s') = fs (snd s)
       | Broken e =>
           if contains (lit "429") e then
             exists r s',
               download_article_text url filename s = (Ret r, s') /\
               if n <? 2 then net_pos (snd s) + S (S n) <= net_pos (snd s')
               else r = None /\ net_pos (snd s') = net_pos (snd s) + 3
           else
             exists s',
               download_article_text url filename s = (Ret (Some false), s') /\
               net_pos (snd s') = net_pos (snd s) + S n /\
               fs (snd s') = fs (created filename (snd s))
       end
   | _ =>
       exists s',
         download_article_text url filename s = (Ret (Some false), s') /\
         net_pos (snd s') = net_pos (snd s) + S n /\
         fs (snd s') = fs (snd s)
   end) /\
  (n = 3 ->
   exists s',
     download_article_text url filename s = (Ret None, s') /\
     net_pos (snd s') = net_pos (snd s) + 3 /\
     fs (snd s') = fs (snd s)).
Proof.
  intros Hc Hretry.
  destruct (download_decided n url filename s Hc Hretry) as [H1 H2]. split.
  2: { intros Hn. destruct (H2 Hn) as (s' & E & _ & _ & Hp & Hf).
       exists s'. repeat split; assumption. }
  intros Hn Hlast.
  destruct (H1 Hn Hlast) as (s1 & Hc1 & Hn1 & Hp1 & Hf1 & Hd1 & Hdp1 & _ & E).
  assert (Hv : verdict_on (snd s1) filename = verdict_on (snd s) filename)
    by now apply verdict_on_congr.
  assert (Hround : forall w1,
            interrupt_in w1 = None -> net_pos w1 = net_pos (snd s1) ->
            exists r s',
              (handle_429_error (1 + n) ;;
               download_loop (2 - n) url filename 3 (S (1 + n))) (fst s1, w1)
                = (Ret r, s') /\
              if n <? 2 then net_pos (snd s) + S (S n) <= net_pos (snd s')
              else r = None /\ net_pos (snd s') = net_pos (snd s) + 3).
  { intros w1 Hi Hpw.
    destruct (handle_429_error_calm (1 + n) (fst s1, w1) Hi) as (s2 & E2 & Hbo).
    run E2. destruct Hbo as (Hc2 & _ & Hp2 & _). cbn [snd] in Hp2.
    destruct (n <? 2) eqn:En.
    - apply Nat.ltb_lt in En.
      destruct (download_loop_returns (2 - n) url filename 3 (S (1 + n)) s2 Hc2)
        as (r & s' & m & E3 & _ & _ & Hp3 & Hm & _).
      exists r, s'. split; [exact E3|]. specialize (Hm ltac:(lia) ltac:(lia)). lia.
    - apply Nat.ltb_ge in En. replace (2 - n) with 0 by lia. cbn [download_loop].
      exists None, s2. split; [reflexivity|]. split; [reflexivity | lia]. }
  destruct (answer s n) as [| body json | |msg]; try (now exists s1).
  rewrite <- Hv. rewrite E.
  destruct (verdict_on (snd s1) filename) as [|e|e] eqn:Ev.
  - run (try_write_calm filename s1 Hc1 Ev).
    eexists. split; [reflexivity|]. cbn [fst snd]. split; [exact Hp1|].
    apply created_fs_congr. exact Hf1.
  - destruct (try_write_fails filename s1 Hc1)
      as (e' & w1 & Hor & Ew & Hi & _ & Hpw & _ & _ & _ & _ & Hfw); [congruence|].
    run Ew. rewrite Ev in Hor, Hfw.
    assert (e' = e) by (destruct Hor as [Hor | Hor]; congruence). subst e'.
    destruct (contains (lit "429") e); [now apply Hround|].
    eexists. split; [reflexivity|]. cbn [fst snd]. split; [lia | congruence].
  - destruct (try_write_fails filename s1 Hc1)
      as (e' & w1 & Hor & Ew & Hi & _ & Hpw & _ & _ & _ & _ & Hfw); [congruence|].
    run Ew. rewrite Ev in Hor, Hfw.
    assert (e' = e) by (destruct Hor as [Hor | Hor]; congruence). subst e'.
    destruct (contains (lit "429") e); [now apply Hround|].
    eexists. split; [reflexivity|]. cbn [fst snd]. split; [lia|].
    rewrite Hfw. apply created_fs_congr. exact Hf1.
Qed.

Lemma listing_request_outcome_witness :
  calm thrice_limited /\
  exists s',
    make_request 4 listing_url [] thrice_limited = (Ret (Some no_payload), s') /\
    net_pos (snd s') = 4 /\ request_count (fst s') = 4.
Proof.
  split; [reflexivity|].
  assert (H : forall k, k < 3 ->
                listing_retries (1 + k) (answer thrice_limited k) = true).
  { intros [|[|[|k]]] Hk; try reflexivity. lia. }
  destruct (listing_request_outcome 3 4 listing_url [] thrice_limited
              eq_refl H eq_refl (le_n 4)) as (s' & E & Hp & Hrc & _).
  exists s'. repeat split; assumption.
Defined.

Lemma rate_limits_use_up_timeout_retries_witness :
  calm limited_then_silent /\
  exists s',
    make_request 5 listing_url [] limited_then_silent = (Ret None, s') /\
    net_pos (snd s') = 3.
Proof.
  split; [reflexivity|].
  assert (H : forall k, k < 2 -> answer limited_then_silent k = Status429).
  { intros [|[|k]] Hk; try reflexivity. lia. }
  exact (rate_limits_use_up_timeout_retries 2 5 listing_url [] limited_then_silent
           eq_refl (le_n 2) H eq_refl ltac:(lia)).
Defined.

Lemma download_outcome_witness :
  calm prayer_then_answers /\
  (exists s',
     download_article_text (lit "https://www.congress.gov/a.htm") (lit "nowhere/a.html")
       prayer_then_answers = (Ret (Some false), s') /\
     net_pos (snd s') = 1 /\ fs (snd s') = fs (snd prayer_then_answers)) /\
  (exists s',
     download_article_text (lit "https://www.congress.gov/a.htm") (lit "out/a.html")
       never_in_time = (Ret (Some false), s') /\
     net_pos (snd s') = 3 /\ fs (snd s') = []).
Proof.
  split; [reflexivity|]. split.
  - exact (proj1 (download_outcome 0 (lit "https://www.congress.gov/a.htm")
                    (lit "nowhere/a.html") prayer_then_answers eq_refl
                    (fun k Hk => False_ind _ (Nat.nlt_0_r k Hk)))
             (Nat.lt_0_succ 2) eq_refl).
  - assert (H : forall k, k < 2 ->
                  download_retries 3 (1 + k) (answer never_in_time k) = true).
    { intros [|[|k]] Hk; try reflexivity. lia. }
    exact (proj1 (download_outcome 2 (lit "https://www.congress.gov/a.htm")
                    (lit "out/a.html") never_in_time eq_refl H)
             (le_n 3) eq_refl).
Defined.

(** The text of a failed [open] holds the path, and a write error is
    taken for a rate limit when its text holds "429": into a directory
    that is missing, the page of a title with "429" in it is asked for
    three times and the download ends with [None], where another title
    gets [False] after one request. *)
Example path_with_429_is_asked_for_again :
  let url := lit "https://www.congress.gov/a.htm" in
  let plain := download_article_text url (lit "nowhere/H.R. 42.html")
                 prayer_then_answers in
  let odd := download_article_text url (lit "nowhere/H.R. 429.html")
               prayer_then_answers in
  fst plain = Ret (Some false) /\ net_pos (snd (snd plain)) = 1 /\
  fst odd = Ret None /\ net_pos (snd (snd odd)) = 3 /\
  fs (snd (snd odd)) = fs (snd prayer_then_answers).
Proof. vm_compute. repeat split. Qed.

(** X10: requests are stamped at least one second apart.  Whatever the
    clock and the stamp of the last request were, a listing request or a
    download that makes [m] requests moves [last_request_time] on by [m]
    seconds or more: every request waits for the second after the stamp
    of the one before, the first one included.  A download makes the
    [n + 1] requests its answers call for, and [extra] more only when the
    write of the file fails with an error whose text holds "429". *)
Theorem requests_a_second_apart (n : nat) (s : State) :
  calm s ->
  (forall fuel url params,
     (forall k, k < n -> listing_retries (1 + k) (answer s k) = true) ->
     listing_retries (1 + n) (answer s n) = false ->
     n < fuel ->
     exists r s',
       make_request fuel url params s = (Ret r, s') /\
       net_pos (snd s') = net_pos (snd s) + S n /\
       (last_request_time (fst s) + inject_Z (Z.of_nat (S n))
          <= last_request_time (fst s'))%Q) /\
  (forall url filename,
     (forall k, k < n -> download_retries 3 (1 + k) (answer s k) = true) ->
     download_retries 3 (1 + n) (answer s n) = false ->
     n < 3 ->
     exists r s' extra,
       download_article_text url filename s = (Ret r, s') /\
       net_pos (snd s') = net_pos (snd s) + (S n + extra) /\
       (last_request_time (fst s) + inject_Z (Z.of_nat (S n + extra))
          <= last_request_time (fst s'))%Q /\
       (match answer s n with
        | Status200 _ _ =>
            forall e, verdict_on (snd s) filename = Refused e \/
                      verdict_on (snd s) filename = Broken e ->
                      contains (lit "429") e = false
        | _ => True
        end -> extra = 0)).
Proof.
  intros Hc. split.
  - intros fuel url params Hretry Hlast Hfuel. unfold make_request.
    replace fuel with (n + S (fuel - S n)) by lia.
    destruct (make_request_loop_skip n (S (fuel - S n)) url params 1 s Hc Hretry)
      as (s2 & p2 & -> & Hc2 & Hn2 & Hp2 & _ & _ & _ & Hl2).
    destruct (make_request_loop_calm_stamped (fuel - S n) url p2 (1 + n) s2 Hc2)
      as (s3 & p3 & Hatt & Hl3 & ->).
    destruct Hatt as (_ & _ & Hp3 & _).
    assert (Hsp : (last_request_time (fst s) + inject_Z (Z.of_nat (S n))
                     <= last_request_time (fst s3))%Q)
      by (rewrite Qnat_succ; lra).
    unfold answer in Hlast. rewrite Hn2, Hp2.
    destruct (snd (net (snd s) (net_pos (snd s) + n))) as [| body json | |msg];
      cbn [listing_retries] in Hlast; try discriminate; rewrite ?Hlast;
      eexists; exists s3; (split; [reflexivity|]); split; try exact Hsp; lia.
  - intros url filename Hretry Hlast Hn.
    destruct (proj1 (download_decided n url filename s Hc Hretry) Hn Hlast)
      as (s1 & Hc1 & Hn1 & Hp1 & Hf1 & Hd1 & Hdp1 & Hl1 & E).
    assert (Hv : verdict_on (snd s1) filename = verdict_on (snd s) filename)
      by now apply verdict_on_congr.
    assert (Hstop : forall (r : option bool) s2,
              net_pos (snd s2) = net_pos (snd s1) -> fst s2 = fst s1 ->
              exists r' s' extra,
                (Ret r, s2) = (@Ret (option bool) r', s') /\
                net_pos (snd s') = net_pos (snd s) + (S n + extra) /\
                (last_request_time (fst s) + inject_Z (Z.of_nat (S n + extra))
                   <= last_request_time (fst s'))%Q /\
                extra = 0).
    { intros r s2 Hp2 Hu2. exists r, s2, 0. split; [reflexivity|].
      rewrite Nat.add_0_r, Hu2. split; [lia|]. split; [exact Hl1 | reflexivity]. }
    rewrite E.
    destruct (answer s n) as [| body json | |msg].
    1, 3, 4: destruct (Hstop (Some false) s1 eq_refl eq_refl)
               as (r & s' & extra & E1 & Hp & Hl & H0);
             exists r, s', extra; (split; [exact E1|]); (split; [exact Hp|]);
             (split; [exact Hl|]); intros _; exact H0.
    destruct (verdict_on (snd s1) filename) as [|e|e] eqn:Ev.
    { run (try_write_calm filename s1 Hc1 Ev).
      destruct (Hstop (Some true) (fst s1, created filename (opened (snd s1)))
                  eq_refl eq_refl) as (r & s' & extra & E1 & Hp & Hl & H0).
      exists r, s', extra. split; [exact E1|]. split; [exact Hp|].
      split; [exact Hl|]. intros _. exact H0. }
    all: destruct (try_write_fails filename s1 Hc1)
           as (e' & w1 & Hor & Ew & Hi & _ & Hpw & _); [congruence|];
         run Ew;
         destruct (contains (lit "429") e') eqn:E429;
         [| destruct (Hstop (Some false) (fst s1, w1) Hpw eq_refl)
              as (r & s' & extra & E1 & Hp & Hl & H0);
            exists r, s', extra; (split; [exact E1|]); (split; [exact Hp|]);
            (split; [exact Hl|]); intros _; exact H0 ].
    all: destruct (handle_429_error_calm (1 + n) (fst s1, w1) Hi) as (s2 & E2 & Hbo);
         pose proof (handle_429_error_keeps_stamp _ _ _ E2) as Hl2;
         run E2; destruct Hbo as (Hc2 & _ & Hp2 & _); cbn [fst snd] in Hp2, Hl2;
         destruct (download_loop_returns (2 - n) url filename 3 (S (1 + n)) s2 Hc2)
           as (r & s' & m & E3 & _ & _ & Hp3 & _ & Hl3);
         exists r, s', m; (split; [exact E3|]); (split; [lia|]); split;
         [ rewrite Nat2Z.inj_add, inject_Z_plus; rewrite Hl2 in Hl3; lra
         | intros H; rewrite Ev in Hor; rewrite <- Hv in H;
           specialize (H e' Hor); congruence ].
Qed.

Lemma requests_a_second_apart_witness :
  calm thrice_limited /\
  exists r s',
    make_request 4 listing_url [] thrice_limited = (Ret r, s') /\
    net_pos (snd s') = 4 /\
    (last_request_time (fst thrice_limited) + inject_Z 4
       <= last_request_time (fst s'))%Q.
Proof.
  split; [reflexivity|].
  assert (H : forall k, k < 3 ->
                listing_retries (1 + k) (answer thrice_limited k) = true).
  { intros [|[|[|k]]] Hk; try reflexivity. lia. }
  exact (proj1 (requests_a_second_apart 3 thrice_limited eq_refl)
           4 listing_url [] H eq_refl (le_n 4)).
Defined.

(** ** The controller: what is skipped, what a pass leaves behind *)

Lemma downloadable_url (sa : section_article) :
  downloadable sa = true ->
  exists c u, find_formatted_text_url (text sa) = Some (c :: u).
Proof.
  unfold downloadable. destruct (find_formatted_text_url (text sa)) as [[|c u]|];
    try discriminate. intros _. now exists c, u.
Qed.

Lemma not_downloadable_url (sa : section_article) :
  downloadable sa = false ->
  match find_formatted_text_url (text sa) with
  | Some (_ :: _) => False
  | _ => True
  end.
Proof.
  unfold downloadable. now destruct (find_formatted_text_url (text sa)) as [[|c u]|].
Qed.

Lemma download_section_articles_present out iss (sas : list section_article) :
  forall i n s,
  (forall p, In p (section_paths out iss i sas) -> in_fs (snd s) p = true) ->
  download_section_articles out iss i sas n s = (Ret n, s).
Proof.
  induction sas as [|sa sas IH]; intros i n s H; [reflexivity|].
  cbn [download_section_articles]. cbn [section_paths] in H.
  destruct (downloadable sa) eqn:Ed.
  - destruct (downloadable_url sa Ed) as (c & u & ->).
    unfold path_exists, get_world. unfold bind at 1 2. unfold ret at 1.
    cbn [fst snd]. fold (in_fs (snd s) (artifact_path out iss (title_of i sa))).
    rewrite (H (artifact_path out iss (title_of i sa))) by (now left).
    apply IH. intros p Hp. apply H. now right.
  - pose proof (not_downloadable_url sa Ed) as Hu.
    destruct (find_formatted_text_url (text sa)) as [[|c u]|]; try contradiction;
      apply IH; intros p Hp; apply H; exact Hp.
Qed.

(** X11: what is on disk is not downloaded again: over a listing all of
    whose derived paths exist, the download loops ask nothing and write
    nothing; the state is as it was and no download is counted. *)
Theorem present_artifacts_are_skipped out iss (arts : list article) :
  forall n s,
  (forall p, In p (derived_paths out iss arts) -> in_fs (snd s) p = true) ->
  download_articles out iss arts n s = (Ret n, s).
Proof.
  induction arts as [|a arts IH]; intros n s H; [reflexivity|].
  cbn [download_articles]. unfold derived_paths in H. cbn [flat_map] in H.
  rewrite (bind_Ret _ _ _ _ _ _ _
             (download_section_articles_present out iss (sectionArticles a) 0 n s
                (fun p Hp => H p (in_or_app _ _ p (or_introl Hp))))).
  apply IH. intros p Hp. apply H. apply in_or_app. now right.
Qed.

Lemma present_artifacts_are_skipped_witness :
  (forall p, In p (derived_paths records issue_170_45
                     [mkArticle None [with_url; without_url]]) ->
             in_fs (snd prayer_on_disk) p = true) /\
  download_articles records issue_170_45 [mkArticle None [with_url; without_url]] 0
    prayer_on_disk = (Ret 0, prayer_on_disk).
Proof.
  assert (H : forall p, In p (derived_paths records issue_170_45
                                [mkArticle None [with_url; without_url]]) ->
                        in_fs (snd prayer_on_disk) p = true).
  { intros p [<- | []]. vm_compute. reflexivity. }
  split; [exact H|].
  exact (present_artifacts_are_skipped records issue_170_45
           [mkArticle None [with_url; without_url]] 0 prayer_on_disk H).
Defined.

Lemma in_fs_created_mono (p q : pystr) (w : World) :
  in_fs w q = true -> in_fs (created p w) q = true.
Proof.
  unfold in_fs, created. simpl. intros H.
  destruct (existsb (PyStr.eqb p) (fs w)); [exact H|].
  rewrite existsb_app, H. reflexivity.
Qed.

Lemma in_fs_created_inv (p q : pystr) (w : World) :
  in_fs (created p w) q = true -> in_fs w q = true \/ q = p.
Proof.
  unfold in_fs, created. simpl.
  destruct (existsb (PyStr.eqb p) (fs w)); [now left|].
  rewrite existsb_app. cbn [existsb]. rewrite orb_false_r.
  intros H. apply orb_true_iff in H as [H | H]; [now left|].
  right. now apply pystr_eqb_eq.
Qed.

Lemma in_fs_congr (w1 w2 : World) (p : pystr) :
  fs w1 = fs w2 -> in_fs w1 p = in_fs w2 p.
Proof. unfold in_fs. now intros ->. Qed.

Lemma section_paths_artifacts out iss (sas : list section_article) :
  forall i p, In p (section_paths out iss i sas) ->
  exists t, p = artifact_path out iss t.
Proof.
  induction sas as [|sa sas IH]; intros i p; cbn [section_paths]; [contradiction|].
  intros H. apply in_app_or in H as [H | H]; [|eauto].
  destruct (downloadable sa); [|contradiction].
  destruct H as [<- | []]. eauto.
Qed.

Lemma succeed_for_shift (m d : nat) (s s1 : State) :
  succeed_for m s ->
  net (snd s1) = net (snd s) ->
  net_pos (snd s1) = net_pos (snd s) + d ->
  succeed_for (m - d) s1.
Proof.
  intros H Hn Hp k Hk. unfold answer. rewrite Hn, Hp.
  replace (net_pos (snd s) + d + k) with (net_pos (snd s) + (d + k)) by lia.
  apply H. lia.
Qed.

Lemma writes_succeed_shift (m d : nat) (s s1 : State) :
  writes_succeed m s ->
  disk (snd s1) = disk (snd s) ->
  disk_pos (snd s1) = disk_pos (snd s) + d ->
  writes_succeed (m - d) s1.
Proof.
  intros H Hd Hp k Hk. rewrite Hd, Hp.
  replace (disk_pos (snd s) + d + k) with (disk_pos (snd s) + (d + k)) by lia.
  apply H. lia.
Qed.

(** One missing article whose page is answered and whose two writes go
    through: the page and its sidecar are created, with one request and
    two operations on the disk. *)
Lemma download_and_describe out iss (url t : pystr) (s : State) body json :
  calm s ->
  answer s 0 = Status200 body json ->
  writes_succeed 2 s ->
  in_fs (snd s) (congress_dir_of out iss) = true ->
  no_slash (date_of iss) = true ->
  let path := artifact_path out iss t in
  exists s1 s2,
    download_article_text url path s = (Ret (Some true), s1) /\
    write_file (with_suffix_json path) s1 = (Ret tt, s2) /\
    calm s2 /\
    net (snd s2) = net (snd s) /\
    net_pos (snd s2) = net_pos (snd s) + 1 /\
    disk (snd s2) = disk (snd s) /\
    disk_pos (snd s2) = disk_pos (snd s) + 2 /\
    fs (snd s2) = fs (created (with_suffix_json path) (created path (snd s))).
Proof.
  intros Hc H200 Hw Hdir Hdate path.
  destruct (parent_of_artifact out iss t Hdate) as [Hpar Hpar'].
  fold path in Hpar, Hpar'.
  destruct (proj1 (download_decided 0 url path s Hc
                     (fun k Hk => False_ind _ (Nat.nlt_0_r k Hk)))
              ltac:(lia) ltac:(rewrite H200; reflexivity))
    as (s1 & Hc1 & Hn1 & Hp1 & Hf1 & Hd1 & Hdp1 & _ & E).
  rewrite H200 in E.
  assert (Hv1 : verdict_on (snd s1) path = Written).
  { apply verdict_written.
    - rewrite Hpar, (in_fs_congr _ _ _ Hf1). exact Hdir.
    - rewrite Hd1, Hdp1. rewrite <- (Nat.add_0_r (disk_pos (snd s))).
      apply Hw. lia. }
  rewrite (bind_Ret _ _ _ _ _ _ _ (try_write_calm path s1 Hc1 Hv1)) in E.
  set (s1' := (fst s1, created path (opened (snd s1)))) in *.
  assert (Hc1' : calm s1') by exact Hc1.
  assert (Hf1' : fs (snd s1') = fs (created path (snd s))).
  { unfold s1'. cbn [snd]. apply created_fs_congr. exact Hf1. }
  assert (Hv2 : verdict_on (snd s1') (with_suffix_json path) = Written).
  { apply verdict_written.
    - rewrite Hpar', (in_fs_congr _ _ _ Hf1'). now apply in_fs_created_mono.
    - unfold s1'. cbn [snd created opened disk disk_pos].
      rewrite Hd1, Hdp1. rewrite <- Nat.add_1_r. apply Hw. lia. }
  exists s1', (fst s1', created (with_suffix_json path) (opened (snd s1'))).
  split; [exact E|].
  split; [exact (write_file_calm _ s1' Hc1' Hv2)|].
  split; [exact Hc1|]. unfold s1'.
  cbn [fst snd created opened net net_pos disk disk_pos].
  split; [exact Hn1|]. split; [lia|]. split; [exact Hd1|]. split; [lia|].
  apply created_fs_congr. exact Hf1'.
Qed.

Lemma download_section_articles_succeed out iss (sas : list section_article) :
  forall i n m s,
  calm s -> succeed_for m s -> writes_succeed (2 * m) s ->
  in_fs (snd s) (congress_dir_of out iss) = true ->
  no_slash (date_of iss) = true ->
  length (section_paths out iss i sas) <= m ->
  exists s',
    download_section_articles out iss i sas n s
      = (Ret (n + (net_pos (snd s') - net_pos (snd s))), s') /\
    calm s' /\
    net (snd s') = net (snd s) /\
    net_pos (snd s) <= net_pos (snd s') /\
    net_pos (snd s') <= net_pos (snd s) + length (section_paths out iss i sas) /\
    disk (snd s') = disk (snd s) /\
    disk_pos (snd s') = disk_pos (snd s) + 2 * (net_pos (snd s') - net_pos (snd s)) /\
    (forall p, in_fs (snd s) p = true -> in_fs (snd s') p = true) /\
    (forall p, In p (section_paths out iss i sas) -> in_fs (snd s') p = true) /\
    (forall t, in_fs (snd s) (artifact_path out iss t) = false ->
       in_fs (snd s') (artifact_path out iss t) = true ->
       in_fs (snd s') (with_suffix_json (artifact_path out iss t)) = true).
Proof.
  induction sas as [|sa sas IH]; intros i n m s Hc Hall Hw Hdir Hdate Hm.
  - exists s. rewrite Nat.sub_diag, Nat.add_0_r.
    repeat split; auto; try contradiction; try congruence; cbn; lia.
  - cbn [download_section_articles section_paths]. cbn [section_paths] in Hm.
    destruct (downloadable sa) eqn:Ed.
    + destruct (downloadable_url sa Ed) as (c & u & ->).
      set (path := artifact_path out iss (title_of i sa)) in *.
      cbn [app length] in Hm |- *.
      unfold path_exists, get_world. unfold bind at 1 2. unfold ret at 1.
      cbn [fst snd]. fold (in_fs (snd s) path).
      destruct (in_fs (snd s) path) eqn:Epath.
      * destruct (IH (S i) n m s Hc Hall Hw Hdir Hdate ltac:(lia))
          as (s' & E & Hc' & Hn' & Hle & Hub & Hd' & Hdp' & Hmono & Hpaths & Hside).
        exists s'. split; [exact E|]. repeat split; auto; try lia.
        intros p [<- | Hp]; [now apply Hmono | now apply Hpaths].
      * destruct (Hall 0 ltac:(lia)) as (body & json & H200).
        destruct (download_and_describe out iss (c :: u) (title_of i sa) s body json
                    Hc H200 ltac:(intros k Hk; apply Hw; lia) Hdir Hdate)
          as (s1 & s2 & E1 & E2 & Hc2 & Hn2 & Hp2 & Hd2 & Hdp2 & Hf2).
        fold path in E1, E2, Hf2.
        run E1. run E2.
        assert (Hall2 : succeed_for (m - 1) s2)
          by exact (succeed_for_shift m 1 s s2 Hall Hn2 Hp2).
        assert (Hw2 : writes_succeed (2 * (m - 1)) s2).
        { replace (2 * (m - 1)) with (2 * m - 2) by lia.
          exact (writes_succeed_shift (2 * m) 2 s s2 Hw Hd2 Hdp2). }
        assert (Hmono1 : forall p, in_fs (snd s) p = true -> in_fs (snd s2) p = true).
        { intros p Hp. rewrite (in_fs_congr _ _ p Hf2).
          now apply in_fs_created_mono, in_fs_created_mono. }
        assert (Hin1 : in_fs (snd s2) path = true).
        { rewrite (in_fs_congr _ _ path Hf2).
          apply in_fs_created_mono, created_in_fs. }
        assert (Hside2 : in_fs (snd s2) (with_suffix_json path) = true).
        { rewrite (in_fs_congr _ _ _ Hf2). apply created_in_fs. }
        destruct (IH (S i) (S n) (m - 1) s2 Hc2 Hall2 Hw2 (Hmono1 _ Hdir) Hdate
                    ltac:(lia))
          as (s' & E & Hc' & Hn' & Hle & Hub & Hd' & Hdp' & Hmono & Hpaths & Hside).
        exists s'. split; [rewrite E; f_equal; f_equal; lia|].
        split; [exact Hc'|]. split; [now rewrite Hn'|]. split; [lia|].
        split; [lia|]. split; [congruence|]. split; [lia|].
        split; [auto|]. split.
        -- intros p [<- | Hp]; [now apply Hmono | now apply Hpaths].
        -- intros t Hnot Hin.
           destruct (in_fs (snd s2) (artifact_path out iss t)) eqn:E3; [|now apply Hside].
           rewrite (in_fs_congr _ _ _ Hf2) in E3.
           apply in_fs_created_inv in E3 as [E3 | E3].
           ++ apply in_fs_created_inv in E3 as [E3 | E3]; [congruence|].
              rewrite E3. now apply Hmono.
           ++ exfalso. symmetry in E3.
              exact (sidecar_not_artifact out iss out iss _ t E3).
    + pose proof (not_downloadable_url sa Ed) as Hu.
      cbn [app] in Hm |- *.
      destruct (find_formatted_text_url (text sa)) as [[|c u]|]; try contradiction;
        apply (IH (S i) n m s Hc Hall Hw Hdir Hdate Hm).
Qed.

Lemma section_paths_length out iss (sas : list section_article) :
  forall i, length (section_paths out iss i sas) = length (filter downloadable sas).
Proof.
  induction sas as [|sa sas IH]; intros i; cbn [section_paths filter]; [reflexivity|].
  rewrite length_app, IH. now destruct (downloadable sa).
Qed.

Lemma derived_paths_length out iss (arts : list article) :
  length (derived_paths out iss arts)
  = length (filter downloadable (all_section_articles arts)).
Proof.
  unfold derived_paths, all_section_articles.
  induction arts as [|a arts IH]; cbn [flat_map]; [reflexivity|].
  now rewrite filter_app, !length_app, IH, section_paths_length.
Qed.

Lemma count_true_all (f : pystr -> bool) (l : list pystr) :
  (forall p, In p l -> f p = true) -> count_true f l = length l.
Proof.
  unfold count_true. induction l as [|p l IH]; intros H; cbn [filter]; [reflexivity|].
  rewrite (H p (or_introl eq_refl)). cbn [length]. f_equal.
  apply IH. intros q Hq. apply H. now right.
Qed.

(** X12: a pass whose downloads are all answered and written.  With no
    interrupt pending, the congress directory there, a date without '/',
    as many successes ahead as the listing has downloadable entries and
    twice as many operations on the disk that go through, the download
    loop of [process_issue] returns; its count of new downloads is the
    number of requests it sent, at most one for each derived path, with
    two writes for each; no path that existed is lost; every path derived
    from the listing exists afterwards, and each one that was missing has
    its sidecar; so the completeness counts of lines 201-225, taken over
    the same listing afterwards, are equal: existing = total. *)
Theorem answered_pass_completes out iss (arts : list article) :
  forall n s,
  calm s ->
  succeed_for (length (derived_paths out iss arts)) s ->
  writes_succeed (2 * length (derived_paths out iss arts)) s ->
  in_fs (snd s) (congress_dir_of out iss) = true ->
  no_slash (date_of iss) = true ->
  exists s',
    download_articles out iss arts n s
      = (Ret (n + (net_pos (snd s') - net_pos (snd s))), s') /\
    net_pos (snd s') <= net_pos (snd s) + length (derived_paths out iss arts) /\
    disk_pos (snd s') = disk_pos (snd s) + 2 * (net_pos (snd s') - net_pos (snd s)) /\
    (forall p, in_fs (snd s) p = true -> in_fs (snd s') p = true) /\
    (forall p, In p (derived_paths out iss arts) ->
       in_fs (snd s') p = true /\
       (in_fs (snd s) p = false -> in_fs (snd s') (with_suffix_json p) = true)) /\
    fst (count_articles (in_fs (snd s')) out iss arts (0, 0))
    = snd (count_articles (in_fs (snd s')) out iss arts (0, 0)).
Proof.
  assert (H : forall n m s, calm s -> succeed_for m s -> writes_succeed (2 * m) s ->
    in_fs (snd s) (congress_dir_of out iss) = true ->
    no_slash (date_of iss) = true ->
    length (derived_paths out iss arts) <= m ->
    exists s',
      download_articles out iss arts n s
        = (Ret (n + (net_pos (snd s') - net_pos (snd s))), s') /\
      calm s' /\ net (snd s') = net (snd s) /\
      net_pos (snd s) <= net_pos (snd s') /\
      net_pos (snd s') <= net_pos (snd s) + length (derived_paths out iss arts) /\
      disk (snd s') = disk (snd s) /\
      disk_pos (snd s') = disk_pos (snd s) + 2 * (net_pos (snd s') - net_pos (snd s)) /\
      (forall p, in_fs (snd s) p = true -> in_fs (snd s') p = true) /\
      (forall p, In p (derived_paths out iss arts) -> in_fs (snd s') p = true) /\
      (forall t, in_fs (snd s) (artifact_path out iss t) = false ->
         in_fs (snd s') (artifact_path out iss t) = true ->
         in_fs (snd s') (with_suffix_json (artifact_path out iss t)) = true)).
  { induction arts as [|a arts IH]; intros n m s Hc Hall Hw Hdir Hdate Hm.
    - exists s. rewrite Nat.sub_diag, Nat.add_0_r.
      repeat split; auto; try contradiction; try congruence; cbn; lia.
    - cbn [download_articles]. unfold derived_paths in Hm |- *.
      cbn [flat_map] in Hm |- *. rewrite length_app in Hm |- *.
      fold (derived_paths out iss arts) in Hm |- *.
      destruct (download_section_articles_succeed out iss (sectionArticles a) 0 n m s
                  Hc Hall Hw Hdir Hdate ltac:(lia))
        as (s1 & E1 & Hc1 & Hn1 & Hle1 & Hub1 & Hd1 & Hdp1 & Hmono1 & Hpaths1 & Hside1).
      run E1.
      assert (Hall1 : succeed_for (m - (net_pos (snd s1) - net_pos (snd s))) s1)
        by (apply (succeed_for_shift m _ s s1 Hall Hn1); lia).
      assert (Hw1 : writes_succeed (2 * (m - (net_pos (snd s1) - net_pos (snd s)))) s1).
      { replace (2 * (m - (net_pos (snd s1) - net_pos (snd s))))
          with (2 * m - 2 * (net_pos (snd s1) - net_pos (snd s))) by lia.
        exact (writes_succeed_shift (2 * m) _ s s1 Hw Hd1 Hdp1). }
      destruct (IH (n + (net_pos (snd s1) - net_pos (snd s))) _ s1 Hc1 Hall1 Hw1
                  (Hmono1 _ Hdir) Hdate ltac:(lia))
        as (s' & E & Hc' & Hn' & Hle & Hub & Hd' & Hdp' & Hmono & Hpaths & Hside).
      exists s'. split; [rewrite E; f_equal; f_equal; lia|].
      split; [exact Hc'|]. split; [congruence|]. split; [lia|]. split; [lia|].
      split; [congruence|]. split; [lia|].
      split; [auto|]. split.
      + intros p Hp. apply in_app_or in Hp as [Hp | Hp]; [auto | now apply Hpaths].
      + intros t Hnot Hin.
        destruct (in_fs (snd s1) (artifact_path out iss t)) eqn:E2; auto. }
  intros n s Hc Hall Hw Hdir Hdate.
  destruct (H n _ s Hc Hall Hw Hdir Hdate (le_n _))
    as (s' & E & _ & _ & _ & Hub & _ & Hdp & Hmono & Hpaths & Hside).
  assert (Hart : forall p, In p (derived_paths out iss arts) ->
                 exists t, p = artifact_path out iss t).
  { intros p Hp. unfold derived_paths in Hp. apply in_flat_map in Hp as (a & _ & Hp).
    exact (section_paths_artifacts out iss _ _ _ Hp). }
  exists s'. split; [exact E|]. split; [exact Hub|]. split; [exact Hdp|].
  split; [exact Hmono|]. split.
  - intros p Hp. split; [now apply Hpaths|].
    intros Hnot. destruct (Hart p Hp) as (t & ->).
    apply Hside; [exact Hnot | now apply Hpaths].
  - rewrite count_articles_spec. cbn [fst snd plus].
    rewrite count_true_all by (intros p Hp; now apply Hpaths).
    symmetry. apply derived_paths_length.
Qed.

Lemma answered_pass_completes_witness :
  calm prayer_then_answers /\
  succeed_for
    (length (derived_paths records issue_170_45
               [mkArticle None [with_url; without_url; second_article]]))
    prayer_then_answers /\
  in_fs (snd prayer_then_answers) (congress_dir_of records issue_170_45) = true /\
  exists s',
    download_articles records issue_170_45
      [mkArticle None [with_url; without_url; second_article]] 0 prayer_then_answers
      = (Ret 1, s') /\
    in_fs (snd s') (artifact_path records issue_170_45 (lit "MORNING BUSINESS")) = true.
Proof.
  assert (Hc : calm prayer_then_answers) by reflexivity.
  assert (Hall : succeed_for
    (length (derived_paths records issue_170_45
               [mkArticle None [with_url; without_url; second_article]]))
    prayer_then_answers).
  { intros k Hk. exists (lit "<html></html>"), no_payload.
    change (length _) with 2 in Hk.
    destruct k as [|[|k]]; [reflexivity | reflexivity | lia]. }
  assert (Hw : writes_succeed
    (2 * length (derived_paths records issue_170_45
                   [mkArticle None [with_url; without_url; second_article]]))
    prayer_then_answers) by (intros k _; reflexivity).
  assert (Hdir : in_fs (snd prayer_then_answers) (congress_dir_of records issue_170_45)
                 = true) by (vm_compute; reflexivity).
  split; [exact Hc|]. split; [exact Hall|]. split; [exact Hdir|].
  destruct (answered_pass_completes records issue_170_45
              [mkArticle None [with_url; without_url; second_article]] 0
              prayer_then_answers Hc Hall Hw Hdir eq_refl)
    as (s' & E & Hub & Hdp & Hmono & Hpaths & Hcount).
  exists s'. split.
  - assert (E' : download_articles records issue_170_45
              [mkArticle None [with_url; without_url; second_article]] 0
              prayer_then_answers
            = (Ret 1, snd (download_articles records issue_170_45
              [mkArticle None [with_url; without_url; second_article]] 0
              prayer_then_answers))) by (vm_compute; reflexivity).
    pose proof E as E2. rewrite E' in E2. injection E2 as _ E3.
    rewrite E'. f_equal. exact E3.
  - apply Hpaths. vm_compute. right. left. reflexivity.
Defined.

(** ** What no step of a run does *)

Section Moves.

Variable R : State -> State -> Prop.

Hypothesis R_refl : forall s, R s s.
Hypothesis R_trans : forall s1 s2 s3, R s1 s2 -> R s2 s3 -> R s1 s3.
Hypothesis R_rotate :
  forall u w, R (u, w) (set_key_pos (S (key_pos u) mod length (api_keys u)) u, w).
Hypothesis R_request_count :
  forall u w n, R (u, w) (set_request_count n u, w).
Hypothesis R_last_request_time :
  forall u w t, R (u, w) (set_last_request_time t u, w).
Hypothesis R_consecutive :
  forall u w n, R (u, w) (set_consecutive n u, w).
Hypothesis R_interrupt :
  forall u w i, R (u, w) (u, set_interrupt i w).
Hypothesis R_slept :
  forall u w e, allowed_sleep u e -> R (u, w) (u, slept e w).
Hypothesis R_answered :
  forall u w url params, keyed u params -> R (u, w) (u, answered url params w).
Hypothesis R_created :
  forall u w p, R (u, w) (u, created p w).
Hypothesis R_saved_catalog :
  forall u w c, R (u, w) (u, saved_catalog c w).
Hypothesis R_opened :
  forall u w, R (u, w) (u, opened w).

Lemma moves_bind_at A B (m : M A) (f : A -> M B) (s : State) :
  R s (snd (m s)) ->
  (forall a s1, m s = (Ret a, s1) -> R s1 (snd (f a s1))) ->
  R s (snd (bind m f s)).
Proof.
  intros Hm Hf. unfold bind.
  destruct (m s) as [[a|e|] s1] eqn:E; cbn [snd] in *; try exact Hm.
  apply (R_trans _ s1); [exact Hm | now apply Hf].
Qed.

Lemma moves_bind A B (m : M A) (f : A -> M B) :
  moves R m -> (forall a, moves R (f a)) -> moves R (bind m f).
Proof. intros Hm Hf s. apply moves_bind_at; [apply Hm | intros a s1 _; apply Hf]. Qed.

Lemma moves_ret A (a : A) : moves R (ret a).
Proof. intros s. apply R_refl. Qed.

Lemma moves_raise A (e : exn) : moves R (@raise A e).
Proof. intros s. apply R_refl. Qed.

Lemma moves_out_of_fuel A : moves R (@out_of_fuel A).
Proof. intros s. apply R_refl. Qed.

Lemma moves_get_self : moves R get_self.
Proof. intros s. apply R_refl. Qed.

Lemma moves_get_world : moves R get_world.
Proof. intros s. apply R_refl. Qed.

Lemma moves_modify_self (f : Updater -> Updater) :
  (forall u w, R (u, w) (f u, w)) -> moves R (modify_self f).
Proof. intros H [u w]. apply H. Qed.

Lemma moves_modify_world (f : World -> World) :
  (forall u w, R (u, w) (u, f w)) -> moves R (modify_world f).
Proof. intros H [u w]. apply H. Qed.

Lemma moves_tick : moves R tick.
Proof.
  intros [u w]. unfold tick. cbn [fst snd].
  destruct (interrupt_in w) as [[|k]|]; cbn [snd]; auto.
Qed.

Lemma moves_elim A (m : M A) (s : State) : moves R m -> R s (snd (m s)).
Proof. intros H. apply H. Qed.

Ltac moves_step :=
  match goal with
  | |- moves _ (bind _ _) => apply moves_bind; [| intros ?]
  | |- moves _ (ret _) => apply moves_ret
  | |- moves _ (raise _) => apply moves_raise
  | |- moves _ out_of_fuel => apply moves_out_of_fuel
  | |- moves _ get_self => apply moves_get_self
  | |- moves _ get_world => apply moves_get_world
  | |- moves _ (modify_self _) => apply moves_modify_self; intros; auto
  | |- moves _ (modify_world _) => apply moves_modify_world; intros; auto
  | |- moves _ tick => apply moves_tick
  | |- moves _ (if ?c then _ else _) => destruct c
  | |- moves _ (match ?x with _ => _ end) => destruct x
  | |- moves _ (let '(_, _) := ?x in _) => destruct x
  end.

Ltac moves_auto := repeat (moves_step; try assumption); auto.

Lemma tick_self (s s1 : State) (o : outcome unit) :
  tick s = (o, s1) -> fst s1 = fst s.
Proof.
  destruct s as [u w]. unfold tick. cbn [fst snd].
  destruct (interrupt_in w) as [[|k]|]; intros E; inversion E; reflexivity.
Qed.

Lemma sleep_at e (s : State) :
  allowed_sleep (fst s) e -> R s (snd (sleep e s)).
Proof.
  intros Ha. unfold sleep.
  apply moves_bind_at; [apply moves_tick|]. intros [] [u1 w1] E.
  apply tick_self in E. cbn [fst] in E. subst u1.
  now apply R_slept.
Qed.

Lemma moves_sleep e : (forall u, allowed_sleep u e) -> moves R (sleep e).
Proof. intros H s. apply sleep_at, H. Qed.

Lemma moves_get_next_api_key : moves R get_next_api_key.
Proof. unfold get_next_api_key. moves_auto. Qed.

Lemma moves_handle_429_error attempt : moves R (handle_429_error attempt).
Proof.
  unfold handle_429_error. intros s.
  apply moves_bind_at; [apply R_refl|]. intros u s1 E. injection E as <- <-.
  destruct (1 <? length (api_keys (fst s))) eqn:Ek.
  - apply moves_elim. pose proof moves_get_next_api_key. moves_auto.
  - apply sleep_at. apply Nat.ltb_ge in Ek. exact Ek.
Qed.

Lemma moves_throttle : moves R throttle.
Proof.
  unfold throttle, time_time.
  pose proof (fun t => moves_sleep (ThrottleSleep t) (fun _ => I)).
  moves_auto.
Qed.

Lemma moves_retry_sleep : moves R (sleep RetrySleep).
Proof. apply moves_sleep. intros u. exact I. Qed.

Lemma moves_count_request every : moves R (count_request every).
Proof. unfold count_request. pose proof moves_get_next_api_key. moves_auto. Qed.

Lemma moves_stamp_request : moves R stamp_request.
Proof. unfold stamp_request, time_time. moves_auto. Qed.

Lemma moves_try_write p : moves R (try_write p).
Proof. unfold try_write. moves_auto. Qed.

Lemma moves_write_file p : moves R (write_file p).
Proof. unfold write_file. pose proof moves_try_write. moves_auto. Qed.

Lemma moves_mkdir p : moves R (mkdir p).
Proof. unfold mkdir. moves_auto. Qed.

Lemma moves_path_exists p : moves R (path_exists p).
Proof. unfold path_exists. moves_auto. Qed.

Lemma moves_save_catalog c : moves R (save_catalog c).
Proof. unfold save_catalog. moves_auto. Qed.

Lemma session_get_at url params (s : State) :
  keyed (fst s) params -> R s (snd (session_get url params s)).
Proof.
  intros Hk. unfold session_get.
  apply moves_bind_at; [apply moves_tick|]. intros [] [u1 w1] E.
  apply tick_self in E. cbn [fst] in E. subst u1. unfold get_world, modify_world, ret, bind. cbn [fst snd].
  now apply R_answered.
Qed.

Lemma moves_make_request_loop fuel url bound :
  forall params attempt, moves R (make_request_loop fuel url params bound attempt).
Proof.
  induction fuel as [|fuel IH]; intros params attempt; cbn [make_request_loop].
  - apply moves_out_of_fuel.
  - destruct (within attempt bound); [|apply moves_ret].
    apply moves_bind; [apply moves_throttle | intros _].
    apply moves_bind; [apply moves_count_request | intros _].
    intros s. apply moves_bind_at; [apply R_refl|]. intros u s1 E.
    injection E as <- <-.
    apply moves_bind_at; [apply moves_stamp_request|]. intros [] s2 E2.
    rewrite stamp_request_run in E2. injection E2 as <-.
    apply moves_bind_at.
    { apply session_get_at. right. apply get_set_param. }
    intros r s3 _. apply moves_elim.
    pose proof moves_handle_429_error. pose proof moves_retry_sleep.
    moves_auto.
Qed.

Lemma moves_get_articles_for_issue fuel v i :
  moves R (get_articles_for_issue fuel v i).
Proof.
  unfold get_articles_for_issue, make_request.
  pose proof moves_make_request_loop. moves_auto.
Qed.

Lemma moves_download_loop budget url filename max_retries :
  forall attempt, moves R (download_loop budget url filename max_retries attempt).
Proof.
  induction budget as [|budget IH]; intros attempt; cbn [download_loop].
  - apply moves_ret.
  - destruct (attempt <=? max_retries); [|apply moves_ret].
    apply moves_bind; [apply moves_throttle | intros _].
    apply moves_bind; [apply moves_count_request | intros _].
    apply moves_bind; [apply moves_stamp_request | intros _].
    intros s. apply moves_bind_at.
    { apply session_get_at. now left. }
    intros r s3 _. apply moves_elim.
    pose proof moves_handle_429_error. pose proof moves_retry_sleep.
    pose proof moves_try_write.
    moves_auto.
Qed.

Lemma moves_download_section_articles out iss sas :
  forall i n, moves R (download_section_articles out iss i sas n).
Proof.
  induction sas as [|sa sas IH]; intros i n; cbn [download_section_articles].
  - apply moves_ret.
  - pose proof moves_path_exists. pose proof moves_write_file.
    pose proof moves_download_loop. unfold download_article_text.
    moves_auto.
Qed.

Lemma moves_download_articles out iss arts :
  forall n, moves R (download_articles out iss arts n).
Proof.
  induction arts as [|a arts IH]; intros n; cbn [download_articles].
  - apply moves_ret.
  - pose proof moves_download_section_articles. moves_auto.
Qed.

Lemma moves_download_missing fuel iss out : moves R (download_missing fuel iss out).
Proof.
  unfold download_missing. pose proof moves_mkdir.
  pose proof moves_get_articles_for_issue. pose proof moves_download_articles.
  moves_auto.
Qed.

Lemma moves_check_issue_completeness fuel iss out :
  moves R (check_issue_completeness fuel iss out).
Proof.
  unfold check_issue_completeness. pose proof moves_path_exists.
  pose proof moves_get_articles_for_issue. moves_auto.
Qed.

Lemma moves_process_issue fuel iss out : moves R (process_issue fuel iss out).
Proof.
  unfold process_issue.
  pose proof moves_check_issue_completeness. pose proof moves_download_missing.
  apply moves_bind; [auto|]. intros [[c e] t]. moves_auto.
Qed.

Lemma moves_run_issues fuel out issues :
  forall totals, moves R (run_issues fuel out issues totals).
Proof.
  induction issues as [|iss issues IH]; intros totals s; cbn [run_issues].
  - apply R_refl.
  - pose proof (moves_process_issue fuel iss out s) as H.
    destruct (process_issue fuel iss out s) as [[[n stop]|[]|] s1]; cbn [snd] in *.
    + destruct stop; [exact H|]. apply (R_trans _ s1); [exact H | apply IH].
    + exact H.
    + apply (R_trans _ s1); [exact H | apply IH].
    + exact H.
Qed.

Lemma moves_fetch_loop parse fuel :
  forall start offset acc, moves R (fetch_loop parse fuel start offset acc).
Proof.
  induction fuel as [|fuel IH]; intros start offset acc; cbn [fetch_loop].
  - apply moves_out_of_fuel.
  - pose proof moves_make_request_loop. unfold make_request. moves_auto.
Qed.

Lemma moves_update_issues_file parse fuel : moves R (update_issues_file parse fuel).
Proof.
  unfold update_issues_file, fetch_recent_issues.
  pose proof (moves_fetch_loop parse). pose proof moves_save_catalog.
  moves_auto.
Qed.

End Moves.

(** X13: the synchronization keeps to the catalog.  Whatever its outcome
    (a result, an error, an interrupt), [update_issues_file] leaves the
    set of existing paths, the key list and the controller's counter and
    threshold as it found them. *)
Theorem synchronization_keeps_to_catalog parse fuel (s : State) :
  let s' := snd (update_issues_file parse fuel s) in
  fs (snd s') = fs (snd s) /\
  api_keys (fst s') = api_keys (fst s) /\
  the_controller s' = the_controller s.
Proof.
  pose (proj := fun s : State => (fs (snd s), api_keys (fst s), the_controller s)).
  assert (H : moves (fun s s' => proj s' = proj s) (update_issues_file parse fuel)).
  { apply moves_update_issues_file; try reflexivity.
    intros s1 s2 s3 H1 H2. now rewrite H2. }
  specialize (H s). cbv beta in H. cbv zeta.
  split; [exact (f_equal (fun x => fst (fst x)) H)|].
  split; [exact (f_equal (fun x => snd (fst x)) H) | exact (f_equal snd H)].
Qed.

Lemma keys_respected_refl (s : State) : keys_respected s s.
Proof.
  split; [reflexivity|]. intros H. split; [exact H|].
  exists []. split; [now rewrite app_nil_r | constructor].
Qed.

Lemma keys_respected_trans (s1 s2 s3 : State) :
  keys_respected s1 s2 -> keys_respected s2 s3 -> keys_respected s1 s3.
Proof.
  intros [K1 H1] [K2 H2]. split; [congruence|]. intros Hv.
  destruct (H1 Hv) as (Hv2 & new1 & E1 & F1).
  destruct (H2 Hv2) as (Hv3 & new2 & E2 & F2).
  split; [exact Hv3|]. exists (new1 ++ new2). split.
  - now rewrite E2, E1, app_assoc.
  - unfold requests_keyed in *. apply Forall_app. split; [exact F1|].
    now rewrite <- K1.
Qed.

Lemma keys_respected_same (s s' : State) :
  api_keys (fst s') = api_keys (fst s) ->
  key_pos (fst s') = key_pos (fst s) ->
  sent (snd s') = sent (snd s) ->
  keys_respected s s'.
Proof.
  intros K P S. split; [exact K|]. unfold valid_keys. rewrite K, P. intros H.
  split; [exact H|]. exists []. split; [now rewrite app_nil_r | constructor].
Qed.

Lemma keys_respected_rotate (u : Updater) (w : World) :
  keys_respected (u, w) (set_key_pos (S (key_pos u) mod length (api_keys u)) u, w).
Proof.
  split; [reflexivity|]. unfold valid_keys. cbn [fst snd set_key_pos key_pos api_keys].
  intros H. split.
  - apply Nat.mod_upper_bound. lia.
  - exists []. split; [now rewrite app_nil_r | constructor].
Qed.

Lemma keys_respected_answered (u : Updater) (w : World) url params :
  keyed u params -> keys_respected (u, w) (u, answered url params w).
Proof.
  intros Hk. split; [reflexivity|]. intros Hv. split; [exact Hv|].
  exists [(url, params)]. split; [reflexivity|].
  constructor; [|constructor]. cbn [snd].
  destruct Hk as [-> | Hk]; [now left|]. right.
  exists (current_api_key u). split; [|exact Hk].
  unfold current_api_key. apply nth_In. exact Hv.
Qed.

Lemma files_kept_created (u : Updater) (w : World) (p : pystr) :
  files_kept (u, w) (u, created p w).
Proof. intros q. apply in_fs_created_mono. Qed.

(** X14: what the download phase never does.  Whatever the outcome of the
    loop of [main] over the issues, no path that existed is lost, the
    catalog file is as it was, and so are the key list and the stop
    threshold. *)
Theorem processing_keeps_what_exists fuel out issues totals (s : State) :
  let s' := snd (run_issues fuel out issues totals s) in
  files_kept s s' /\
  catalog_file (snd s') = catalog_file (snd s) /\
  api_keys (fst s') = api_keys (fst s) /\
  stop_threshold (fst s') = stop_threshold (fst s).
Proof.
  cbv zeta. split.
  - apply (moves_run_issues files_kept); try (intros u w; intros; intros p Hp; exact Hp).
    + intros s0 p Hp. exact Hp.
    + intros s1 s2 s3 H1 H2 p Hp. auto.
    + intros u w p. apply files_kept_created.
  - pose (proj := fun s : State =>
                    (catalog_file (snd s), api_keys (fst s), stop_threshold (fst s))).
    pose proof (keeps_run_issues proj ltac:(reflexivity) ltac:(reflexivity)
                  ltac:(reflexivity) ltac:(reflexivity) ltac:(reflexivity)
                  ltac:(reflexivity) ltac:(reflexivity) ltac:(reflexivity)
                  ltac:(reflexivity) fuel out issues totals s) as H.
    split; [exact (f_equal (fun x => fst (fst x)) H)|].
    split; [exact (f_equal (fun x => snd (fst x)) H) | exact (f_equal snd H)].
Qed.

(** X15: the keys in use.  From a state whose rotation stands on one of
    the configured keys, both phases end, whatever their outcome, with the
    key list unchanged and the rotation on one of its keys; each request
    sent on the way has either no parameters at all (the downloads of line
    143) or one of the configured keys as its 'api_key' (line 76). *)
Theorem requests_carry_configured_keys parse fuel out issues totals (s : State) :
  valid_keys s ->
  forall s',
  s' = snd (update_issues_file parse fuel s) \/
  s' = snd (run_issues fuel out issues totals s) ->
  api_keys (fst s') = api_keys (fst s) /\
  In (current_api_key (fst s')) (api_keys (fst s)) /\
  exists new, sent (snd s') = sent (snd s) ++ new /\
              requests_keyed (api_keys (fst s)) new.
Proof.
  intros Hv s' Hs'.
  assert (H : keys_respected s s').
  { destruct Hs' as [-> | ->].
    - apply (moves_update_issues_file keys_respected);
        first [ apply keys_respected_trans | apply keys_respected_rotate
              | apply keys_respected_answered
              | intros; apply keys_respected_same; reflexivity ].
    - apply (moves_run_issues keys_respected);
        first [ apply keys_respected_trans | apply keys_respected_rotate
              | apply keys_respected_answered
              | intros; apply keys_respected_same; reflexivity ]. }
  destruct H as [K H]. destruct (H Hv) as (Hv' & new & E & F).
  split; [exact K|]. split.
  - rewrite <- K. unfold current_api_key. apply nth_In. exact Hv'.
  - now exists new.
Qed.

Lemma requests_carry_configured_keys_witness :
  valid_keys always_ok /\
  In (current_api_key
        (fst (snd (run_issues 3 records [issue_170_45; issue_170_44] (0, 0) always_ok))))
     two_keys.
Proof.
  assert (Hv : valid_keys always_ok) by (unfold valid_keys; cbn; lia).
  split; [exact Hv|].
  exact (proj1 (proj2 (requests_carry_configured_keys (fun _ => None) 3 records
                         [issue_170_45; issue_170_44] (0, 0) always_ok Hv _
                         (or_intror eq_refl)))).
Defined.

Lemma no_backoff_same (s s' : State) :
  api_keys (fst s') = api_keys (fst s) ->
  sleeps (snd s') = sleeps (snd s) ->
  no_backoff s s'.
Proof.
  intros K S. split; [exact K|]. exists []. split; [now rewrite app_nil_r|].
  reflexivity.
Qed.

Lemma no_backoff_trans (s1 s2 s3 : State) :
  no_backoff s1 s2 -> no_backoff s2 s3 -> no_backoff s1 s3.
Proof.
  intros (K1 & new1 & E1 & F1) (K2 & new2 & E2 & F2). split; [congruence|].
  exists (new1 ++ new2). split; [now rewrite E2, E1, app_assoc|].
  intros H. rewrite existsb_app, (F1 H). rewrite K1 in F2. now rewrite (F2 H).
Qed.

Lemma no_backoff_slept (u : Updater) (w : World) (e : sleep_event) :
  allowed_sleep u e -> no_backoff (u, w) (u, slept e w).
Proof.
  intros Ha. split; [reflexivity|]. exists [e]. split; [reflexivity|].
  cbn [fst existsb]. intros H. rewrite orb_false_r.
  destruct e; [|reflexivity|reflexivity]. cbn [allowed_sleep] in Ha. lia.
Qed.

(** X16: with several keys the run never waits out a rate limit.  From a
    state with at least two keys, whatever the answers and whatever the
    outcome, neither phase adds a backoff sleep: every rate limit is met
    by a rotation (lines 38-41), and the sleeps added are throttle and
    timeout sleeps only. *)
Theorem several_keys_never_back_off parse fuel out issues totals (s : State) :
  1 < length (api_keys (fst s)) ->
  forall s',
  s' = snd (update_issues_file parse fuel s) \/
  s' = snd (run_issues fuel out issues totals s) ->
  exists new, sleeps (snd s') = sleeps (snd s) ++ new /\
              existsb is_backoff new = false.
Proof.
  intros Hk s' Hs'.
  assert (H : no_backoff s s').
  { destruct Hs' as [-> | ->].
    - apply (moves_update_issues_file no_backoff);
        first [ apply no_backoff_trans | apply no_backoff_slept
              | intros; apply no_backoff_same; reflexivity ].
    - apply (moves_run_issues no_backoff);
        first [ apply no_backoff_trans | apply no_backoff_slept
              | intros; apply no_backoff_same; reflexivity ]. }
  destruct H as (_ & new & E & F). exists new. split; [exact E | exact (F Hk)].
Qed.

Lemma several_keys_never_back_off_witness :
  1 < length (api_keys (fst always_ok)) /\
  exists new,
    sleeps (snd (snd (run_issues 3 records [issue_170_45] (0, 0) always_ok)))
      = sleeps (snd always_ok) ++ new /\
    existsb is_backoff new = false.
Proof.
  assert (Hk : 1 < length (api_keys (fst always_ok))) by (cbn; lia).
  split; [exact Hk|].
  exact (several_keys_never_back_off (fun _ => None) 3 records [issue_170_45] (0, 0)
           always_ok Hk _ (or_intror eq_refl)).
Defined.



(** ** Startup *)

Lemma strip_idempotent (s : pystr) : strip (strip s) = strip s.
Proof.
  apply strip_fixed.
  - intros c rest. apply strip_head.
  - intros c init. apply strip_last.
Qed.

Lemma loaded_keys_status (file : option (list pystr)) (env : option pystr) :
  forall status, load_api_keys file env = inr status -> status = 1%Z.
Proof.
  intros status. unfold load_api_keys. destruct file as [lines|].
  - destruct (map strip _); [|discriminate]. intros H. now injection H as <-.
  - destruct env as [[|c k]|]; try discriminate; intros H; now injection H as <-.
Qed.

(** X18: the keys [load_api_keys] hands over.  When it returns keys there
    is at least one, none is empty, and an updater built on them stands
    on a key; keys read from the file are the non-blank lines in order,
    each stripped of surrounding whitespace; the key of the environment
    is taken only when the file is missing, and as it is.  In all other
    cases the program exits with status 1. *)
Theorem loaded_keys_usable (file : option (list pystr)) (env : option pystr) :
  match load_api_keys file env with
  | inl keys =>
      keys <> [] /\
      Forall (fun k => k <> []) keys /\
      (forall w, valid_keys (new_updater keys, w)) /\
      match file with
      | Some lines =>
          keys = filter (fun k => negb (PyStr.eqb k [])) (map strip lines) /\
          Forall (fun k => strip k = k) keys
      | None => env = Some (hd [] keys) /\ length keys = 1
      end
  | inr status =>
      status = 1%Z /\
      match file with
      | Some lines => Forall (fun line => strip line = []) lines
      | None => truthy env = false
      end
  end.
Proof.
  assert (Hfilter : forall lines,
            map strip (filter (fun line => truthy (Some (strip line))) lines)
            = filter (fun k => negb (PyStr.eqb k [])) (map strip lines)).
  { induction lines as [|l lines IH]; cbn [map filter]; [reflexivity|].
    destruct (strip l) as [|c k] eqn:E; cbn [truthy PyStr.eqb negb].
    - exact IH.
    - cbn [map]. rewrite E. f_equal. exact IH. }
  unfold load_api_keys. destruct file as [lines|].
  - rewrite Hfilter.
    destruct (filter _ (map strip lines)) as [|k keys] eqn:E.
    + split; [reflexivity|].
      apply Forall_forall. intros l Hl.
      destruct (strip l) as [|c r] eqn:El; [reflexivity|].
      assert (Hin : In (c :: r) (filter (fun k => negb (PyStr.eqb k [])) (map strip lines))).
      { apply filter_In. split; [|reflexivity]. rewrite <- El. now apply in_map. }
      rewrite E in Hin. contradiction.
    + assert (Hall : forall x, In x (k :: keys) -> x <> [] /\ strip x = x).
      { intros x Hx. rewrite <- E in Hx. apply filter_In in Hx as [Hx Hne].
        apply in_map_iff in Hx as (l & <- & _). split.
        - intros E0. rewrite E0 in Hne. discriminate.
        - apply strip_idempotent. }
      split; [discriminate|]. split; [|split; [|split]].
      * apply Forall_forall. intros x Hx. now apply Hall.
      * intros w. unfold valid_keys. cbn. lia.
      * reflexivity.
      * apply Forall_forall. intros x Hx. now apply Hall.
  - destruct env as [[|c k]|].
    + split; reflexivity.
    + split; [discriminate|]. split; [|split; [|split]].
      * constructor; [discriminate | constructor].
      * intros w. unfold valid_keys. cbn. lia.
      * reflexivity.
      * reflexivity.
    + split; reflexivity.
Qed.

(** ** The preamble of [main] *)

Lemma pystr_geb_trans (a : pystr) :
  forall b c, PyStr.ltb a b = false -> PyStr.ltb b c = false -> PyStr.ltb a c = false.
Proof.
  induction a as [|x a IH]; intros [|y b] [|z c]; cbn [PyStr.ltb];
    try reflexivity; try discriminate.
  intros H1 H2.
  apply orb_false_iff in H1 as [H1 H1'], H2 as [H2 H2'].
  apply N.ltb_ge in H1, H2.
  apply orb_false_iff. split; [apply N.ltb_ge; lia|].
  destruct (N.eqb_spec x z) as [->|Hne]; [|reflexivity]. cbn [andb].
  assert (y = z) by lia. subst y.
  rewrite N.eqb_refl in H1', H2'. cbn [andb] in H1', H2'.
  exact (IH b c H1' H2').
Qed.

Lemma date_descending_head (x : issue) (l : list issue) :
  date_descending (x :: l) ->
  forall y, In y l -> PyStr.ltb (issueDate x) (issueDate y) = false.
Proof.
  revert x. induction l as [|z l IH]; intros x H y Hy; [contradiction|].
  destruct H as [Hxz Hl]. destruct Hy as [<- | Hy]; [exact Hxz|].
  apply (pystr_geb_trans _ (issueDate z)); [exact Hxz | now apply IH].
Qed.

Lemma date_descending_tail (x : issue) (l : list issue) :
  date_descending (x :: l) -> date_descending l.
Proof. intros [_ H]. exact H. Qed.

Lemma filter_date_descending (f : issue -> bool) (l : list issue) :
  date_descending l -> date_descending (filter f l).
Proof.
  induction l as [|x l IH]; intros H; cbn [filter]; [exact I|].
  pose proof (IH (date_descending_tail x l H)) as Hl.
  destruct (f x); [|exact Hl].
  cbn [date_descending]. split; [|exact Hl].
  destruct (filter f l) as [|y l'] eqn:E; [exact I|].
  apply (date_descending_head x l H).
  assert (Hy : In y (filter f l)) by (rewrite E; now left).
  now apply filter_In in Hy as [Hy _].
Qed.

Lemma sort_by_date_desc_fixed (l : list issue) :
  date_descending l -> sort_by_date_desc l = l.
Proof.
  induction l as [|x l IH]; intros H; [reflexivity|].
  unfold sort_by_date_desc in *. cbn [fold_right].
  rewrite (IH (date_descending_tail x l H)).
  destruct l as [|y l]; [reflexivity|]. cbn [insert_desc].
  destruct H as [Hxy _]. now rewrite Hxy.
Qed.

Lemma from_2014_filter year_of (all_issues l : list issue) :
  from_2014 year_of all_issues = Some l ->
  l = filter (from_year_2014 year_of) all_issues /\
  Forall (fun i => year_of (replace_Z (issueDate i)) <> None) all_issues.
Proof.
  revert l. induction all_issues as [|i rest IH]; intros l; cbn [from_2014 filter].
  - intros H. injection H as <-. split; [reflexivity | constructor].
  - unfold from_year_2014 at 1.
    destruct (year_of (replace_Z (issueDate i))) as [year|] eqn:Ey; [|discriminate].
    destruct (from_2014 year_of rest) as [l'|]; [|discriminate].
    intros H. injection H as <-. destruct (IH l' eq_refl) as [-> Hall].
    split; [reflexivity|]. constructor; [congruence | exact Hall].
Qed.

(** X19: the issues [main] goes through.  When the filter of lines
    471-475 and the sort of line 478 get through, every date of the
    catalog parsed; the issues kept are exactly those of the catalog whose
    year is 2014 or later; they come in descending order of date text;
    and on a catalog that is already in that order, as
    [update_issues_file] returns it, they are the catalog's entries in the
    catalog's order. *)
Theorem preamble_selects_from_2014 year_of (all_issues issues : list issue) :
  issues_2014_onwards year_of all_issues = Some issues ->
  Forall (fun i => year_of (replace_Z (issueDate i)) <> None) all_issues /\
  (forall i, In i issues <->
             In i all_issues /\
             exists year, year_of (replace_Z (issueDate i)) = Some year /\
                          (2014 <= year)%Z) /\
  date_descending issues /\
  length issues <= length all_issues /\
  (date_descending all_issues ->
   issues = filter (from_year_2014 year_of) all_issues).
Proof.
  unfold issues_2014_onwards.
  destruct (from_2014 year_of all_issues) as [l|] eqn:E; [|discriminate].
  intros H. injection H as <-.
  destruct (from_2014_filter year_of _ _ E) as [-> Hall].
  split; [exact Hall|]. split; [|split; [|split]].
  - intros i. split.
    + intros Hi. apply (Permutation_in _ (sort_by_date_desc_perm _)) in Hi.
      apply filter_In in Hi as [Hi Hy]. split; [exact Hi|].
      unfold from_year_2014 in Hy.
      destruct (year_of (replace_Z (issueDate i))) as [year|]; [|discriminate].
      exists year. split; [reflexivity|]. now apply Z.leb_le.
    + intros (Hi & year & Ey & Hy).
      apply (Permutation_in _ (Permutation_sym (sort_by_date_desc_perm _))).
      apply filter_In. split; [exact Hi|].
      unfold from_year_2014. rewrite Ey. now apply Z.leb_le.
  - apply sort_by_date_desc_descending.
  - rewrite (Permutation_length (sort_by_date_desc_perm _)). apply filter_length_le.
  - intros Hd. apply sort_by_date_desc_fixed. now apply filter_date_descending.
Qed.

Lemma preamble_selects_from_2014_witness :
  issues_2014_onwards iso_year [issue_170_45; issue_159_170; issue_170_46]
    = Some [issue_170_46; issue_170_45] /\
  length [issue_170_46; issue_170_45] <= 3.
Proof.
  assert (E : issues_2014_onwards iso_year [issue_170_45; issue_159_170; issue_170_46]
              = Some [issue_170_46; issue_170_45]) by (vm_compute; reflexivity).
  split; [exact E|].
  exact (proj1 (proj2 (proj2 (proj2
           (preamble_selects_from_2014 iso_year _ _ E))))).
Defined.

(** ** [main] as a whole *)

Lemma update_issues_file_keeps_files parse fuel (s : State) :
  fs (snd (snd (update_issues_file parse fuel s))) = fs (snd s).
Proof.
  apply (moves_update_issues_file (fun s s' => fs (snd s') = fs (snd s)));
    try reflexivity.
  intros s1 s2 s3 H1 H2. now rewrite H2.
Qed.

Lemma run_issues_files_kept fuel out issues totals (s : State) :
  files_kept s (snd (run_issues fuel out issues totals s)).
Proof.
  apply (moves_run_issues files_kept);
    first [ apply files_kept_created
          | intros s1 s2 s3 H1 H2 p Hp; now apply H2, H1
          | intros; intros p Hp; exact Hp ].
Qed.

(** [output_dir.mkdir(exist_ok=True)]: what it leaves behind. *)
Lemma mkdir_run (p : pystr) (s : State) :
  match mkdir p s with
  | (Ret _, s') =>
      in_fs (snd s') p = true /\
      (forall q, in_fs (snd s) q = true -> in_fs (snd s') q = true) /\
      catalog_file (snd s') = catalog_file (snd s)
  | (Raise e, s') => e = OtherError /\ fs (snd s') = fs (snd s)
  | (OutOfFuel, _) => False
  end.
Proof.
  destruct s as [u w].
  unfold mkdir, get_world, modify_world, bind, ret, raise, verdict_on. cbn [fst snd].
  destruct (in_fs w p) eqn:E; cbn [fst snd]; [now repeat split|].
  destruct (dir_ready w p); cbn [fst snd].
  - destruct (disk w (disk_pos w)); cbn [fst snd]; [|now split|now split].
    split; [apply created_in_fs|]. split; [|reflexivity].
    intros q Hq. now apply in_fs_created_mono.
  - now split.
Qed.

Lemma run_issues_no_raise fuel out (issues : list issue) :
  forall totals s e s', run_issues fuel out issues totals s <> (Raise e, s').
Proof.
  induction issues as [|iss issues IH]; intros totals s e s'; cbn [run_issues].
  - discriminate.
  - destruct (process_issue fuel iss out s) as [[[n stop]|[]|] s1].
    + destruct stop; [discriminate | apply IH].
    + discriminate.
    + apply IH.
    + discriminate.
Qed.

Lemma run_issues_processed fuel out (issues : list issue) :
  forall totals s r s',
  run_issues fuel out issues totals s = (Ret r, s') ->
  snd r <= snd totals + length issues.
Proof.
  induction issues as [|iss issues IH]; intros totals s r s'; cbn [run_issues length].
  - intros H. injection H as <- _. lia.
  - destruct (process_issue fuel iss out s) as [[[n stop]|[]|] s1].
    + destruct stop.
      * intros H. injection H as <- _. cbn [snd]. lia.
      * intros H. apply IH in H. cbn [snd] in H. lia.
    + intros H. injection H as <- _. lia.
    + intros H. apply IH in H. lia.
    + discriminate.
Qed.

Lemma issues_2014_onwards_length year_of (all_issues issues : list issue) :
  issues_2014_onwards year_of all_issues = Some issues ->
  length issues <= length all_issues.
Proof.
  unfold issues_2014_onwards.
  destruct (from_2014 year_of all_issues) as [l|] eqn:E; [|discriminate].
  intros H. injection H as <-.
  destruct (from_2014_filter year_of _ _ E) as [-> _].
  rewrite (Permutation_length (sort_by_date_desc_perm _)). apply filter_length_le.
Qed.

(** X20: the ways [main] ends.  It exits, always with status 1, only
    before anything is downloaded: without usable keys the world is as it
    was, and with an empty catalog the set of archive paths is as it was.
    Whatever exception leaves it, no path that existed is lost; an error
    other than an interrupt leaves it only before the loop over the
    issues (from the synchronization, the date filter or the creation of
    the output directory), so with the archive paths as they were.  When
    it reaches the summary, the output directory exists, no path that
    existed is lost, and the number of issues checked is at most the
    length of a non-empty catalog in descending order of date text, which
    is what the catalog file now holds, or the sorted catalog the file
    held, left as it was. *)
Theorem main_endings parse year_of fuel file env (w : World) :
  match main parse year_of fuel file env w with
  | (Exit status, w') =>
      status = 1%Z /\ fs w' = fs w /\
      (forall status', load_api_keys file env = inr status' -> w' = w)
  | (Uncaught e, w') =>
      (forall p, in_fs w p = true -> in_fs w' p = true) /\
      (e = OtherError -> fs w' = fs w)
  | (Summary issues_processed total_new_downloads requests, w') =>
      in_fs w' (lit "congressional_records") = true /\
      (forall p, in_fs w p = true -> in_fs w' p = true) /\
      exists catalog,
        catalog <> [] /\ date_descending catalog /\
        issues_processed <= length catalog /\
        (catalog_file w' = Some catalog \/
         catalog = load_existing w /\ catalog_file w' = catalog_file w)
  | (NoFuel, _) => True
  end.
Proof.
  unfold main.
  pose proof (loaded_keys_status file env) as Hstatus.
  assert (Hsame : forall w', fs w' = fs w ->
            (forall p, in_fs w p = true -> in_fs w' p = true)).
  { intros w' Hf p Hp. unfold in_fs in *. now rewrite Hf. }
  destruct (load_api_keys file env) as [keys|status].
  - set (s0 := (new_updater keys, w)).
    pose proof (update_issues_file_keeps_files parse fuel s0) as Hfs.
    destruct (update_issues_file parse fuel s0) as [[[|i rest]|e|] [u1 w1]] eqn:E;
      cbn [fst snd] in Hfs.
    + split; [reflexivity|]. split; [exact Hfs|]. discriminate.
    + destruct (issues_2014_onwards year_of (i :: rest)) as [issues|] eqn:Ei;
        [|split; [now apply Hsame | intros _; exact Hfs]].
      set (out := lit "congressional_records").
      pose proof (mkdir_run out (new_updater keys, w1)) as Hmk.
      destruct (mkdir out (new_updater keys, w1)) as [[[]|e|] [u2 w2]];
        cbn [fst snd] in Hmk;
        [| destruct Hmk as [_ Hf2]; split; [apply Hsame|intros _];
           rewrite Hf2; exact Hfs
         | contradiction ].
      destruct Hmk as (Hout & H12 & Hc12).
      set (s2 := (new_updater keys, w2)).
      pose proof (run_issues_files_kept fuel out issues (0, 0) s2) as Hkept.
      pose proof (keeps_run_issues the_catalog ltac:(reflexivity) ltac:(reflexivity)
                    ltac:(reflexivity) ltac:(reflexivity) ltac:(reflexivity)
                    ltac:(reflexivity) ltac:(reflexivity) ltac:(reflexivity)
                    ltac:(reflexivity) fuel out issues (0, 0) s2) as Hcat.
      pose proof (run_issues_no_raise fuel out issues (0, 0) s2) as Hraise.
      pose proof (run_issues_processed fuel out issues (0, 0) s2) as Hn.
      destruct (run_issues fuel out issues (0, 0) s2) as [[[d n]|e|] [u3 w3]] eqn:Er;
        cbn [fst snd] in *.
      * split; [now apply Hkept|]. split.
        { intros p Hp. apply Hkept, H12. unfold in_fs in *. now rewrite Hfs. }
        exists (i :: rest). split; [discriminate|].
        destruct (update_issues_file_inv _ _ _ _ _ E)
          as (start & kept & rest' & _ & _ & _ & _ & Hm).
        unfold the_catalog in Hcat. cbn [snd] in Hcat, Hm.
        specialize (Hn _ _ eq_refl). cbn [snd] in Hn.
        unfold s0, s2 in *. cbn [snd] in *.
        pose proof (issues_2014_onwards_length _ _ _ Ei) as Hlen.
        destruct kept as [|k kept]; destruct Hm as [Hm Hfile].
        -- split; [|split; [lia|]].
           ++ rewrite Hm. unfold load_existing.
              destruct (catalog_file w); [apply sort_by_date_desc_descending | exact I].
           ++ right. split; [exact Hm | congruence].
        -- split; [|split; [lia|]].
           ++ rewrite Hm. apply sort_by_date_desc_descending.
           ++ left. congruence.
      * exfalso. exact (Hraise e _ eq_refl).
      * exact I.
    + split; [now apply Hsame | intros _; exact Hfs].
    + exact I.
  - split; [exact (Hstatus status eq_refl)|]. split; [reflexivity|]. reflexivity.
Qed.

(** ** One issue, two listings *)

Lemma get_articles_for_issue_answered fuel v i (s : State) body json :
  calm s -> answer s 0 = Status200 body json -> 0 < fuel ->
  exists s',
    get_articles_for_issue fuel v i s = (Ret (listed json), s') /\
    calm s' /\
    net (snd s') = net (snd s) /\
    net_pos (snd s') = net_pos (snd s) + 1 /\
    fs (snd s') = fs (snd s) /\
    the_controller s' = the_controller s.
Proof.
  intros Hc Ha Hfuel. unfold get_articles_for_issue.
  destruct (make_request_decided 0 fuel (articles_url v i)
              [(lit "format", lit "json"); (lit "limit", of_nat 250)] s Hc
              (fun k Hk => False_ind _ (Nat.nlt_0_r k Hk))
              ltac:(rewrite Ha; reflexivity) Hfuel)
    as (s' & E & Hc' & Hn & Hp & _ & Hf & _).
  rewrite Ha in E.
  assert (Hctl : the_controller s' = the_controller s).
  { eapply (keeps_run _ _ the_controller _ s s'); [|exact E].
    unfold make_request. apply keeps_make_request_loop; blind. }
  exists s'. run E. unfold listed.
  split; [now destruct (articles json)|]. repeat split; assumption.
Qed.

(** X21: an issue that is not skipped is listed twice.  With the congress
    directory there, no interrupt pending and the next two requests
    answered with listings, [process_issue] judges completeness on the
    first listing and the files as they are; when that ends the run it
    has sent one request and changed no file; otherwise it sets the
    streak, asks for the listing again, and what it downloads follows the
    second listing, whatever the first one held. *)
Theorem issue_listed_twice fuel iss out (s : State) body0 json0 body1 json1 :
  calm s -> 0 < fuel ->
  in_fs (snd s) (congress_dir_of out iss) = true ->
  answer s 0 = Status200 body0 json0 ->
  answer s 1 = Status200 body1 json1 ->
  let counts := count_articles (in_fs (snd s)) out iss (listed json0) (0, 0) in
  let is_complete := (0 <? fst counts) && (snd counts =? fst counts) in
  let streak := if is_complete then S (consecutive_existing_issues (fst s)) else 0 in
  if is_complete && (stop_threshold (fst s) <=? streak) then
    exists s1,
      process_issue fuel iss out s = (Ret (0, true), s1) /\
      net_pos (snd s1) = net_pos (snd s) + 1 /\
      fs (snd s1) = fs (snd s) /\
      consecutive_existing_issues (fst s1) = streak
  else
    exists s2,
      process_issue fuel iss out s
        = (n <- download_articles out iss (listed json1) 0 ;; ret (n, false)) s2 /\
      net_pos (snd s2) = net_pos (snd s) + 2 /\
      fs (snd s2) = fs (snd s) /\
      consecutive_existing_issues (fst s2) = streak.
Proof.
  intros Hc Hfuel Hdir H0 H1 counts is_complete streak.
  destruct (get_articles_for_issue_answered fuel (volumeNumber iss) (issueNumber iss)
              s body0 json0 Hc H0 Hfuel)
    as (s1 & E1 & Hc1 & Hn1 & Hp1 & Hf1 & Hctl1).
  assert (Hcheck : check_issue_completeness fuel iss out s
                   = (Ret (is_complete, snd counts, fst counts), s1)).
  { unfold check_issue_completeness, path_exists, get_world.
    unfold bind at 1 2. unfold ret at 1. cbn [fst snd].
    fold (in_fs (snd s) (congress_dir_of out iss)). rewrite Hdir. cbn [negb].
    run E1. unfold bind, ret. cbn [fst snd].
    assert (Hfs : in_fs (snd s1) = in_fs (snd s)).
    { unfold in_fs. now rewrite Hf1. }
    rewrite Hfs. fold counts. destruct counts as [t e]. reflexivity. }
  assert (Hk1 : consecutive_existing_issues (fst s1) = consecutive_existing_issues (fst s)
                /\ stop_threshold (fst s1) = stop_threshold (fst s)).
  { unfold the_controller in Hctl1. now injection Hctl1. }
  destruct Hk1 as [Hk1 Ht1].
  unfold process_issue. run Hcheck.
  (* the second listing, asked for from the state [s1'] with the streak set *)
  set (s1' := (set_consecutive streak (fst s1), snd s1)).
  assert (Hc1' : calm s1') by exact Hc1.
  assert (Ha1' : answer s1' 0 = Status200 body1 json1).
  { unfold answer, s1'. cbn [fst snd].
    rewrite Hn1, Hp1, Nat.add_0_r. exact H1. }
  destruct (get_articles_for_issue_answered fuel (volumeNumber iss) (issueNumber iss)
              s1' body1 json1 Hc1' Ha1' Hfuel)
    as (s2 & E2 & Hc2 & Hn2 & Hp2 & Hf2 & Hctl2).
  assert (Hdir1 : in_fs (snd s1') (congress_dir_of out iss) = true).
  { unfold s1'. cbn [snd]. rewrite (in_fs_congr _ _ _ Hf1). exact Hdir. }
  assert (Hmissing : download_missing fuel iss out s1'
            = (n <- download_articles out iss (listed json1) 0 ;; ret (n, false)) s2).
  { unfold download_missing, mkdir, get_world. unfold bind at 1 2.
    cbn [fst snd]. rewrite Hdir1. unfold ret at 1. cbn [fst snd].
    destruct s1' as [u1' w1']. now run E2. }
  assert (Hs2 : net_pos (snd s2) = net_pos (snd s) + 2 /\
                fs (snd s2) = fs (snd s) /\
                consecutive_existing_issues (fst s2) = streak).
  { split; [|split].
    - rewrite Hp2. unfold s1'. cbn [fst snd]. lia.
    - rewrite Hf2. unfold s1'. cbn [fst snd]. exact Hf1.
    - unfold the_controller in Hctl2. now injection Hctl2. }
  assert (Hstep : forall stop,
            (stop_threshold (fst s) <=? S (consecutive_existing_issues (fst s))) = stop ->
            (modify_self (fun u => set_consecutive (S (consecutive_existing_issues u)) u) ;;
             u <- get_self ;;
             if stop_threshold u <=? consecutive_existing_issues u then ret (0, true)
             else download_missing fuel iss out) s1
            = (if stop then ret (0, true) else download_missing fuel iss out)
                (set_consecutive (S (consecutive_existing_issues (fst s))) (fst s1),
                 snd s1)).
  { intros stop Estop. unfold modify_self, get_self, bind. cbn [fst snd].
    unfold set_consecutive at 1 2. cbn [stop_threshold consecutive_existing_issues].
    now rewrite Ht1, Hk1, Estop. }
  destruct is_complete eqn:Ecomplete; cbn [andb].
  - destruct (stop_threshold (fst s) <=? streak) eqn:Estop.
    + exists s1'. rewrite (Hstep true Estop). split; [reflexivity|].
      unfold s1'. cbn [fst snd].
      split; [exact Hp1|]. split; [exact Hf1 | reflexivity].
    + exists s2. rewrite (Hstep false Estop). split; [exact Hmissing | exact Hs2].
  - unfold modify_self. unfold bind at 1. cbn [fst snd].
    fold s1'. exists s2. split; [exact Hmissing | exact Hs2].
Qed.

Lemma issue_listed_twice_witness :
  calm listing_grows /\
  exists s2,
    process_issue 3 issue_170_45 records listing_grows
      = (n <- download_articles records issue_170_45
                [mkArticle (Some (lit "Senate Section")) [with_url; second_article]] 0 ;;
         ret (n, false)) s2 /\
    net_pos (snd s2) = 2 /\
    consecutive_existing_issues (fst s2) = 1.
Proof.
  assert (Hc : calm listing_grows) by reflexivity.
  split; [exact Hc|].
  pose proof (issue_listed_twice 3 issue_170_45 records listing_grows
                (lit "{}") (mkPayload (Some [mkArticle (Some (lit "Senate Section"))
                                               [with_url]]) None None)
                (lit "{}") (mkPayload (Some [mkArticle (Some (lit "Senate Section"))
                                               [with_url; second_article]]) None None)
                Hc (Nat.lt_0_succ 2) eq_refl eq_refl eq_refl) as H.
  cbv zeta in H.
  match type of H with
  | (if ?c then _ else _) => replace c with false in H by (vm_compute; reflexivity)
  end.
  destruct H as (s2 & E & Hp & _ & Hk).
  exists s2. split; [exact E|]. split; [exact Hp|].
  rewrite Hk. vm_compute. reflexivity.
Defined.
